(** * Golf shaft analyzer: the normalization pipeline

    A shallow embedding of [src/ingestion/schemas.py],
    [src/ingestion/normalizer.py], [src/ingestion/load_data.py], the
    filter of [src/analysis/compare.py] and the listing endpoints of
    [src/api/main.py], with the properties of the pipeline stated and
    proved over it.

    Conventions.
    - Python text is a [string] of 8-bit characters; the model covers
      ASCII text (the alias tables, the flex pattern and every literal
      of the source are ASCII).
    - Python floats are IEEE 754 binary64 numbers, Rocq's primitive
      [float]; comparisons are the IEEE ones ([nan] compares false).
    - A raised exception is a value of [exn]; a function that may raise
      returns a [result]. *)

From Stdlib Require Import ZArith String Ascii List Bool Floats Lia.
From Stdlib Require Import DecimalString.
From stdpp Require Import gmap strings list sorting.

Import ListNotations.
Local Open Scope string_scope.
Local Open Scope Z_scope.

(* [simpl] may unfold the concatenation of texts. *)
#[local] Arguments String.append !s1 s2 : simpl nomatch.

(** ** Exceptions and results *)

(** The exception classes the pipeline can raise. pydantic's
    [ValidationError] derives from [ValueError]; it carries the names of
    the offending fields. *)
Inductive exn : Type :=
  | ValueError (msg : string)
  | ValidationError (fields : list string)
  | TypeError (msg : string)
  | AttributeError (msg : string)
  | OverflowError (msg : string).

Inductive result (A : Type) : Type :=
  | Ok (a : A)
  | Raise (e : exn).

Arguments Ok {A} a.
Arguments Raise {A} e.

Definition bind {A B : Type} (r : result A) (k : A -> result B) : result B :=
  match r with
  | Ok a => k a
  | Raise e => Raise e
  end.

Notation "'do' x <- r ; k" := (bind r (fun x => k))
  (at level 10, x name, r at level 100, k at level 200).

(** [except (ValueError, KeyError)]: does the clause catch [e]?  No
    [KeyError] is ever raised by the code under it. *)
Definition is_ValueError (e : exn) : bool :=
  match e with
  | ValueError _ | ValidationError _ => true
  | TypeError _ | AttributeError _ | OverflowError _ => false
  end.

(** ** Text operations *)

Definition code (c : ascii) : N := N_of_ascii c.

(** [str.isspace] on the ASCII range: TAB, LF, VT, FF, CR, the four
    separators FS..US, and the space. *)
Definition is_space (c : ascii) : bool :=
  let n := code c in
  ((9 <=? n) && (n <=? 13) || (28 <=? n) && (n <=? 32))%N.

Definition lower_char (c : ascii) : ascii :=
  let n := code c in
  if ((65 <=? n) && (n <=? 90))%N then ascii_of_N (n + 32) else c.

Fixpoint lower (s : string) : string :=
  match s with
  | EmptyString => EmptyString
  | String c s' => String (lower_char c) (lower s')
  end.

Fixpoint lstrip (s : string) : string :=
  match s with
  | EmptyString => EmptyString
  | String c s' => if is_space c then lstrip s' else s
  end.

Fixpoint rstrip (s : string) : string :=
  match s with
  | EmptyString => EmptyString
  | String c s' =>
      match rstrip s' with
      | EmptyString => if is_space c then EmptyString else String c EmptyString
      | r => String c r
      end
  end.

(** [s.strip()] *)
Definition strip (s : string) : string := rstrip (lstrip s).

(** [s.replace(" ", "")] *)
Fixpoint remove_spaces (s : string) : string :=
  match s with
  | EmptyString => EmptyString
  | String c s' =>
      if Ascii.eqb c " " then remove_spaces s' else String c (remove_spaces s')
  end.

(** [bool(s)] for text: non-empty. *)
Definition nonempty (s : string) : bool :=
  match s with
  | EmptyString => false
  | String _ _ => true
  end.

(** ** Enumerations of [schemas.py] *)

Inductive ClubType : Type := WOODS | FAIRWAY | HYBRID | IRON | WEDGE | PUTTER.

Inductive Flex : Type := LADIES | SENIOR | REGULAR | STIFF | X_STIFF | TX.

(** [LaunchProfile], [SpinProfile] and [Kickpoint] are three classes
    with the same five members. *)
Inductive LaunchProfile : Type :=
  | LAUNCH_LOW | LAUNCH_LOW_MID | LAUNCH_MID | LAUNCH_MID_HIGH | LAUNCH_HIGH.

Inductive SpinProfile : Type :=
  | SPIN_LOW | SPIN_LOW_MID | SPIN_MID | SPIN_MID_HIGH | SPIN_HIGH.

Inductive Kickpoint : Type :=
  | KICK_LOW | KICK_LOW_MID | KICK_MID | KICK_MID_HIGH | KICK_HIGH.

Inductive TipStiffness : Type := SOFT | MEDIUM | FIRM | VERY_FIRM.

(** The [.value] of each member. *)
Definition ClubType_value (c : ClubType) : string :=
  match c with
  | WOODS => "woods" | FAIRWAY => "fairway" | HYBRID => "hybrid"
  | IRON => "iron" | WEDGE => "wedge" | PUTTER => "putter"
  end.

Definition Flex_value (f : Flex) : string :=
  match f with
  | LADIES => "Ladies" | SENIOR => "Senior" | REGULAR => "Regular"
  | STIFF => "Stiff" | X_STIFF => "X-Stiff" | TX => "TX"
  end.

Definition LaunchProfile_value (p : LaunchProfile) : string :=
  match p with
  | LAUNCH_LOW => "Low" | LAUNCH_LOW_MID => "Low-Mid" | LAUNCH_MID => "Mid"
  | LAUNCH_MID_HIGH => "Mid-High" | LAUNCH_HIGH => "High"
  end.

Definition SpinProfile_value (p : SpinProfile) : string :=
  match p with
  | SPIN_LOW => "Low" | SPIN_LOW_MID => "Low-Mid" | SPIN_MID => "Mid"
  | SPIN_MID_HIGH => "Mid-High" | SPIN_HIGH => "High"
  end.

Definition Kickpoint_value (p : Kickpoint) : string :=
  match p with
  | KICK_LOW => "Low" | KICK_LOW_MID => "Low-Mid" | KICK_MID => "Mid"
  | KICK_MID_HIGH => "Mid-High" | KICK_HIGH => "High"
  end.

Definition TipStiffness_value (t : TipStiffness) : string :=
  match t with
  | SOFT => "Soft" | MEDIUM => "Medium" | FIRM => "Firm"
  | VERY_FIRM => "Very Firm"
  end.

(** Lookup of a member by value, as the schema does when it validates
    an enum-valued field: the first member whose value is the input. *)
Definition by_value {E : Type} (value : E -> string) (members : list E)
    (v : string) : option E :=
  List.find (fun e => String.eqb (value e) v) members.

Definition ClubType_members := [WOODS; FAIRWAY; HYBRID; IRON; WEDGE; PUTTER].
Definition Flex_members := [LADIES; SENIOR; REGULAR; STIFF; X_STIFF; TX].
Definition LaunchProfile_members :=
  [LAUNCH_LOW; LAUNCH_LOW_MID; LAUNCH_MID; LAUNCH_MID_HIGH; LAUNCH_HIGH].
Definition SpinProfile_members :=
  [SPIN_LOW; SPIN_LOW_MID; SPIN_MID; SPIN_MID_HIGH; SPIN_HIGH].
Definition Kickpoint_members :=
  [KICK_LOW; KICK_LOW_MID; KICK_MID; KICK_MID_HIGH; KICK_HIGH].
Definition TipStiffness_members := [SOFT; MEDIUM; FIRM; VERY_FIRM].

Definition FLEX_ORDER (f : Flex) : Z :=
  match f with
  | LADIES => 0 | SENIOR => 1 | REGULAR => 2
  | STIFF => 3 | X_STIFF => 4 | TX => 5
  end.

(** ** The alias tables of [normalizer.py] *)

Definition FLEX_MAP : gmap string Flex :=
  list_to_map
    [ ("l", LADIES); ("ladies", LADIES);
      ("a", SENIOR); ("sr", SENIOR); ("senior", SENIOR);
      ("r", REGULAR); ("regular", REGULAR);
      ("s", STIFF); ("stiff", STIFF);
      ("x", X_STIFF); ("xs", X_STIFF); ("x-stiff", X_STIFF);
      ("xstiff", X_STIFF);
      ("tx", TX); ("xxx", TX) ].

Definition LAUNCH_MAP : gmap string LaunchProfile :=
  list_to_map
    [ ("low", LAUNCH_LOW); ("low-mid", LAUNCH_LOW_MID);
      ("low/mid", LAUNCH_LOW_MID); ("mid", LAUNCH_MID);
      ("mid-high", LAUNCH_MID_HIGH); ("mid/high", LAUNCH_MID_HIGH);
      ("high", LAUNCH_HIGH) ].

Definition SPIN_MAP : gmap string SpinProfile :=
  list_to_map
    [ ("low", SPIN_LOW); ("low-mid", SPIN_LOW_MID);
      ("low/mid", SPIN_LOW_MID); ("mid", SPIN_MID);
      ("mid-high", SPIN_MID_HIGH); ("mid/high", SPIN_MID_HIGH);
      ("high", SPIN_HIGH) ].

Definition KICKPOINT_MAP : gmap string Kickpoint :=
  list_to_map
    [ ("low", KICK_LOW); ("low-mid", KICK_LOW_MID);
      ("low/mid", KICK_LOW_MID); ("mid", KICK_MID);
      ("mid-high", KICK_MID_HIGH); ("mid/high", KICK_MID_HIGH);
      ("high", KICK_HIGH);
      ("front", KICK_LOW); ("front-mid", KICK_LOW_MID); ("rear", KICK_HIGH) ].

Definition TIP_STIFF_MAP : gmap string TipStiffness :=
  list_to_map
    [ ("soft", SOFT); ("medium", MEDIUM); ("med", MEDIUM); ("firm", FIRM);
      ("very firm", VERY_FIRM); ("extra firm", VERY_FIRM) ].

(** ** The flex pattern

    [re.search(r"[0-9.]+(s|r|x|tx|xs|a|l)$", cleaned)], as a backtracking
    matcher: the leftmost start, the longest run of the class first, the
    alternatives in the order written.  The result is [match.group(1)]. *)

(** The class [[0-9.]]. *)
Definition is_weight_char (c : ascii) : bool :=
  let n := code c in
  ((48 <=? n) && (n <=? 57) || (n =? 46))%N.

(** The alternatives of the group, in the order of the pattern. *)
Definition flex_codes : list string := ["s"; "r"; "x"; "tx"; "xs"; "a"; "l"].

(** [$]: the end of the text, or just before a newline that ends it. *)
Definition at_dollar (rest : string) : bool :=
  match rest with
  | EmptyString => true
  | String c EmptyString => Ascii.eqb c "010"
  | _ => false
  end.

(** The text after the literal [lit], when [s] starts with it. *)
Fixpoint after_literal (lit s : string) : option string :=
  match lit, s with
  | EmptyString, _ => Some s
  | String a lit', String b s' =>
      if Ascii.eqb a b then after_literal lit' s' else None
  | String _ _, EmptyString => None
  end.

(** [(a1|a2|...)$] at the start of [s]: the first alternative that
    matches with [$] after it. *)
Fixpoint match_group_dollar (alts : list string) (s : string) : option string :=
  match alts with
  | [] => None
  | a :: alts' =>
      match after_literal a s with
      | Some rest =>
          if at_dollar rest then Some a else match_group_dollar alts' s
      | None => match_group_dollar alts' s
      end
  end.

(** [[0-9.]+] followed by the group and [$], at the start of [s]: the
    run is extended as far as it goes, and given back one character at
    a time while the rest of the pattern fails. *)
Fixpoint match_run_group (s : string) : option string :=
  match s with
  | EmptyString => None
  | String c s' =>
      if is_weight_char c then
        match match_run_group s' with
        | Some g => Some g
        | None => match_group_dollar flex_codes s'
        end
      else None
  end.

(** The search: the first start position at which the pattern matches. *)
Fixpoint flex_search (s : string) : option string :=
  match match_run_group s with
  | Some g => Some g
  | None =>
      match s with
      | EmptyString => None
      | String _ s' => flex_search s'
      end
  end.

(** ** Numbers *)

(** The float nearest to [num / den] ([num >= 0], [den > 0]), ties to
    even, with the sign [neg]; an infinity when the quotient is beyond
    the finite range. *)
Definition round_quotient (neg : bool) (num den : Z) : spec_float :=
  if num =? 0 then S754_zero neg
  else
    let s := 64 + Z.log2_up den in
    let q := (num * 2 ^ s) / den in
    let r := (num * 2 ^ s) mod den in
    let l := if r =? 0 then loc_Exact else loc_Inexact (2 * r ?= den) in
    binary_round_aux prec emax neg q (- s) l.

(** The float nearest to [m * 10^e], for [m >= 0]. Exponents far outside
    the range of binary64 are decided without computing the power. *)
Definition round_decimal (neg : bool) (m e : Z) : spec_float :=
  if m =? 0 then S754_zero neg
  else if 400 <? e then S754_infinity neg
  else if e + Z.log2 m <? -1200 then S754_zero neg
  else if 0 <=? e then round_quotient neg (m * 10 ^ e) 1
  else round_quotient neg m (10 ^ (- e)).

(** [float(n)] for an [int]: the nearest float, or [OverflowError]. *)
Definition float_of_int (z : Z) : option float :=
  match round_quotient (z <? 0) (Z.abs z) 1 with
  | S754_infinity _ => None
  | sf => Some (SF2Prim sf)
  end.

Definition is_digit (c : ascii) : bool := ((48 <=? code c) && (code c <=? 57))%N.
Definition digit_value (c : ascii) : Z := Z.of_N (code c) - 48.

(** A run of digits continued: digits, each possibly preceded by one
    underscore.  Returns the number read, how many digits, and the rest. *)
Fixpoint digits_more (s : string) (acc : Z) (n : Z) : Z * Z * string :=
  match s with
  | String c s' =>
      if is_digit c then digits_more s' (10 * acc + digit_value c) (n + 1)
      else if Ascii.eqb c "_" then
        match s' with
        | String d s'' =>
            if is_digit d then digits_more s'' (10 * acc + digit_value d) (n + 1)
            else (acc, n, s)
        | EmptyString => (acc, n, s)
        end
      else (acc, n, s)
  | EmptyString => (acc, n, s)
  end.

(** [digitpart ::= digit (["_"] digit)*], continuing the number [acc]. *)
Definition digitpart (s : string) (acc : Z) : option (Z * Z * string) :=
  match s with
  | String c s' =>
      if is_digit c then Some (digits_more s' (10 * acc + digit_value c) 1)
      else None
  | EmptyString => None
  end.

(** [exponent ::= ("e" | "E") [sign] digitpart]; the text must end there. *)
Definition exponent (s : string) : option Z :=
  match s with
  | EmptyString => Some 0
  | String c s' =>
      if Ascii.eqb (lower_char c) "e" then
        let '(neg, s'') :=
          match s' with
          | String "-" t => (true, t)
          | String "+" t => (false, t)
          | _ => (false, s')
          end in
        match digitpart s'' 0 with
        | Some (e, _, EmptyString) => Some (if neg then - e else e)
        | _ => None
        end
      else None
  end.

(** [floatnumber]: the digits as one integer and the power of ten. *)
Definition floatnumber (s : string) : option (Z * Z) :=
  match s with
  | String "." s' =>
      match digitpart s' 0 with
      | Some (m, n, rest) =>
          match exponent rest with Some e => Some (m, e - n) | None => None end
      | None => None
      end
  | _ =>
      match digitpart s 0 with
      | Some (i, _, String "." rest) =>
          match digitpart rest i with
          | Some (m, n, rest') =>
              match exponent rest' with Some e => Some (m, e - n) | None => None end
          | None =>
              match exponent rest with Some e => Some (i, e) | None => None end
          end
      | Some (i, _, rest) =>
          match exponent rest with Some e => Some (i, e) | None => None end
      | None => None
      end
  end.

(** The white space [float] skips around a number: TAB, LF, VT, FF, CR
    and the space.  ([str.strip] strips the separators FS..US too;
    [float] does not.) *)
Definition is_float_space (c : ascii) : bool :=
  let n := code c in
  ((9 <=? n) && (n <=? 13) || (n =? 32))%N.

Fixpoint skip_leading_space (s : string) : string :=
  match s with
  | EmptyString => EmptyString
  | String c s' => if is_float_space c then skip_leading_space s' else s
  end.

Fixpoint drop_trailing_space (s : string) : string :=
  match s with
  | EmptyString => EmptyString
  | String c s' =>
      match drop_trailing_space s' with
      | EmptyString => if is_float_space c then EmptyString else String c EmptyString
      | r => String c r
      end
  end.

(** [float(s)] for text of the ASCII range: [None] stands for
    [ValueError]. *)
Definition float_of_str (s : string) : option float :=
  let t := drop_trailing_space (skip_leading_space s) in
  let '(neg, u) :=
    match t with
    | String "-" u => (true, u)
    | String "+" u => (false, u)
    | _ => (false, t)
    end in
  let l := lower u in
  if String.eqb l "inf" || String.eqb l "infinity" then
    Some (if neg then neg_infinity else infinity)
  else if String.eqb l "nan" then Some nan
  else
    match floatnumber u with
    | Some (m, e) => Some (SF2Prim (round_decimal neg m e))
    | None => None
    end.

(** *** [repr] of a float *)

(** [floor (log10 (n / d))] for [n, d > 0]: an estimate from the binary
    logarithms, corrected by at most [fuel] steps. *)
Definition le_pow10 (k n d : Z) : bool :=
  if 0 <=? k then 10 ^ k * d <=? n else d <=? n * 10 ^ (- k).

Fixpoint fix_log10 (fuel : nat) (k n d : Z) : Z :=
  match fuel with
  | O => k
  | S fuel' =>
      if negb (le_pow10 k n d) then fix_log10 fuel' (k - 1) n d
      else if le_pow10 (k + 1) n d then fix_log10 fuel' (k + 1) n d
      else k
  end.

Definition floor_log10 (n d : Z) : Z :=
  fix_log10 8 (((Z.log2 n - Z.log2 d) * 30103) / 100000) n d.

(** The digits of a natural number, most significant first. *)
Definition digits_of (z : Z) : string := NilZero.string_of_uint (N.to_uint (Z.to_N z)).

Fixpoint zeros (n : nat) : string :=
  match n with O => "" | S n' => String "0" (zeros n') end.

(** Trailing zeros dropped (the digits are those of a non-zero number). *)
Fixpoint strip_zeros (fuel : nat) (m q : Z) : Z * Z :=
  match fuel with
  | O => (m, q)
  | S fuel' => if m mod 10 =? 0 then strip_zeros fuel' (m / 10) (q + 1) else (m, q)
  end.

(** The shortest decimal [m * 10^q] that reads back as [x = n / d]: for
    each count of digits the two decimals around [x] are tried, the
    nearer one first. *)
Definition reads_back (x : spec_float) (m q : Z) : bool :=
  SFeqb (round_decimal false m q) x.

Fixpoint shortest (fuel : nat) (digits : Z) (x : spec_float) (k n d : Z) : Z * Z :=
  let q := k - digits + 1 in
  let num := if 0 <=? q then n else n * 10 ^ (- q) in
  let den := if 0 <=? q then d * 10 ^ q else d in
  let lo := num / den in
  let r := num mod den in
  let up_first := match 2 * r ?= den with
                  | Gt => true | Eq => Z.odd lo | Lt => false end in
  let first := if up_first then lo + 1 else lo in
  let second := if up_first then lo else lo + 1 in
  if reads_back x first q then (first, q)
  else if reads_back x second q then (second, q)
  else match fuel with
       | O => (first, q)
       | S fuel' => shortest fuel' (digits + 1) x k n d
       end.

(** The layout of [repr]: [ds] are the digits and [decpt] the position
    of the point after them ([0.ds * 10^decpt]). *)
Definition layout (ds : string) (decpt : Z) : string :=
  let nd := Z.of_nat (String.length ds) in
  if (decpt <=? -4) || (16 <? decpt) then
    let e := decpt - 1 in
    let mant := match ds with
                | String c EmptyString => ds
                | String c rest => String c ("." +:+ rest)
                | EmptyString => ds
                end in
    let es := digits_of (Z.abs e) in
    mant +:+ "e" +:+ (if e <? 0 then "-" else "+")
         +:+ (if Z.abs e <? 10 then "0" else "") +:+ es
  else if decpt <=? 0 then "0." +:+ zeros (Z.to_nat (- decpt)) +:+ ds
  else if nd <=? decpt then ds +:+ zeros (Z.to_nat (decpt - nd)) +:+ ".0"
  else substring 0 (Z.to_nat decpt) ds +:+ "."
         +:+ substring (Z.to_nat decpt) (Z.to_nat (nd - decpt)) ds.

(** [repr(x)], which is also [str(x)], for a float. *)
Definition float_repr (x : float) : string :=
  match Prim2SF x with
  | S754_nan => "nan"
  | S754_infinity s => if s then "-inf" else "inf"
  | S754_zero s => if s then "-0.0" else "0.0"
  | S754_finite s m e =>
      let n := if 0 <=? e then Zpos m * 2 ^ e else Zpos m in
      let d := if 0 <=? e then 1 else 2 ^ (- e) in
      let k := floor_log10 n d in
      let '(dm, q) := shortest 17 1 (S754_finite false m e) k n d in
      let '(dm', q') := strip_zeros 20 dm q in
      let ds := digits_of dm' in
      (if s then "-" else "") +:+ layout ds (q' + Z.of_nat (String.length ds))
  end.

(** ** Field normalizers on text *)

(** The cleaning step of [normalize_flex]:
    [raw.strip().lower().replace(" ", "")]. *)
Definition clean_flex (raw : string) : string :=
  remove_spaces (lower (strip raw)).

Definition normalize_flex (raw : string) : result Flex :=
  let cleaned := clean_flex raw in
  match FLEX_MAP !! cleaned with
  | Some f => Ok f
  | None =>
      match flex_search cleaned with
      | Some g => Ok (default STIFF (FLEX_MAP !! g))
      | None => Raise (ValueError ("Cannot normalize flex: '" +:+ raw +:+ "'"))
      end
  end.

(** ** Python values

    The values a cell of a row can hold: a missing value read by
    pandas is the float [nan]; text, numbers and booleans are
    themselves. *)
Inductive pyval : Type :=
  | VNone
  | VBool (b : bool)
  | VInt (n : Z)
  | VFloat (x : float)
  | VStr (s : string).

(** [bool(v)]. [nan] is true: it is not equal to zero. *)
Definition truthy (v : pyval) : bool :=
  match v with
  | VNone => false
  | VBool b => b
  | VInt n => negb (n =? 0)
  | VFloat x => negb (PrimFloat.eqb x 0)
  | VStr s => nonempty s
  end.

(** [a or b]: [a] when it is true, otherwise [b], whatever [b] is. *)
Definition py_or (a b : pyval) : pyval := if truthy a then a else b.

Infix "or'" := py_or (at level 50, left associativity).

(** [str(v)]. *)
Definition py_str (v : pyval) : string :=
  match v with
  | VNone => "None"
  | VBool b => if b then "True" else "False"
  | VInt n => (if n <? 0 then "-" else "") +:+ digits_of (Z.abs n)
  | VFloat x => float_repr x
  | VStr s => s
  end.

Definition type_name (v : pyval) : string :=
  match v with
  | VNone => "NoneType"
  | VBool _ => "bool"
  | VInt _ => "int"
  | VFloat _ => "float"
  | VStr _ => "str"
  end.

(** [pd.isna(v)] for a scalar. *)
Definition pd_isna (v : pyval) : bool :=
  match v with
  | VNone => true
  | VFloat x => PrimFloat.is_nan x
  | _ => false
  end.

(** [isinstance(v, float)] *)
Definition is_float (v : pyval) : bool :=
  match v with
  | VFloat _ => true
  | _ => false
  end.

(** [float(v)]. *)
Definition py_float (v : pyval) : result float :=
  match v with
  | VNone =>
      Raise (TypeError "float() argument must be a string or a real number, not 'NoneType'")
  | VBool b => Ok (if b then 1%float else 0%float)
  | VInt n =>
      match float_of_int n with
      | Some x => Ok x
      | None => Raise (OverflowError "int too large to convert to float")
      end
  | VFloat x => Ok x
  | VStr s =>
      match float_of_str s with
      | Some x => Ok x
      | None => Raise (ValueError ("could not convert string to float: '" +:+ s +:+ "'"))
      end
  end.

(** [v.strip()]: a method of text only. *)
Definition py_strip (v : pyval) : result string :=
  match v with
  | VStr s => Ok (strip s)
  | _ => Raise (AttributeError ("'" +:+ type_name v +:+ "' object has no attribute 'strip'"))
  end.

(** A row as [row.to_dict()] gives it, and [row.get(key)]. *)
Abbreviation Row := (gmap string pyval).

Definition get (row : Row) (key : string) : pyval := default VNone (row !! key).

(** ** Field normalizers on cells *)

(** [except (ValueError, TypeError)] *)
Definition is_ValueError_or_TypeError (e : exn) : bool :=
  match e with
  | TypeError _ => true
  | _ => is_ValueError e
  end.

Definition safe_float (val : pyval) : result (option float) :=
  if match val with VNone => true | _ => false end
     || (is_float val && pd_isna val)
  then Ok None
  else
    match py_float val with
    | Ok x => Ok (Some x)
    | Raise e => if is_ValueError_or_TypeError e then Ok None else Raise e
    end.

(** The shape shared by [normalize_launch], [normalize_spin],
    [normalize_kickpoint] and [normalize_tip_stiffness]. *)
Definition normalize_with {E : Type} (table : gmap string E) (raw : pyval)
    : result (option E) :=
  if negb (truthy raw) || pd_isna raw then Ok None
  else
    do stripped <- py_strip raw;
    Ok (table !! lower stripped).

Definition normalize_launch : pyval -> result (option LaunchProfile) :=
  normalize_with LAUNCH_MAP.
Definition normalize_spin : pyval -> result (option SpinProfile) :=
  normalize_with SPIN_MAP.
Definition normalize_kickpoint : pyval -> result (option Kickpoint) :=
  normalize_with KICKPOINT_MAP.
Definition normalize_tip_stiffness : pyval -> result (option TipStiffness) :=
  normalize_with TIP_STIFF_MAP.

(** ** The schema: [ShaftSpec] *)

(** A constructed record. *)
Record ShaftSpec : Type := {
  manufacturer : string;
  model : string;
  generation : option string;
  club_type : ClubType;
  flex : Flex;
  weight_grams : float;
  length_inches : option float;
  torque_degrees : option float;
  launch : option LaunchProfile;
  spin : option SpinProfile;
  butt_diameter_inches : option float;
  tip_diameter_inches : option float;
  tip_stiff : option TipStiffness;
  kickpoint : option Kickpoint;
  material : string;
  msrp_usd : option float
}.

(** The keyword arguments of the constructor, as the callers in this
    repository give them: text for the text fields, floats for the
    numeric ones, and for an enum-valued field the value of the member
    (each enum derives from [str], so a member is its value; the store
    holds the values).  [generation] is whatever [normalize_row] found
    in the cell. *)
Record ShaftSpecArgs : Type := {
  a_manufacturer : string;
  a_model : string;
  a_generation : pyval;
  a_club_type : string;
  a_flex : string;
  a_weight_grams : float;
  a_length_inches : option float;
  a_torque_degrees : option float;
  a_launch : option string;
  a_spin : option string;
  a_butt_diameter_inches : option float;
  a_tip_diameter_inches : option float;
  a_tip_stiff : option string;
  a_kickpoint : option string;
  a_material : string;
  a_msrp_usd : option float
}.

(** *** Field validation

    Each validator gives the stored value, or [None] when the input is
    refused. *)

(** [str] with [min_length=1] and the [strip_whitespace] validator.
    [field_validator] registers an after-validator: it runs on the value
    that has passed the field's own constraints, so the length is that
    of the text as given and the stored text is the stripped one. *)
Definition validate_name (s : string) : option string :=
  if (1 <=? String.length s)%nat then Some (strip s) else None.

(** [Optional[str]] *)
Definition validate_optional_text (v : pyval) : option (option string) :=
  match v with
  | VNone => Some None
  | VStr s => Some (Some s)
  | _ => None
  end.

Definition validate_optional {A B : Type} (f : A -> option B) (o : option A)
    : option (option B) :=
  match o with
  | None => Some None
  | Some a => match f a with Some b => Some (Some b) | None => None end
  end.

(** The bounds of a float field.  The validator refuses a value on the
    failing comparison ([x <= gt], [x >= lt], [x < ge]), and [nan] is
    allowed (the default [allow_inf_nan]): every comparison with [nan]
    is false, so [nan] passes each bound. *)

(** [gt=lo, lt=hi] *)
Definition validate_gt_lt (lo hi x : float) : option float :=
  if PrimFloat.leb hi x || PrimFloat.leb x lo then None else Some x.

(** [ge=lo, lt=hi] *)
Definition validate_ge_lt (lo hi x : float) : option float :=
  if PrimFloat.leb hi x || PrimFloat.ltb x lo then None else Some x.

(** [ge=lo] *)
Definition validate_ge (lo x : float) : option float :=
  if PrimFloat.ltb x lo then None else Some x.

Definition validate_any (x : float) : option float := Some x.

Definition refused {A : Type} (name : string) (o : option A) : list string :=
  match o with
  | Some _ => []
  | None => [name]
  end.

(** The fields whose input is refused, in the order of the class. *)
Definition error_fields (a : ShaftSpecArgs) : list string :=
  refused "manufacturer" (validate_name (a_manufacturer a))
  ++ refused "model" (validate_name (a_model a))
  ++ refused "generation" (validate_optional_text (a_generation a))
  ++ refused "club_type" (by_value ClubType_value ClubType_members (a_club_type a))
  ++ refused "flex" (by_value Flex_value Flex_members (a_flex a))
  ++ refused "weight_grams" (validate_gt_lt 0 300 (a_weight_grams a))
  ++ refused "length_inches"
       (validate_optional (validate_gt_lt 0 60) (a_length_inches a))
  ++ refused "torque_degrees"
       (validate_optional (validate_ge_lt 0 15) (a_torque_degrees a))
  ++ refused "launch"
       (validate_optional (by_value LaunchProfile_value LaunchProfile_members)
          (a_launch a))
  ++ refused "spin"
       (validate_optional (by_value SpinProfile_value SpinProfile_members)
          (a_spin a))
  ++ refused "tip_stiff"
       (validate_optional (by_value TipStiffness_value TipStiffness_members)
          (a_tip_stiff a))
  ++ refused "kickpoint"
       (validate_optional (by_value Kickpoint_value Kickpoint_members)
          (a_kickpoint a))
  ++ refused "msrp_usd" (validate_optional (validate_ge 0) (a_msrp_usd a)).

(** The record, when every field is accepted. *)
Definition validated (a : ShaftSpecArgs) : option ShaftSpec :=
  m ← validate_name (a_manufacturer a);
  mo ← validate_name (a_model a);
  g ← validate_optional_text (a_generation a);
  ct ← by_value ClubType_value ClubType_members (a_club_type a);
  fl ← by_value Flex_value Flex_members (a_flex a);
  w ← validate_gt_lt 0 300 (a_weight_grams a);
  len ← validate_optional (validate_gt_lt 0 60) (a_length_inches a);
  tq ← validate_optional (validate_ge_lt 0 15) (a_torque_degrees a);
  la ← validate_optional (by_value LaunchProfile_value LaunchProfile_members)
         (a_launch a);
  sp ← validate_optional (by_value SpinProfile_value SpinProfile_members)
         (a_spin a);
  bd ← validate_optional validate_any (a_butt_diameter_inches a);
  td ← validate_optional validate_any (a_tip_diameter_inches a);
  ts ← validate_optional (by_value TipStiffness_value TipStiffness_members)
         (a_tip_stiff a);
  kp ← validate_optional (by_value Kickpoint_value Kickpoint_members)
         (a_kickpoint a);
  ms ← validate_optional (validate_ge 0) (a_msrp_usd a);
  Some {| manufacturer := m; model := mo; generation := g; club_type := ct;
          flex := fl; weight_grams := w; length_inches := len;
          torque_degrees := tq; launch := la; spin := sp;
          butt_diameter_inches := bd; tip_diameter_inches := td;
          tip_stiff := ts; kickpoint := kp; material := a_material a;
          msrp_usd := ms |}.

(** The constructor, called with keyword arguments. *)
Definition ShaftSpec_new (a : ShaftSpecArgs) : result ShaftSpec :=
  match validated a with
  | Some spec => Ok spec
  | None => Raise (ValidationError (error_fields a))
  end.

Definition flex_order (spec : ShaftSpec) : Z := FLEX_ORDER (flex spec).

Definition display_name (spec : ShaftSpec) : string :=
  let gen :=
    match generation spec with
    | Some g => if nonempty g then " " +:+ g else ""
    | None => ""
    end in
  manufacturer spec +:+ " " +:+ model spec +:+ gen +:+ " "
    +:+ Flex_value (flex spec).

(** ** The row normalizer *)

Definition normalize_row (row : Row) (manufacturer : string)
    (club_type : ClubType) : result ShaftSpec :=
  let model :=
    strip (py_str (get row "model" or' get row "shaft" or' get row "name"
                   or' get row "product" or' VStr "Unknown")) in
  let generation :=
    get row "generation" or' get row "gen" or' get row "version" in
  let generation :=
    if truthy generation then VStr (strip (py_str generation)) else generation in
  let flex_raw :=
    py_str (get row "flex" or' get row "stiffness" or' get row "Flex"
            or' VStr "S") in
  do flex <- normalize_flex flex_raw;
  do weight <-
    safe_float (get row "weight" or' get row "weight_grams" or' get row "wt");
  match weight with
  | None => Raise (ValueError ("Missing weight for " +:+ model))
  | Some weight =>
      do length <-
        safe_float (get row "length" or' get row "length_inches"
                    or' get row "raw_length");
      do torque <- safe_float (get row "torque" or' get row "torque_degrees");
      do launch <- normalize_launch (get row "launch" or' get row "launch_profile");
      do spin <- normalize_spin (get row "spin" or' get row "spin_profile");
      do kickpoint <-
        normalize_kickpoint (get row "kickpoint" or' get row "kick_point"
                             or' get row "bend_point");
      do tip_stiff <-
        normalize_tip_stiffness (get row "tip_stiff" or' get row "tip_stiffness"
                                 or' get row "tip");
      do butt_dia <- safe_float (get row "butt_diameter" or' get row "butt");
      do tip_dia <- safe_float (get row "tip_diameter" or' get row "tip_dia");
      let material :=
        lower (strip (py_str (default (VStr "graphite") (row !! "material")))) in
      do msrp <-
        safe_float (get row "msrp" or' get row "msrp_usd" or' get row "price");
      ShaftSpec_new
        {| a_manufacturer := manufacturer;
           a_model := model;
           a_generation := generation;
           a_club_type := ClubType_value club_type;
           a_flex := Flex_value flex;
           a_weight_grams := weight;
           a_length_inches := length;
           a_torque_degrees := torque;
           a_launch := LaunchProfile_value <$> launch;
           a_spin := SpinProfile_value <$> spin;
           a_butt_diameter_inches := butt_dia;
           a_tip_diameter_inches := tip_dia;
           a_tip_stiff := TipStiffness_value <$> tip_stiff;
           a_kickpoint := Kickpoint_value <$> kickpoint;
           a_material := material;
           a_msrp_usd := msrp |}
  end.

(** ** The batch normalizer *)

(** The loop of [normalize_dataframe] over the rows of [df.iterrows()],
    each with its index label, threading the two lists it appends to.
    An exception that the [except] clause does not name leaves the
    function. *)
Fixpoint normalize_rows (rows : list (Z * Row)) (manufacturer : string)
    (club_type : ClubType) (specs : list ShaftSpec) (errors : list (Z * exn))
    : result (list ShaftSpec * list (Z * exn)) :=
  match rows with
  | [] => Ok (specs, errors)
  | (idx, row) :: rest =>
      match normalize_row row manufacturer club_type with
      | Ok spec =>
          normalize_rows rest manufacturer club_type (specs ++ [spec]) errors
      | Raise e =>
          if is_ValueError e then
            normalize_rows rest manufacturer club_type specs (errors ++ [(idx, e)])
          else Raise e
      end
  end.

(** The lists [specs] and [errors] when the loop ends; [errors] holds
    "Row idx: reason" as the pair of the index and the exception. *)
Definition normalize_dataframe_state (df : list (Z * Row)) (manufacturer : string)
    (club_type : ClubType) : result (list ShaftSpec * list (Z * exn)) :=
  normalize_rows df manufacturer club_type [] [].

(** The value returned: [specs]. *)
Definition normalize_dataframe (df : list (Z * Row)) (manufacturer : string)
    (club_type : ClubType) : result (list ShaftSpec) :=
  do st <- normalize_dataframe_state df manufacturer club_type;
  Ok (fst st).

(** ** The store *)

(** The deduplication loop of [main]. *)
Fixpoint dedup_loop (all_specs : list ShaftSpec) (seen : gset string)
    (unique_specs : list ShaftSpec) : list ShaftSpec :=
  match all_specs with
  | [] => unique_specs
  | spec :: rest =>
      let key := display_name spec in
      if decide (key ∈ seen) then dedup_loop rest seen unique_specs
      else dedup_loop rest ({[key]} ∪ seen) (unique_specs ++ [spec])
  end.

Definition deduplicate (all_specs : list ShaftSpec) : list ShaftSpec :=
  dedup_loop all_specs ∅ [].

(** [spec.model_dump(mode="json")]: the mapping from each field name to
    its value, members of enums as their values.  The sixteen keys are
    always the same, so the mapping is a record of values. *)
Definition model_dump (spec : ShaftSpec) : ShaftSpecArgs :=
  {| a_manufacturer := manufacturer spec;
     a_model := model spec;
     a_generation := match generation spec with Some g => VStr g | None => VNone end;
     a_club_type := ClubType_value (club_type spec);
     a_flex := Flex_value (flex spec);
     a_weight_grams := weight_grams spec;
     a_length_inches := length_inches spec;
     a_torque_degrees := torque_degrees spec;
     a_launch := LaunchProfile_value <$> launch spec;
     a_spin := SpinProfile_value <$> spin spec;
     a_butt_diameter_inches := butt_diameter_inches spec;
     a_tip_diameter_inches := tip_diameter_inches spec;
     a_tip_stiff := TipStiffness_value <$> tip_stiff spec;
     a_kickpoint := Kickpoint_value <$> kickpoint spec;
     a_material := material spec;
     a_msrp_usd := msrp_usd spec |}.

(** The store file: absent, or the array of mappings that its JSON text
    encodes ([json.dumps] followed by [json.loads] gives back a list of
    mappings of text, floats and nulls as it was). *)
Definition StoreFile : Type := option (list ShaftSpecArgs).

Definition save_database (specs : list ShaftSpec) : StoreFile :=
  Some (map model_dump specs).

(** The list comprehension of [load_database], which constructs a record
    from each item: the first item that is refused raises. *)
Fixpoint construct_all (data : list ShaftSpecArgs) : result (list ShaftSpec) :=
  match data with
  | [] => Ok []
  | item :: rest =>
      do spec <- ShaftSpec_new item;
      do specs <- construct_all rest;
      Ok (spec :: specs)
  end.

Definition load_database (file : StoreFile) : result (list ShaftSpec) :=
  match file with
  | None => Ok []
  | Some data => construct_all data
  end.

(** ** Definitions for the statements

    What the properties below speak of: the readings of the
    specification that are compared with the code, the cells a row is
    read through, and the sample data of the examples. *)

(** The last character of a text. *)
Fixpoint last_char (s : string) : option ascii :=
  match s with
  | EmptyString => None
  | String c EmptyString => Some c
  | String _ s' => last_char s'
  end.

(** Does a character of the class [[0-9.]] occur in [s]? *)
Fixpoint has_weight_char (s : string) : bool :=
  match s with
  | EmptyString => false
  | String c s' => is_weight_char c || has_weight_char s'
  end.

Fixpoint all_weight_chars (s : string) : bool :=
  match s with
  | EmptyString => true
  | String c s' => is_weight_char c && all_weight_chars s'
  end.

(** The texts the pattern accepts: any prefix, a non-empty run of the
    class, one of the codes. *)
Definition ends_in_run_and_code (cleaned code : string) : Prop :=
  exists prefix run,
    cleaned = prefix +:+ run +:+ code
    /\ run <> "" /\ all_weight_chars run = true /\ code ∈ flex_codes.

(** "digits (with optional decimal point)": digits, at least one, among
    which at most one point. *)
Fixpoint count_points (s : string) : nat :=
  match s with
  | EmptyString => O
  | String c s' => ((if Ascii.eqb c "." then 1 else 0) + count_points s')%nat
  end.

Fixpoint has_digit (s : string) : bool :=
  match s with
  | EmptyString => false
  | String c s' => is_digit c || has_digit s'
  end.

Definition is_decimal_number (s : string) : bool :=
  all_weight_chars s && has_digit s && (count_points s <=? 1)%nat.

(** The weight-prefixed texts as the specification words them. *)
Definition ends_in_number_and_code (cleaned code : string) : Prop :=
  exists prefix number,
    cleaned = prefix +:+ number +:+ code
    /\ is_decimal_number number = true /\ code ∈ flex_codes.

(** Keyword arguments with every optional field left out. *)
Definition basic_args (manufacturer model club_type flex : string)
    (weight_grams : float) : ShaftSpecArgs :=
  {| a_manufacturer := manufacturer; a_model := model; a_generation := VNone;
     a_club_type := club_type; a_flex := flex; a_weight_grams := weight_grams;
     a_length_inches := None; a_torque_degrees := None; a_launch := None;
     a_spin := None; a_butt_diameter_inches := None;
     a_tip_diameter_inches := None; a_tip_stiff := None; a_kickpoint := None;
     a_material := "graphite"; a_msrp_usd := None |}.

(** A constraint of the schema is violated, as the constructor checks
    them.  For the two names the text as given is empty; the other
    conditions are those of the data model. *)
Definition constraint_violated (a : ShaftSpecArgs) : Prop :=
  a_manufacturer a = ""
  \/ a_model a = ""
  \/ validate_optional_text (a_generation a) = None
  \/ by_value ClubType_value ClubType_members (a_club_type a) = None
  \/ by_value Flex_value Flex_members (a_flex a) = None
  \/ PrimFloat.ltb 0 (a_weight_grams a) && PrimFloat.ltb (a_weight_grams a) 300
     = false
  \/ (exists l, a_length_inches a = Some l
         /\ PrimFloat.ltb 0 l && PrimFloat.ltb l 60 = false)
  \/ (exists t, a_torque_degrees a = Some t
         /\ PrimFloat.leb 0 t && PrimFloat.ltb t 15 = false)
  \/ (exists v, a_launch a = Some v
         /\ by_value LaunchProfile_value LaunchProfile_members v = None)
  \/ (exists v, a_spin a = Some v
         /\ by_value SpinProfile_value SpinProfile_members v = None)
  \/ (exists v, a_tip_stiff a = Some v
         /\ by_value TipStiffness_value TipStiffness_members v = None)
  \/ (exists v, a_kickpoint a = Some v
         /\ by_value Kickpoint_value Kickpoint_members v = None)
  \/ (exists p, a_msrp_usd a = Some p /\ PrimFloat.leb 0 p = false).







(** The identity as the specification words it: the optional
    generation, when present, between the model and the flex. *)
Definition display_name_as_specified (spec : ShaftSpec) : string :=
  match generation spec with
  | Some g =>
      manufacturer spec +:+ " " +:+ model spec +:+ " " +:+ g +:+ " "
        +:+ Flex_value (flex spec)
  | None =>
      manufacturer spec +:+ " " +:+ model spec +:+ " "
        +:+ Flex_value (flex spec)
  end.

Definition kbs_tour (gen : pyval) : ShaftSpecArgs :=
  {| a_manufacturer := "KBS"; a_model := "Tour"; a_generation := gen;
     a_club_type := "iron"; a_flex := "Stiff"; a_weight_grams := 120;
     a_length_inches := None; a_torque_degrees := None; a_launch := None;
     a_spin := None; a_butt_diameter_inches := None;
     a_tip_diameter_inches := None; a_tip_stiff := None; a_kickpoint := None;
     a_material := "graphite"; a_msrp_usd := None |}.

(** The cells the row normalizer resolves through its aliases. *)
Definition model_text (row : Row) : string :=
  strip (py_str (get row "model" or' get row "shaft" or' get row "name"
                 or' get row "product" or' VStr "Unknown")).

Definition flex_text (row : Row) : string :=
  py_str (get row "flex" or' get row "stiffness" or' get row "Flex"
          or' VStr "S").

Definition weight_cell (row : Row) : pyval :=
  get row "weight" or' get row "weight_grams" or' get row "wt".

(** A cell that holds the number zero. *)
Definition is_zero_number (v : pyval) : bool :=
  match v with
  | VInt n => n =? 0
  | VFloat x => PrimFloat.eqb x 0
  | _ => false
  end.

(** The rows of a table on which the row normalizer succeeds, and those
    on which it fails, each list in row order. *)
Definition successes (df : list (Z * Row)) (manufacturer : string)
    (club_type : ClubType) : list ShaftSpec :=
  flat_map (fun '(idx, row) =>
              match normalize_row row manufacturer club_type with
              | Ok spec => [spec]
              | Raise _ => []
              end) df.

Definition failures (df : list (Z * Row)) (manufacturer : string)
    (club_type : ClubType) : list (Z * exn) :=
  flat_map (fun '(idx, row) =>
              match normalize_row row manufacturer club_type with
              | Ok _ => []
              | Raise e => [(idx, e)]
              end) df.

(** Every failure among the rows is of the [ValueError] class: missing
    weight, unparseable flex, or a validation failure of the schema. *)
Definition all_caught (df : list (Z * Row)) (manufacturer : string)
    (club_type : ClubType) : Prop :=
  Forall (fun '(idx, row) =>
            forall e, normalize_row row manufacturer club_type = Raise e ->
                      is_ValueError e = true) df.

Definition row_of (cells : list (string * pyval)) : Row := list_to_map cells.

Definition row_unreadable_weight : Row :=
  row_of [("model", VStr "Tour"); ("flex", VStr "S"); ("weight", VStr "n/a");
          ("torque", VFloat 3.5); ("launch", VStr "Mid")].

Definition row_zero_torque : Row :=
  row_of [("model", VStr "Tour"); ("flex", VStr ""); ("weight", VFloat 120);
          ("torque", VInt 0); ("msrp", VFloat 0)].

Definition row_good : Row :=
  row_of [("model", VStr "Tour"); ("flex", VStr "S"); ("weight", VFloat 120)].

Definition row_empty_flex : Row :=
  row_of [("model", VStr "Tour"); ("flex", VFloat nan); ("weight", VFloat 120)].

Definition row_absent_flex : Row :=
  row_of [("model", VStr "Tour"); ("weight", VFloat 120)].

Definition row_no_weight : Row :=
  row_of [("model", VStr "C-Taper"); ("flex", VStr "X")].

Definition row_bad_flex : Row :=
  row_of [("model", VStr "Tour V"); ("flex", VStr "banana"); ("weight", VInt 110)].

Definition row_heavy : Row :=
  row_of [("model", VStr "Anvil"); ("flex", VStr "S"); ("weight", VInt 300)].

Definition row_numeric_launch : Row :=
  row_of [("model", VStr "Tour 90"); ("flex", VStr "R"); ("weight", VFloat 95);
          ("launch", VFloat 12.5)].

Definition table_caught : list (Z * Row) :=
  [(0, row_good); (1, row_no_weight); (2, row_bad_flex); (3, row_heavy);
   (4, row_good)].

(** A condition on an optional field: it holds of the value, if any. *)
Definition when_present {A : Type} (p : A -> bool) (o : option A) : bool :=
  match o with
  | Some a => p a
  | None => true
  end.

(** The measurements given are numbers: none of them is [nan]. *)
Definition measurements_are_numbers (a : ShaftSpecArgs) : bool :=
  negb (PrimFloat.is_nan (a_weight_grams a))
  && when_present (fun l => negb (PrimFloat.is_nan l)) (a_length_inches a)
  && when_present (fun t => negb (PrimFloat.is_nan t)) (a_torque_degrees a)
  && when_present (fun p => negb (PrimFloat.is_nan p)) (a_msrp_usd a).

(** A measurement that is [nan], or satisfies [p]. *)
Definition nan_or (p : float -> bool) (x : float) : bool :=
  PrimFloat.is_nan x || p x.

(** A valid record, in the terms of the data model: the names are
    non-empty and trimmed, the measurements are within their ranges,
    and the unconstrained numeric fields hold numbers (what a JSON
    number can hold: neither [nan] nor an infinity). *)
Definition valid_spec (spec : ShaftSpec) : bool :=
  nonempty (manufacturer spec)
  && String.eqb (strip (manufacturer spec)) (manufacturer spec)
  && nonempty (model spec)
  && String.eqb (strip (model spec)) (model spec)
  && (PrimFloat.ltb 0 (weight_grams spec) && PrimFloat.ltb (weight_grams spec) 300)
  && when_present (fun l => PrimFloat.ltb 0 l && PrimFloat.ltb l 60)
       (length_inches spec)
  && when_present (fun t => PrimFloat.leb 0 t && PrimFloat.ltb t 15)
       (torque_degrees spec)
  && when_present PrimFloat.is_finite (butt_diameter_inches spec)
  && when_present PrimFloat.is_finite (tip_diameter_inches spec)
  && when_present (fun p => PrimFloat.leb 0 p && PrimFloat.is_finite p)
       (msrp_usd spec).

Definition spec_of (model : string) (flex : Flex) (weight : float) : ShaftSpec :=
  {| manufacturer := "KBS"; model := model; generation := None;
     club_type := IRON; flex := flex; weight_grams := weight;
     length_inches := None; torque_degrees := None; launch := None;
     spin := None; butt_diameter_inches := None; tip_diameter_inches := None;
     tip_stiff := None; kickpoint := None; material := "steel";
     msrp_usd := None |}.

Definition ventus_blue : ShaftSpec :=
  {| manufacturer := "Fujikura"; model := "Ventus Blue"; generation := Some "TR";
     club_type := WOODS; flex := X_STIFF; weight_grams := 67;
     length_inches := Some 46%float; torque_degrees := Some 3.5%float;
     launch := Some LAUNCH_MID; spin := Some SPIN_LOW;
     butt_diameter_inches := Some 0.625%float;
     tip_diameter_inches := Some 0.375%float;
     tip_stiff := Some VERY_FIRM; kickpoint := Some KICK_MID_HIGH;
     material := "graphite"; msrp_usd := Some 350%float |}.

(** ** The sources ([load_data.py]) *)

(** [s.replace(" ", "_")] *)
Fixpoint spaces_to_underscores (s : string) : string :=
  match s with
  | EmptyString => EmptyString
  | String c s' =>
      String (if Ascii.eqb c " " then "_"%char else c) (spaces_to_underscores s')
  end.

(** The name [load_raw_csv] gives a column of the file:
    [df.columns.str.strip().str.lower().str.replace(" ", "_")], on each
    name of the header. *)
Definition standardize_column (name : string) : string :=
  spaces_to_underscores (lower (strip name)).

Definition CLUB_TYPE_MAP : gmap string ClubType :=
  list_to_map
    [ ("woods", WOODS); ("fairway", FAIRWAY); ("hybrid", HYBRID);
      ("iron", IRON); ("wedge", WEDGE); ("putter", PUTTER) ].

(** [groups.setdefault(ct, []).append(idx)] on a dict, which keeps its
    keys in the order in which they were first inserted. *)
Fixpoint group_append (groups : list (string * list Z)) (ct : string) (idx : Z)
    : list (string * list Z) :=
  match groups with
  | [] => [(ct, [idx])]
  | (key, indices) :: rest =>
      if String.eqb key ct then (key, (indices ++ [idx])%list) :: rest
      else (key, indices) :: group_append rest ct idx
  end.

(** The loop of [detect_club_type] over [df.iterrows()].  A frame has a
    cell in every column for every row, so [row["club_type"]] is read
    with [get]; [.strip()] raises on a cell that is not text (an empty
    cell of the file is the float [nan]). *)
Fixpoint detect_rows (rows : list (Z * Row)) (groups : list (string * list Z))
    : result (list (string * list Z)) :=
  match rows with
  | [] => Ok groups
  | (idx, row) :: rest =>
      do stripped <- py_strip (get row "club_type");
      detect_rows rest (group_append groups (lower stripped) idx)
  end.

(** [detect_club_type(df)], for a frame with the column names [columns]
    and the rows [rows]; the dict returned is the list of its items. *)
Definition detect_club_type (columns : list string) (rows : list (Z * Row))
    : result (list (string * list Z)) :=
  if bool_decide ("club_type" ∈ columns) then detect_rows rows []
  else Ok [("woods", map fst rows)].

(** [df.loc[indices]]: for each label of the list in turn, the rows that
    carry it. *)
Definition loc (rows : list (Z * Row)) (indices : list Z) : list (Z * Row) :=
  flat_map (fun i => filter (fun r => fst r = i) rows) indices.

(** The loop of [load_and_normalize] over [type_groups.items()]. *)
Fixpoint normalize_type_groups (type_groups : list (string * list Z))
    (mfr_group : list (Z * Row)) (manufacturer : string)
    (all_specs : list ShaftSpec) : result (list ShaftSpec) :=
  match type_groups with
  | [] => Ok all_specs
  | (type_name, indices) :: rest =>
      let club_type := default WOODS (CLUB_TYPE_MAP !! type_name) in
      let subset := loc mfr_group indices in
      do specs <- normalize_dataframe subset manufacturer club_type;
      normalize_type_groups rest mfr_group manufacturer (all_specs ++ specs)%list
  end.

(** [df.groupby(column)], which pandas calls with [sort=True] and
    [dropna=True], on the rows that have a key. *)
Section GroupBy.

Context {K R : Type} (eqb leb : K -> K -> bool).

(** The distinct keys of the column, in the order in which they first
    appear; a key equal to one already seen is not taken again. *)
Fixpoint uniques (keys seen : list K) : list K :=
  match keys with
  | [] => []
  | k :: rest =>
      if existsb (eqb k) seen then uniques rest seen
      else k :: uniques rest (k :: seen)
  end.

(** No two keys of the list are equal. *)
Fixpoint distinct (U : list K) : Prop :=
  match U with
  | [] => True
  | u :: U' => (forall v, v ∈ U' -> eqb u v = false) /\ distinct U'
  end.

Definition key_le (a b : K) : Prop := leb a b = true.

#[global] Instance key_le_dec : RelDecision key_le :=
  fun a b => bool_eq_dec (leb a b) true.

(** A group for each distinct key, the groups in the order of their
    keys; the group of a key holds the rows whose key equals it, in the
    order of the frame. *)
Definition groupby (rows : list (K * R)) : list (K * list R) :=
  (fun key => (key, snd <$> filter (fun r => eqb key r.1 = true) rows))
    <$> merge_sort key_le (uniques rows.*1 []).

End GroupBy.

(** The rows of a frame read from a file, each with its cell of the
    manufacturer column.  The cells of a column are of one kind: text,
    where an empty cell is null; booleans or integers, when every cell
    of the file reads as such; floats, where an empty cell is [nan]. *)
Inductive KeyedRows : Type :=
  | TextKeyed (rows : list (option string * Row))
  | BoolKeyed (rows : list (bool * Row))
  | IntKeyed (rows : list (Z * Row))
  | FloatKeyed (rows : list (float * Row)).

(** The frame [load_raw_csv] returns: the column names, and the rows in
    the order of the file.  The manufacturer cells are read only when
    the frame has a column of that name. *)
Record CsvFrame : Type := {
  csv_columns : list string;
  csv_rows : KeyedRows
}.

(** The index [pd.read_csv] gives the rows: their positions, from [idx]
    on. *)
Fixpoint with_labels {K : Type} (idx : Z) (rows : list (K * Row))
    : list (K * (Z * Row)) :=
  match rows with
  | [] => []
  | (key, row) :: rest => (key, (idx, row)) :: with_labels (idx + 1) rest
  end.

Definition text_key (r : option string * (Z * Row)) : option (string * (Z * Row)) :=
  match fst r with
  | Some key => Some (key, snd r)
  | None => None
  end.

(** [df.groupby("manufacturer")]: the groups, each with its key.  The
    rows whose manufacturer cell is null are in no group.  Booleans are
    in the order [False], [True]. *)
Definition groupby_manufacturer (rows : KeyedRows) : list (pyval * list (Z * Row)) :=
  match rows with
  | TextKeyed rows =>
      prod_map VStr id
        <$> groupby String.eqb String.leb (omap text_key (with_labels 0 rows))
  | BoolKeyed rows =>
      prod_map VBool id <$> groupby Bool.eqb implb (with_labels 0 rows)
  | IntKeyed rows =>
      prod_map VInt id <$> groupby Z.eqb Z.leb (with_labels 0 rows)
  | FloatKeyed rows =>
      prod_map VFloat id
        <$> groupby PrimFloat.eqb PrimFloat.leb
              (filter (fun r => PrimFloat.is_nan (fst r) = false)
                 (with_labels 0 rows))
  end.

(** The loop of [load_and_normalize] over the groups. *)
Fixpoint normalize_manufacturers (columns : list string)
    (groups : list (pyval * list (Z * Row))) (all_specs : list ShaftSpec)
    : result (list ShaftSpec) :=
  match groups with
  | [] => Ok all_specs
  | (manufacturer, mfr_group) :: rest =>
      do type_groups <- detect_club_type columns mfr_group;
      do all_specs' <-
        normalize_type_groups type_groups mfr_group (py_str manufacturer) all_specs;
      normalize_manufacturers columns rest all_specs'
  end.

Definition load_and_normalize (df : CsvFrame) : result (list ShaftSpec) :=
  if bool_decide ("manufacturer" ∈ csv_columns df) then
    normalize_manufacturers (csv_columns df) (groupby_manufacturer (csv_rows df)) []
  else Raise (ValueError "CSV must have a 'manufacturer' column").

(** The loop of [main] over the files, each given by its frame. *)
Fixpoint load_all (csv_files : list CsvFrame) (all_specs : list ShaftSpec)
    : result (list ShaftSpec) :=
  match csv_files with
  | [] => Ok all_specs
  | csv_file :: rest =>
      do specs <- load_and_normalize csv_file;
      load_all rest (all_specs ++ specs)%list
  end.

(** [main]: the store file after the run, from the store file before
    it. *)
Definition main (csv_files : list CsvFrame) (store : StoreFile)
    : result StoreFile :=
  match csv_files with
  | [] => Ok store
  | _ =>
      do all_specs <- load_all csv_files [];
      Ok (save_database (deduplicate all_specs))
  end.

(** ** Frames of records ([load_database_df], [compare.py], [api/main.py]) *)

(** The frame of the store: [pd.DataFrame()], which has no column, or a
    table with a row for each record and a column for each field. *)
Inductive Frame : Type :=
  | NoColumns
  | Table (records : list ShaftSpec).

Definition load_database_df (file : StoreFile) : result Frame :=
  do specs <- load_database file;
  Ok (match specs with
      | [] => NoColumns
      | _ => Table specs
      end).

(** [df.empty] *)
Definition empty (df : Frame) : bool :=
  match df with
  | NoColumns | Table [] => true
  | Table (_ :: _) => false
  end.

(** What a function over frames does: it returns, or raises an exception
    of the pipeline, or the [KeyError] of a column the frame lacks. *)
Inductive outcome (A : Type) : Type :=
  | Returns (a : A)
  | Raises (e : exn)
  | KeyError (column : string).

Arguments Returns {A} a.
Arguments Raises {A} e.
Arguments KeyError {A} column.

(** The keyword arguments of [filter_shafts]. *)
Record FilterOptions : Type := {
  f_manufacturers : option (list string);
  f_club_types : option (list string);
  f_flexes : option (list string);
  f_weight_min : option float;
  f_weight_max : option float;
  f_torque_min : option float;
  f_torque_max : option float;
  f_launch_profiles : option (list string);
  f_spin_profiles : option (list string);
  f_price_max : option float
}.

(** [filtered = filtered[mask]], the mask computed from the column
    [column]. *)
Definition select (column : string) (mask : ShaftSpec -> bool)
    (filtered : outcome Frame) : outcome Frame :=
  match filtered with
  | Returns NoColumns => KeyError column
  | Returns (Table records) => Returns (Table (filter (fun s => mask s = true) records))
  | Raises e => Raises e
  | KeyError c => KeyError c
  end.

(** [if values: ...] for an optional list: given and not empty. *)
Definition if_nonempty (values : option (list string))
    (step : list string -> outcome Frame -> outcome Frame)
    (filtered : outcome Frame) : outcome Frame :=
  match values with
  | Some (v :: vs) => step (v :: vs) filtered
  | _ => filtered
  end.

(** [if bound is not None: ...] *)
Definition if_given (bound : option float)
    (step : float -> outcome Frame -> outcome Frame)
    (filtered : outcome Frame) : outcome Frame :=
  match bound with
  | Some b => step b filtered
  | None => filtered
  end.

(** [column.isin(values)] on a cell: a member of an enum is its value,
    an absent value is in no list of texts. *)
Definition isin (cell : option string) (values : list string) : bool :=
  match cell with
  | Some v => bool_decide (v ∈ values)
  | None => false
  end.

(** [column.notna() & compare(column, bound)] on a cell. *)
Definition notna_and (compare : float -> bool) (cell : option float) : bool :=
  match cell with
  | Some x => compare x
  | None => false
  end.

Definition filter_shafts (df : Frame) (o : FilterOptions) : outcome Frame :=
  let filtered := Returns df in
  let filtered :=
    if_nonempty (f_manufacturers o)
      (fun values => select "manufacturer" (fun s => isin (Some (manufacturer s)) values))
      filtered in
  let filtered :=
    if_nonempty (f_club_types o)
      (fun values =>
         select "club_type" (fun s => isin (Some (ClubType_value (club_type s))) values))
      filtered in
  let filtered :=
    if_nonempty (f_flexes o)
      (fun values => select "flex" (fun s => isin (Some (Flex_value (flex s))) values))
      filtered in
  let filtered :=
    if_given (f_weight_min o)
      (fun bound => select "weight_grams" (fun s => PrimFloat.leb bound (weight_grams s)))
      filtered in
  let filtered :=
    if_given (f_weight_max o)
      (fun bound => select "weight_grams" (fun s => PrimFloat.leb (weight_grams s) bound))
      filtered in
  let filtered :=
    if_given (f_torque_min o)
      (fun bound =>
         select "torque_degrees"
           (fun s => notna_and (fun t => PrimFloat.leb bound t) (torque_degrees s)))
      filtered in
  let filtered :=
    if_given (f_torque_max o)
      (fun bound =>
         select "torque_degrees"
           (fun s => notna_and (fun t => PrimFloat.leb t bound) (torque_degrees s)))
      filtered in
  let filtered :=
    if_nonempty (f_launch_profiles o)
      (fun values => select "launch" (fun s => isin (LaunchProfile_value <$> launch s) values))
      filtered in
  let filtered :=
    if_nonempty (f_spin_profiles o)
      (fun values => select "spin" (fun s => isin (SpinProfile_value <$> spin s) values))
      filtered in
  let filtered :=
    if_given (f_price_max o)
      (fun bound =>
         select "msrp_usd"
           (fun s => notna_and (fun p => PrimFloat.leb p bound) (msrp_usd s)))
      filtered in
  filtered.

(** [[value] if value else None] *)
Definition singleton_if_truthy (value : option string) : option (list string) :=
  match value with
  | Some v => if nonempty v then Some [v] else None
  | None => None
  end.

(** [df.iloc[offset : offset + limit].to_dict(orient="records")], for
    [offset] and [limit] that are not negative. *)
Definition iloc_records (df : Frame) (offset limit : nat) : list ShaftSpec :=
  match df with
  | NoColumns => []
  | Table records => take limit (drop offset records)
  end.

(** The endpoint [/shafts] on the store [file].  The framework checks
    [1 <= limit <= 500] and [0 <= offset] before the call. *)
Definition list_shafts (file : StoreFile) (manufacturer club_type flex : option string)
    (weight_min weight_max : option float) (limit offset : nat)
    : outcome (list ShaftSpec) :=
  match load_database_df file with
  | Raise e => Raises e
  | Ok df =>
      if empty df then Returns []
      else
        match
          filter_shafts df
            {| f_manufacturers := singleton_if_truthy manufacturer;
               f_club_types := singleton_if_truthy club_type;
               f_flexes := singleton_if_truthy flex;
               f_weight_min := weight_min;
               f_weight_max := weight_max;
               f_torque_min := None;
               f_torque_max := None;
               f_launch_profiles := None;
               f_spin_profiles := None;
               f_price_max := None |}
        with
        | Returns filtered => Returns (iloc_records filtered offset limit)
        | Raises e => Raises e
        | KeyError column => KeyError column
        end
  end.

(** [column.unique()]: the values of the column, each at its first
    occurrence. *)
Fixpoint unique_loop (values : list string) (seen : gset string) : list string :=
  match values with
  | [] => []
  | v :: rest =>
      if decide (v ∈ seen) then unique_loop rest seen
      else v :: unique_loop rest ({[v]} ∪ seen)
  end.

Definition unique (values : list string) : list string := unique_loop values ∅.

(** The order of Python on texts: that of their characters, by code. *)
Definition text_le (a b : string) : Prop := String.leb a b = true.

#[global] Instance text_le_dec : RelDecision text_le :=
  fun a b => bool_eq_dec (String.leb a b) true.

(** [sorted(values)] on texts. *)
Definition sorted (values : list string) : list string :=
  merge_sort text_le values.

(** The endpoint [/manufacturers]. *)
Definition list_manufacturers (file : StoreFile) : result (list string) :=
  do df <- load_database_df file;
  match df with
  | NoColumns | Table [] => Ok []
  | Table records => Ok (sorted (unique (manufacturer <$> records)))
  end.

(** ** Further definitions for the statements *)

(** The cells [normalize_row] reads as numbers, and those it reads as
    profiles. *)
Definition numeric_keys : list string :=
  ["weight"; "weight_grams"; "wt"; "length"; "length_inches"; "raw_length";
   "torque"; "torque_degrees"; "butt_diameter"; "butt"; "tip_diameter";
   "tip_dia"; "msrp"; "msrp_usd"; "price"].

Definition profile_keys : list string :=
  ["launch"; "launch_profile"; "spin"; "spin_profile"; "kickpoint";
   "kick_point"; "bend_point"; "tip_stiff"; "tip_stiffness"; "tip"].

(** A cell that [float] can take without overflow. *)
Definition within_float_range (v : pyval) : bool :=
  match v with
  | VInt n => match float_of_int n with Some _ => true | None => false end
  | _ => true
  end.

(** A cell that a profile normalizer can take: text, or a value that is
    null or falsy. *)
Definition text_or_blank (v : pyval) : bool :=
  match v with
  | VStr _ => true
  | _ => negb (truthy v) || pd_isna v
  end.

(** A row as a CSV file gives it: no integer beyond the range of floats
    among the numeric cells, text or nothing in the profile cells. *)
Definition plain_row (row : Row) : bool :=
  forallb (fun key => within_float_range (get row key)) numeric_keys
  && forallb (fun key => text_or_blank (get row key)) profile_keys.

(** The cell the row normalizer resolves through the generation
    aliases. *)
Definition generation_cell (row : Row) : pyval :=
  get row "generation" or' get row "gen" or' get row "version".

(** A file of three rows of one manufacturer, two irons around a wedge,
    and the store of four records of 55, 62, 67 and 75 grams. *)
Definition row_tour_s : Row :=
  row_of [("model", VStr "Tour"); ("flex", VStr "S"); ("weight", VFloat 120);
          ("club_type", VStr "Iron")].

Definition row_hi_rev : Row :=
  row_of [("model", VStr "Hi-Rev"); ("flex", VStr "S"); ("weight", VFloat 125);
          ("club_type", VStr " wedge ")].

Definition row_tour_x : Row :=
  row_of [("model", VStr "Tour"); ("flex", VStr "X"); ("weight", VFloat 130);
          ("club_type", VStr "IRON")].

Definition kbs_rows : list (Z * Row) :=
  [(0, row_tour_s); (1, row_hi_rev); (2, row_tour_x)].

Definition kbs_file : CsvFrame :=
  {| csv_columns := ["manufacturer"; "model"; "flex"; "weight"; "club_type"];
     csv_rows := TextKeyed [(Some "KBS", row_tour_s); (Some "KBS", row_hi_rev);
                            (Some "KBS", row_tour_x)] |}.

(** A file of two manufacturers in which the second row names none. *)
Definition row_ventus : Row :=
  row_of [("model", VStr "Ventus"); ("flex", VStr "S"); ("weight", VFloat 65);
          ("club_type", VStr "Woods")].

Definition two_makers_file : CsvFrame :=
  {| csv_columns := ["manufacturer"; "model"; "flex"; "weight"; "club_type"];
     csv_rows := TextKeyed [(Some "KBS", row_tour_s); (None, row_hi_rev);
                            (Some "Fujikura", row_ventus);
                            (Some "KBS", row_tour_x)] |}.

(** The key a row is grouped under: the first cell of the column equal
    to its own. *)
Definition first_equal {K : Type} (eqb : K -> K -> bool) (keys : list K) (k : K)
    : K :=
  default k (find (eqb k) keys).

(** The rows of a frame that have a manufacturer, each with the text of
    the key of its group and with its index label. *)
Definition named_rows (rows : KeyedRows) : list (string * (Z * Row)) :=
  match rows with
  | TextKeyed rows => omap text_key (with_labels 0 rows)
  | BoolKeyed rows =>
      prod_map (fun b => py_str (VBool b)) id <$> with_labels 0 rows
  | IntKeyed rows =>
      prod_map (fun n => py_str (VInt n)) id <$> with_labels 0 rows
  | FloatKeyed rows =>
      let kept := filter (fun r => PrimFloat.is_nan (fst r) = false)
                    (with_labels 0 rows) in
      prod_map (fun x => py_str (VFloat (first_equal PrimFloat.eqb kept.*1 x))) id
        <$> kept
  end.

Definition four_weights : list ShaftSpec :=
  [spec_of "A" STIFF 55; spec_of "B" STIFF 62; spec_of "C" STIFF 67;
   spec_of "D" STIFF 75].

(** The record of a row alone, if it normalizes. *)
Definition row_specs (manufacturer : string) (club_type : Row -> ClubType)
    (r : Z * Row) : list ShaftSpec :=
  match normalize_row (snd r) manufacturer (club_type (snd r)) with
  | Ok spec => [spec]
  | Raise _ => []
  end.

(** The key under which [detect_club_type] groups a row: the text of
    its club type cell, trimmed and lower-cased. *)
Definition club_type_key (row : Row) : option string :=
  match get row "club_type" with
  | VStr s => Some (lower (strip s))
  | _ => None
  end.

(** The club type [load_and_normalize] gives a row: the one its key
    names, woods for any other key, and woods for every row of a frame
    without a club type column. *)
Definition club_type_of_row (columns : list string) (row : Row) : ClubType :=
  if bool_decide ("club_type" ∈ columns) then
    match club_type_key row with
    | Some key => default WOODS (CLUB_TYPE_MAP !! key)
    | None => WOODS
    end
  else WOODS.

(** The rows a call of [filter_shafts] keeps: every condition that is
    given holds of the record. *)
Definition given_list (values : option (list string)) (cell : option string) : bool :=
  match values with
  | Some (v :: vs) => isin cell (v :: vs)
  | _ => true
  end.

Definition given_bound (bound : option float) (compare : float -> float -> bool)
    (cell : option float) : bool :=
  match bound with
  | Some b => notna_and (compare b) cell
  | None => true
  end.

Definition passes (o : FilterOptions) (s : ShaftSpec) : bool :=
  given_list (f_manufacturers o) (Some (manufacturer s))
  && given_list (f_club_types o) (Some (ClubType_value (club_type s)))
  && given_list (f_flexes o) (Some (Flex_value (flex s)))
  && given_bound (f_weight_min o) PrimFloat.leb (Some (weight_grams s))
  && given_bound (f_weight_max o) (fun b w => PrimFloat.leb w b) (Some (weight_grams s))
  && given_bound (f_torque_min o) PrimFloat.leb (torque_degrees s)
  && given_bound (f_torque_max o) (fun b t => PrimFloat.leb t b) (torque_degrees s)
  && given_list (f_launch_profiles o) (LaunchProfile_value <$> launch s)
  && given_list (f_spin_profiles o) (SpinProfile_value <$> spin s)
  && given_bound (f_price_max o) (fun b p => PrimFloat.leb p b) (msrp_usd s).

(** The conditions the endpoint [/shafts] passes to [filter_shafts]. *)
Definition shafts_query (manufacturer club_type flex : option string)
    (weight_min weight_max : option float) : FilterOptions :=
  {| f_manufacturers := singleton_if_truthy manufacturer;
     f_club_types := singleton_if_truthy club_type;
     f_flexes := singleton_if_truthy flex;
     f_weight_min := weight_min;
     f_weight_max := weight_max;
     f_torque_min := None;
     f_torque_max := None;
     f_launch_profiles := None;
     f_spin_profiles := None;
     f_price_max := None |}.

(** One call of [filter_shafts] on the frame another returned. *)
Definition filter_again (r : outcome Frame) (o : FilterOptions) : outcome Frame :=
  match r with
  | Returns df => filter_shafts df o
  | _ => r
  end.

(** The first column a call of [filter_shafts] reads, if any. *)
Definition first_column (o : FilterOptions) : option string :=
  match f_manufacturers o, f_club_types o, f_flexes o with
  | Some (_ :: _), _, _ => Some "manufacturer"
  | _, Some (_ :: _), _ => Some "club_type"
  | _, _, Some (_ :: _) => Some "flex"
  | _, _, _ =>
      match f_weight_min o, f_weight_max o, f_torque_min o, f_torque_max o with
      | Some _, _, _, _ | _, Some _, _, _ => Some "weight_grams"
      | _, _, Some _, _ | _, _, _, Some _ => Some "torque_degrees"
      | _, _, _, _ =>
          match f_launch_profiles o, f_spin_profiles o, f_price_max o with
          | Some (_ :: _), _, _ => Some "launch"
          | _, Some (_ :: _), _ => Some "spin"
          | _, _, Some _ => Some "msrp_usd"
          | _, _, _ => None
          end
      end
  end.

(** * Properties *)

Section Values.

(** [float], [repr] and [str] of the model on sample values, as Python
    gives them. *)
Example float_of_str_forms :
  float_of_str "62" = Some 62%float
  /\ float_of_str " 1_0.5e1 " = Some 105%float
  /\ float_of_str ".5" = Some 0.5%float
  /\ float_of_str "-inf" = Some neg_infinity
  /\ float_of_str "1e400" = Some infinity
  /\ float_of_str "6.0S" = None
  /\ float_of_str "" = None
  /\ float_of_str (String "028" "62") = None
  /\ strip (String "028" "62") = "62".
Proof. repeat split; vm_compute; reflexivity. Qed.

Example float_repr_forms :
  float_repr 62 = "62.0"
  /\ float_repr 0.5 = "0.5"
  /\ float_repr 1e16 = "1e+16"
  /\ float_repr 0.0009765625 = "0.0009765625"
  /\ float_repr nan = "nan".
Proof. repeat split; vm_compute; reflexivity. Qed.

Example float_of_int_bounds :
  float_of_int 62 = Some 62%float
  /\ float_of_int (2 ^ 1024) = None
  /\ float_of_int (- 2 ^ 1024) = None.
Proof. repeat split; vm_compute; reflexivity. Qed.

Example py_str_values :
  py_str (VInt (-12)) = "-12" /\ py_str (VFloat 6.5) = "6.5"
  /\ py_str (VBool true) = "True" /\ py_str VNone = "None".
Proof. repeat split; vm_compute; reflexivity. Qed.

(** [nan] is true, the two zeros are false. *)
Example truthy_floats :
  truthy (VFloat nan) = true /\ truthy (VFloat 0) = false
  /\ truthy (VFloat (-0)) = false.
Proof. repeat split; vm_compute; reflexivity. Qed.

(** The order of the flexes: Ladies < Senior < Regular < Stiff < X-Stiff
    < TX. *)
Lemma FLEX_ORDER_chain :
  FLEX_ORDER LADIES < FLEX_ORDER SENIOR < FLEX_ORDER REGULAR
  /\ FLEX_ORDER REGULAR < FLEX_ORDER STIFF < FLEX_ORDER X_STIFF
  /\ FLEX_ORDER X_STIFF < FLEX_ORDER TX.
Proof. simpl. lia. Qed.

End Values.

Section FlexExamples.

Example normalize_flex_S : normalize_flex "S" = Ok STIFF.
Proof. vm_compute. reflexivity. Qed.
Example normalize_flex_60X : normalize_flex "60X" = Ok X_STIFF.
Proof. vm_compute. reflexivity. Qed.
Example normalize_flex_6_0S : normalize_flex " 6.0 S " = Ok STIFF.
Proof. vm_compute. reflexivity. Qed.
Example normalize_flex_xstiff : normalize_flex "X-Stiff" = Ok X_STIFF.
Proof. vm_compute. reflexivity. Qed.
Example normalize_flex_banana :
  normalize_flex "banana" = Raise (ValueError "Cannot normalize flex: 'banana'").
Proof. vm_compute. reflexivity. Qed.
Example normalize_flex_dot : normalize_flex ".s" = Ok STIFF.
Proof. vm_compute. reflexivity. Qed.
Example normalize_flex_65tx : normalize_flex "65TX" = Ok TX.
Proof. vm_compute. reflexivity. Qed.

End FlexExamples.

Section Text.

Lemma app_nil_r_s (s : string) : s +:+ "" = s.
Proof. induction s; simpl; congruence. Qed.

Lemma app_assoc_s (a b c : string) : (a +:+ b) +:+ c = a +:+ (b +:+ c).
Proof. induction a; simpl; congruence. Qed.

Lemma last_char_app_cons (x : string) (c : ascii) (y : string) :
  last_char (x +:+ String c y) = last_char (String c y).
Proof.
  induction x as [|a x IH]; [reflexivity|].
  change (last_char (String a (x +:+ String c y)) = last_char (String c y)).
  rewrite <- IH. simpl. destruct (x +:+ String c y) eqn:E; [|reflexivity].
  destruct x; discriminate.
Qed.

Lemma last_char_snoc (x : string) (c : ascii) :
  last_char (x +:+ String c "") = Some c.
Proof. rewrite last_char_app_cons. reflexivity. Qed.

Lemma last_char_None (s : string) : last_char s = None -> s = "".
Proof.
  induction s as [|a s IH]; [reflexivity|]. simpl.
  destruct s; [discriminate|]. intros H. apply IH in H. discriminate.
Qed.

Lemma is_space_lower_char (c : ascii) : is_space (lower_char c) = is_space c.
Proof. destruct c as [[] [] [] [] [] [] [] []]; reflexivity. Qed.

Lemma last_char_lower (s : string) :
  last_char (lower s) = option_map lower_char (last_char s).
Proof.
  induction s as [|a s IH]; [reflexivity|]. simpl.
  destruct s; [reflexivity|]. simpl in *. exact IH.
Qed.

Lemma last_char_rstrip (s : string) (c : ascii) :
  last_char (rstrip s) = Some c -> is_space c = false.
Proof.
  revert c. induction s as [|a s IH]; intros c; [discriminate|]. simpl.
  destruct (rstrip s) as [|b r] eqn:E.
  - destruct (is_space a) eqn:Ha; [discriminate|]. simpl. congruence.
  - intros H. apply IH. exact H.
Qed.

Lemma last_char_remove_spaces (s : string) (c : ascii) :
  last_char (remove_spaces s) = Some c ->
  exists c', last_char s = Some c' /\ (is_space c' = false -> c = c').
Proof.
  revert c. induction s as [|a s IH]; intros c; [discriminate|]. simpl.
  destruct (Ascii.eqb a " ") eqn:Ha.
  - apply Ascii.eqb_eq in Ha. subst a. intros H.
    destruct (IH c H) as (c' & Hc' & Himp).
    exists c'. split; [|exact Himp]. destruct s; [discriminate|exact Hc'].
  - destruct (remove_spaces s) as [|b r] eqn:E.
    + simpl. intros [= <-].
      destruct s as [|b s]; [eauto|].
      (* every character of a non-empty [s] was a space *)
      assert (Hlast : exists c', last_char (String b s) = Some c').
      { destruct (last_char (String b s)) eqn:El; [eauto|].
        apply last_char_None in El. discriminate. }
      destruct Hlast as [c' Hc']. exists c'. split; [exact Hc'|].
      intros Hns. exfalso.
      clear IH Ha. revert b Hc' E. induction s as [|d s IHs]; intros b Hc' E.
      * simpl in *. injection Hc' as ->.
        destruct (Ascii.eqb c' " ") eqn:Hb; [|discriminate].
        apply Ascii.eqb_eq in Hb. subst. discriminate.
      * simpl in E. destruct (Ascii.eqb b " "); [|discriminate].
        apply (IHs d); [exact Hc'|exact E].
    + intros H. destruct s as [|d s]; [discriminate|].
      change (last_char (String b r) = Some c) in H.
      destruct (IH c H) as (c' & Hc' & Himp). exists c'. split; [exact Hc'|exact Himp].
Qed.

(** The cleaned text never ends with a newline, so [$] can only match
    at its very end. *)
Lemma clean_flex_last (raw : string) (c : ascii) :
  last_char (clean_flex raw) = Some c -> is_space c = false.
Proof.
  unfold clean_flex, strip. intros H.
  apply last_char_remove_spaces in H as (c' & Hc' & Himp).
  rewrite last_char_lower in Hc'.
  destruct (last_char (rstrip (lstrip raw))) as [c0|] eqn:E; [|discriminate].
  simpl in Hc'. injection Hc' as <-.
  apply last_char_rstrip in E.
  rewrite <- is_space_lower_char in E.
  rewrite (Himp E). exact E.
Qed.

Lemma has_weight_char_app (x : string) (w : ascii) (y : string) :
  is_weight_char w = true -> has_weight_char (x +:+ String w y) = true.
Proof.
  intros Hw. induction x as [|a x IH]; simpl.
  - rewrite Hw. reflexivity.
  - rewrite IH. apply orb_true_r.
Qed.

Lemma flex_code_cases (c : string) :
  c ∈ flex_codes ->
  c = "s" \/ c = "r" \/ c = "x" \/ c = "tx" \/ c = "xs" \/ c = "a" \/ c = "l".
Proof.
  unfold flex_codes. intros H.
  repeat (apply elem_of_cons in H as [H|H]; [tauto|]).
  apply elem_of_nil in H. contradiction.
Qed.

Lemma flex_code_no_weight_char (c : string) :
  c ∈ flex_codes -> has_weight_char c = false.
Proof.
  intros H. apply flex_code_cases in H.
  repeat (destruct H as [-> | H]; [reflexivity|]). subst. reflexivity.
Qed.

End Text.

Section FlexPattern.

Lemma after_literal_app (lit s rest : string) :
  after_literal lit s = Some rest -> s = lit +:+ rest.
Proof.
  revert s. induction lit as [|a lit IH]; intros s; simpl.
  - congruence.
  - destruct s as [|b s]; [discriminate|].
    destruct (Ascii.eqb a b) eqn:E; [|discriminate].
    apply Ascii.eqb_eq in E. subst b. intros H. rewrite (IH _ H). reflexivity.
Qed.

Lemma at_dollar_cases (rest : string) :
  at_dollar rest = true -> rest = "" \/ rest = String "010" "".
Proof.
  destruct rest as [|c [|d r]]; simpl; [tauto| |discriminate].
  intros H. apply Ascii.eqb_eq in H. subst. tauto.
Qed.

Lemma match_group_dollar_sound (alts : list string) (s g : string) :
  match_group_dollar alts s = Some g ->
  g ∈ alts /\ (s = g \/ s = g +:+ String "010" "").
Proof.
  induction alts as [|a alts IH]; simpl; [discriminate|].
  destruct (after_literal a s) as [rest|] eqn:E.
  - destruct (at_dollar rest) eqn:D.
    + intros [= <-]. split; [apply list_elem_of_here|].
      apply after_literal_app in E. apply at_dollar_cases in D as [-> | ->].
      * left. rewrite E. apply app_nil_r_s.
      * right. exact E.
    + intros H. destruct (IH H). split; [apply list_elem_of_further|]; assumption.
  - intros H. destruct (IH H). split; [apply list_elem_of_further|]; assumption.
Qed.

Lemma match_run_group_cons (c : ascii) (s : string) :
  match_run_group (String c s) =
  if is_weight_char c then
    match match_run_group s with
    | Some g => Some g
    | None => match_group_dollar flex_codes s
    end
  else None.
Proof. reflexivity. Qed.

Lemma flex_search_cons (c : ascii) (s : string) :
  flex_search (String c s) =
  match match_run_group (String c s) with
  | Some g => Some g
  | None => flex_search s
  end.
Proof. reflexivity. Qed.

Lemma match_run_group_sound (s g : string) :
  match_run_group s = Some g ->
  exists run rest,
    s = run +:+ rest /\ run <> "" /\ all_weight_chars run = true
    /\ g ∈ flex_codes /\ (rest = g \/ rest = g +:+ String "010" "").
Proof.
  revert g. induction s as [|c s IH]; intros g; [discriminate|].
  rewrite match_run_group_cons.
  destruct (is_weight_char c) eqn:Hc; [|discriminate].
  destruct (match_run_group s) as [g'|] eqn:E.
  - intros [= <-]. destruct (IH g' eq_refl) as (run & rest & -> & _ & Hall & Hg & Hrest).
    exists (String c run), rest. simpl. rewrite Hc, Hall. repeat split; auto; discriminate.
  - intros H. apply match_group_dollar_sound in H as [Hg Hrest].
    exists (String c ""), s. simpl. rewrite Hc. repeat split; auto; discriminate.
Qed.

Lemma flex_search_sound (s g : string) :
  flex_search s = Some g ->
  exists prefix run rest,
    s = prefix +:+ run +:+ rest /\ run <> "" /\ all_weight_chars run = true
    /\ g ∈ flex_codes /\ (rest = g \/ rest = g +:+ String "010" "").
Proof.
  revert g. induction s as [|c s IH]; intros g.
  - simpl. discriminate.
  - rewrite flex_search_cons.
    destruct (match_run_group (String c s)) as [g'|] eqn:E.
    + intros [= <-]. apply match_run_group_sound in E as (run & rest & Hs & H).
      exists "", run, rest. split; [exact Hs|exact H].
    + intros H. destruct (IH g H) as (p & run & rest & -> & Hr).
      exists (String c p), run, rest. split; [reflexivity|exact Hr].
Qed.

Lemma match_group_dollar_code (c : string) :
  c ∈ flex_codes -> match_group_dollar flex_codes c = Some c.
Proof.
  intros H. apply flex_code_cases in H.
  repeat (destruct H as [-> | H]; [reflexivity|]). subst. reflexivity.
Qed.

Lemma match_run_group_code (c : string) :
  c ∈ flex_codes -> match_run_group c = None.
Proof.
  intros H. apply flex_code_cases in H.
  repeat (destruct H as [-> | H]; [reflexivity|]). subst. reflexivity.
Qed.

Lemma match_run_group_complete (run c : string) :
  run <> "" -> all_weight_chars run = true -> c ∈ flex_codes ->
  match_run_group (run +:+ c) = Some c.
Proof.
  intros Hne Hall Hc. induction run as [|w run IH]; [contradiction|].
  simpl in Hall. apply andb_true_iff in Hall as [Hw Hall].
  change (String w run +:+ c) with (String w (run +:+ c)).
  rewrite match_run_group_cons, Hw. destruct run as [|w' run'].
  - change ("" +:+ c) with c.
    rewrite (match_run_group_code c Hc). apply match_group_dollar_code, Hc.
  - rewrite IH; [reflexivity|discriminate|exact Hall].
Qed.

(** Two ways to read a text as "a character of the class, then a code"
    name the same code. *)
Lemma run_code_unique (x x' : string) (w w' : ascii) (c c' : string) :
  x +:+ String w c = x' +:+ String w' c' ->
  is_weight_char w = true -> is_weight_char w' = true ->
  c ∈ flex_codes -> c' ∈ flex_codes -> c = c'.
Proof.
  intros H Hw Hw' Hc Hc'. revert x' H.
  induction x as [|a x IH]; intros [|a' x'] H; simpl in H.
  - congruence.
  - injection H as _ H. apply flex_code_no_weight_char in Hc.
    rewrite H, has_weight_char_app in Hc by exact Hw'. discriminate.
  - injection H as _ H. apply flex_code_no_weight_char in Hc'.
    rewrite <- H, has_weight_char_app in Hc' by exact Hw. discriminate.
  - injection H as _ H. apply (IH x' H).
Qed.

Lemma run_last (run : string) :
  run <> "" -> all_weight_chars run = true ->
  exists y w, run = y +:+ String w "" /\ is_weight_char w = true.
Proof.
  induction run as [|a run IH]; [contradiction|]. intros _ Hall.
  simpl in Hall. apply andb_true_iff in Hall as [Ha Hall].
  destruct run as [|b run].
  - exists "", a. auto.
  - destruct IH as (y & w & Hy & Hw); [discriminate|exact Hall|].
    exists (String a y), w. simpl. rewrite Hy. auto.
Qed.

(** The search finds exactly the code that ends the text, when the text
    does not end with a newline. *)
Lemma flex_search_spec (s c : string) :
  (forall ch, last_char s = Some ch -> is_space ch = false) ->
  flex_search s = Some c <-> ends_in_run_and_code s c.
Proof.
  intros Hlast. split.
  - intros H. apply flex_search_sound in H
      as (p & run & rest & Hs & Hne & Hall & Hc & [-> | ->]).
    + exists p, run. auto.
    + exfalso. specialize (Hlast "010"%char).
      rewrite Hs, <- !app_assoc_s, last_char_snoc in Hlast.
      specialize (Hlast eq_refl). discriminate.
  - intros (p & run & -> & Hne & Hall & Hc).
    assert (Hsome : exists g, flex_search (p +:+ run +:+ c) = Some g).
    { clear Hlast. induction p as [|a p IH].
      - exists c. change ("" +:+ run +:+ c) with (run +:+ c).
        pose proof (match_run_group_complete run c Hne Hall Hc) as Hm.
        destruct run as [|w run]; [contradiction|].
        change (String w run +:+ c) with (String w (run +:+ c)) in *.
        rewrite flex_search_cons, Hm. reflexivity.
      - destruct IH as [g Hg].
        change (String a p +:+ run +:+ c) with (String a (p +:+ run +:+ c)).
        rewrite flex_search_cons.
        destruct (match_run_group (String a (p +:+ run +:+ c))); eauto. }
    destruct Hsome as [g Hg]. rewrite Hg. f_equal.
    pose proof Hg as Hg'.
    apply flex_search_sound in Hg'
      as (p' & run' & rest & Hs & Hne' & Hall' & Hc' & [-> | ->]).
    + destruct (run_last run Hne Hall) as (y & w & -> & Hw).
      destruct (run_last run' Hne' Hall') as (y' & w' & -> & Hw').
      rewrite !app_assoc_s in Hs. simpl in Hs. rewrite <- !app_assoc_s in Hs.
      symmetry. eapply run_code_unique; eauto.
    + exfalso. specialize (Hlast "010"%char).
      rewrite Hs, <- !app_assoc_s, last_char_snoc in Hlast.
      specialize (Hlast eq_refl). discriminate.
Qed.

End FlexPattern.

Section NormalizeFlex.

Lemma FLEX_MAP_key_no_weight_char (k : string) (f : Flex) :
  FLEX_MAP !! k = Some f -> has_weight_char k = false.
Proof.
  unfold FLEX_MAP. intros H. apply elem_of_list_to_map_2 in H.
  repeat (apply elem_of_cons in H as [H|H]; [injection H as -> _; reflexivity|]).
  apply elem_of_nil in H. contradiction.
Qed.

Lemma FLEX_MAP_code (c : string) :
  c ∈ flex_codes -> exists f, FLEX_MAP !! c = Some f.
Proof.
  intros H. apply flex_code_cases in H.
  repeat (destruct H as [-> | H]; [eexists; vm_compute; reflexivity|]).
  subst. eexists; vm_compute; reflexivity.
Qed.

Lemma ends_in_run_has_weight_char (s c : string) :
  ends_in_run_and_code s c -> has_weight_char s = true.
Proof.
  intros (p & run & -> & Hne & Hall & _).
  destruct run as [|w run]; [contradiction|].
  simpl in Hall. apply andb_true_iff in Hall as [Hw _].
  change (String w run +:+ c) with (String w (run +:+ c)).
  apply has_weight_char_app, Hw.
Qed.

Lemma has_digit_app (x y : string) :
  has_digit (x +:+ y) = has_digit x || has_digit y.
Proof.
  induction x as [|a x IH]; [reflexivity|].
  simpl. rewrite IH. apply orb_assoc.
Qed.

Lemma ends_in_number_has_digit (s c : string) :
  ends_in_number_and_code s c -> has_digit s = true.
Proof.
  intros (p & n & -> & Hn & _). unfold is_decimal_number in Hn.
  apply andb_true_iff in Hn as [Hn _]. apply andb_true_iff in Hn as [_ Hn].
  rewrite !has_digit_app, Hn. rewrite orb_true_r. reflexivity.
Qed.

(** C2, as amended.  With [cleaned] the text after trim, lower-casing
    and removal of spaces: a key of the flex alias table gives its
    canonical value; a text that ends in a non-empty run of characters
    of the class (digits and points, in any number and order) followed
    by one of the codes s, r, x, tx, xs, a, l gives the value of that
    code; every other text raises the normalization error. *)
Theorem normalize_flex_characterized (raw : string) :
  (forall f, FLEX_MAP !! clean_flex raw = Some f -> normalize_flex raw = Ok f)
  /\ (forall code, ends_in_run_and_code (clean_flex raw) code ->
        exists f, FLEX_MAP !! code = Some f /\ normalize_flex raw = Ok f)
  /\ (FLEX_MAP !! clean_flex raw = None ->
      (forall code, ~ ends_in_run_and_code (clean_flex raw) code) ->
      normalize_flex raw
      = Raise (ValueError ("Cannot normalize flex: '" +:+ raw +:+ "'"))).
Proof.
  unfold normalize_flex. repeat split.
  - intros f ->. reflexivity.
  - intros c Hc.
    destruct (FLEX_MAP !! clean_flex raw) as [f|] eqn:E.
    + apply FLEX_MAP_key_no_weight_char in E.
      rewrite (ends_in_run_has_weight_char _ _ Hc) in E. discriminate.
    + pose proof Hc as (_ & _ & _ & _ & _ & Hin).
      destruct (FLEX_MAP_code c Hin) as [f Hf]. exists f. split; [exact Hf|].
      apply (flex_search_spec _ _ (clean_flex_last raw)) in Hc.
      rewrite Hc, Hf. reflexivity.
  - intros -> Hno.
    destruct (flex_search (clean_flex raw)) as [g|] eqn:E; [|reflexivity].
    apply (flex_search_spec _ _ (clean_flex_last raw)) in E.
    destruct (Hno g E).
Qed.

Lemma normalize_flex_characterized_witness :
  exists f, FLEX_MAP !! "x" = Some f /\ normalize_flex "60 X" = Ok f.
Proof.
  apply (normalize_flex_characterized "60 X").
  exists "", "60". repeat split; [discriminate|].
  unfold flex_codes. apply list_elem_of_further, list_elem_of_further, list_elem_of_here.
Defined.

(** C2, counterexample.  [".s"] is not a key of the table and does not
    end in digits (with or without a decimal point) followed by a code,
    yet it is normalized to Stiff rather than refused. *)
Lemma normalize_flex_point_only :
  FLEX_MAP !! clean_flex ".s" = None
  /\ (forall code, ~ ends_in_number_and_code (clean_flex ".s") code)
  /\ normalize_flex ".s" = Ok STIFF.
Proof.
  split; [vm_compute; reflexivity|]. split; [|vm_compute; reflexivity].
  intros c Hc. apply ends_in_number_has_digit in Hc. discriminate Hc.
Qed.

End NormalizeFlex.

(** The order of the floats, and the bounds of the schema. *)
Section FloatOrder.

Lemma SFcompare_antisym (f g : spec_float) :
  SFcompare g f = option_map CompOpp (SFcompare f g).
Proof.
  destruct f as [s1| s1| |s1 m1 e1], g as [s2| s2| |s2 m2 e2]; cbn;
    try reflexivity;
    try (destruct s1; reflexivity); try (destruct s2; reflexivity);
    try (destruct s1, s2; reflexivity).
  destruct s1, s2; cbn; try reflexivity.
  - rewrite (Z.compare_antisym e1 e2). destruct (e1 ?= e2)%Z; cbn; try reflexivity.
    change (Pos.compare_cont Eq m2 m1) with (Pos.compare m2 m1).
    change (Pos.compare_cont Eq m1 m2) with (Pos.compare m1 m2).
    rewrite (Pos.compare_antisym m1 m2). destruct (m1 ?= m2)%positive; reflexivity.
  - rewrite (Z.compare_antisym e1 e2). destruct (e1 ?= e2)%Z; cbn; try reflexivity.
    change (Pos.compare_cont Eq m2 m1) with (Pos.compare m2 m1).
    change (Pos.compare_cont Eq m1 m2) with (Pos.compare m1 m2).
    rewrite (Pos.compare_antisym m1 m2). destruct (m1 ?= m2)%positive; reflexivity.
Qed.

Lemma SFcompare_refl (f : spec_float) :
  SFcompare f f = match f with S754_nan => None | _ => Some Eq end.
Proof.
  destruct f as [s| s| |s m e]; cbn; try reflexivity; try (destruct s; reflexivity).
  destruct s; rewrite Z.compare_refl;
    change (Pos.compare_cont Eq m m) with (Pos.compare m m);
    rewrite Pos.compare_refl; reflexivity.
Qed.

(** A float is [nan] exactly when its comparison with itself fails. *)
Lemma is_nan_compare (x : float) :
  PrimFloat.is_nan x = false -> Prim2SF x <> S754_nan.
Proof.
  unfold PrimFloat.is_nan. rewrite FloatAxioms.eqb_spec. unfold SFeqb.
  intros H E. rewrite E in H. discriminate H.
Qed.

Lemma compare_numbers (x y : float) :
  PrimFloat.is_nan x = false -> PrimFloat.is_nan y = false ->
  exists c, SFcompare (Prim2SF x) (Prim2SF y) = Some c.
Proof.
  intros Hx Hy. apply is_nan_compare in Hx, Hy.
  destruct (Prim2SF x) as [s1| s1| |s1 m1 e1], (Prim2SF y) as [s2| s2| |s2 m2 e2];
    try contradiction; cbn; eauto.
Qed.

(** There is one [nan]. *)
Lemma is_nan_eq (x : float) : PrimFloat.is_nan x = true -> x = nan.
Proof.
  unfold PrimFloat.is_nan. rewrite FloatAxioms.eqb_spec. unfold SFeqb.
  rewrite SFcompare_refl. intros H. rewrite <- (FloatAxioms.SF2Prim_Prim2SF x).
  destruct (Prim2SF x); try discriminate H. reflexivity.
Qed.

(** On numbers, [x <= y] is the negation of [y < x]. *)
Lemma leb_negb_ltb (x y : float) :
  PrimFloat.is_nan x = false -> PrimFloat.is_nan y = false ->
  PrimFloat.leb x y = negb (PrimFloat.ltb y x).
Proof.
  intros Hx Hy. rewrite FloatAxioms.leb_spec, FloatAxioms.ltb_spec. unfold SFleb, SFltb.
  rewrite (SFcompare_antisym (Prim2SF x) (Prim2SF y)).
  destruct (compare_numbers x y Hx Hy) as [c ->]. destruct c; reflexivity.
Qed.

Lemma ltb_negb_leb (x y : float) :
  PrimFloat.is_nan x = false -> PrimFloat.is_nan y = false ->
  PrimFloat.ltb x y = negb (PrimFloat.leb y x).
Proof.
  intros Hx Hy. rewrite (leb_negb_ltb y x Hy Hx), negb_involutive. reflexivity.
Qed.

(** Every comparison with [nan] is false. *)
Lemma nan_compares_false (x y : float) :
  PrimFloat.is_nan x = true ->
  PrimFloat.ltb x y = false /\ PrimFloat.ltb y x = false
  /\ PrimFloat.leb x y = false /\ PrimFloat.leb y x = false.
Proof.
  unfold PrimFloat.is_nan. rewrite FloatAxioms.eqb_spec, !FloatAxioms.ltb_spec, !FloatAxioms.leb_spec.
  unfold SFeqb, SFltb, SFleb. rewrite SFcompare_refl.
  destruct (Prim2SF x) as [s1| s1| |s1 m1 e1]; try discriminate.
  intros _. destruct (Prim2SF y); repeat split; reflexivity.
Qed.

(** A comparison that holds is between numbers. *)
Lemma ltb_numbers (x y : float) :
  PrimFloat.ltb x y = true -> PrimFloat.is_nan x = false /\ PrimFloat.is_nan y = false.
Proof.
  intros H. split.
  - destruct (PrimFloat.is_nan x) eqn:E; [|reflexivity].
    destruct (nan_compares_false x y E) as (H1 & _). congruence.
  - destruct (PrimFloat.is_nan y) eqn:E; [|reflexivity].
    destruct (nan_compares_false y x E) as (_ & H1 & _). congruence.
Qed.

Lemma leb_numbers (x y : float) :
  PrimFloat.leb x y = true -> PrimFloat.is_nan x = false /\ PrimFloat.is_nan y = false.
Proof.
  intros H. split.
  - destruct (PrimFloat.is_nan x) eqn:E; [|reflexivity].
    destruct (nan_compares_false x y E) as (_ & _ & H1 & _). congruence.
  - destruct (PrimFloat.is_nan y) eqn:E; [|reflexivity].
    destruct (nan_compares_false y x E) as (_ & _ & _ & H1). congruence.
Qed.

Lemma finite_number (x : float) :
  PrimFloat.is_finite x = true -> PrimFloat.is_nan x = false.
Proof.
  unfold PrimFloat.is_finite. intros H. apply negb_true_iff in H.
  apply orb_false_iff in H as [H _]. exact H.
Qed.

(** A value within its bounds passes them. *)
Lemma validate_gt_lt_within (lo hi x : float) :
  PrimFloat.ltb lo x && PrimFloat.ltb x hi = true ->
  validate_gt_lt lo hi x = Some x.
Proof.
  intros H. apply andb_true_iff in H as [H1 H2]. unfold validate_gt_lt.
  destruct (ltb_numbers _ _ H1) as [Hlo Hx], (ltb_numbers _ _ H2) as [_ Hhi].
  rewrite (leb_negb_ltb hi x Hhi Hx), (leb_negb_ltb x lo Hx Hlo), H1, H2.
  reflexivity.
Qed.

Lemma validate_ge_lt_within (lo hi x : float) :
  PrimFloat.leb lo x && PrimFloat.ltb x hi = true ->
  validate_ge_lt lo hi x = Some x.
Proof.
  intros H. apply andb_true_iff in H as [H1 H2]. unfold validate_ge_lt.
  destruct (leb_numbers _ _ H1) as [Hlo Hx], (ltb_numbers _ _ H2) as [_ Hhi].
  rewrite (leb_negb_ltb hi x Hhi Hx), (ltb_negb_leb x lo Hx Hlo), H1, H2.
  reflexivity.
Qed.

Lemma validate_ge_within (lo x : float) :
  PrimFloat.leb lo x = true -> validate_ge lo x = Some x.
Proof.
  intros H. unfold validate_ge. destruct (leb_numbers _ _ H) as [Hlo Hx].
  rewrite (ltb_negb_leb x lo Hx Hlo), H. reflexivity.
Qed.


(** A value that passes its bounds is [nan], or within them. *)
Lemma validate_gt_lt_Some (lo hi x y : float) :
  PrimFloat.is_nan lo = false -> PrimFloat.is_nan hi = false ->
  validate_gt_lt lo hi x = Some y ->
  y = x /\ nan_or (fun x => PrimFloat.ltb lo x && PrimFloat.ltb x hi) x = true.
Proof.
  intros Hlo Hhi. unfold validate_gt_lt, nan_or.
  destruct (PrimFloat.is_nan x) eqn:Hx.
  - destruct (PrimFloat.leb hi x || PrimFloat.leb x lo); [discriminate|].
    intros [= <-]. split; reflexivity.
  - rewrite (leb_negb_ltb hi x Hhi Hx), (leb_negb_ltb x lo Hx Hlo).
    destruct (PrimFloat.ltb x hi), (PrimFloat.ltb lo x); try discriminate.
    intros [= <-]. split; reflexivity.
Qed.

Lemma validate_ge_lt_Some (lo hi x y : float) :
  PrimFloat.is_nan lo = false -> PrimFloat.is_nan hi = false ->
  validate_ge_lt lo hi x = Some y ->
  y = x /\ nan_or (fun x => PrimFloat.leb lo x && PrimFloat.ltb x hi) x = true.
Proof.
  intros Hlo Hhi. unfold validate_ge_lt, nan_or.
  destruct (PrimFloat.is_nan x) eqn:Hx.
  - destruct (PrimFloat.leb hi x || PrimFloat.ltb x lo); [discriminate|].
    intros [= <-]. split; reflexivity.
  - rewrite (leb_negb_ltb hi x Hhi Hx), (ltb_negb_leb x lo Hx Hlo).
    destruct (PrimFloat.ltb x hi), (PrimFloat.leb lo x); try discriminate.
    intros [= <-]. split; reflexivity.
Qed.

Lemma validate_ge_Some (lo x y : float) :
  PrimFloat.is_nan lo = false ->
  validate_ge lo x = Some y ->
  y = x /\ nan_or (fun x => PrimFloat.leb lo x) x = true.
Proof.
  intros Hlo. unfold validate_ge, nan_or.
  destruct (PrimFloat.is_nan x) eqn:Hx.
  - destruct (PrimFloat.ltb x lo); [discriminate|].
    intros [= <-]. split; reflexivity.
  - rewrite (ltb_negb_leb x lo Hx Hlo).
    destruct (PrimFloat.leb lo x); try discriminate.
    intros [= <-]. split; reflexivity.
Qed.

End FloatOrder.

Section Schema.

(** The tests of [test_schemas.py] on the weight. *)
Example ShaftSpec_weight_zero :
  ShaftSpec_new (basic_args "Test" "Test" "woods" "Stiff" 0)
  = Raise (ValidationError ["weight_grams"]).
Proof. vm_compute. reflexivity. Qed.

Example ShaftSpec_weight_negative :
  ShaftSpec_new (basic_args "Test" "Test" "woods" "Stiff" (-10))
  = Raise (ValidationError ["weight_grams"]).
Proof. vm_compute. reflexivity. Qed.

Example ShaftSpec_weight_62 :
  exists spec,
    ShaftSpec_new (basic_args "Project X" "HZRDUS Black" "woods" "Stiff" 62)
    = Ok spec /\ weight_grams spec = 62%float.
Proof. eexists. split; vm_compute; reflexivity. Qed.

Example ShaftSpec_strips_whitespace :
  exists spec,
    ShaftSpec_new (basic_args "  Fujikura  " "  Ventus  " "woods" "Stiff" 65)
    = Ok spec /\ manufacturer spec = "Fujikura" /\ model spec = "Ventus".
Proof. eexists. repeat split; vm_compute; reflexivity. Qed.

Lemma refused_nil {A : Type} (name : string) (o : option A) :
  refused name o = [] <-> is_Some o.
Proof.
  destruct o; simpl; split; intros H; try reflexivity; try discriminate.
  - eauto.
  - destruct H; discriminate.
Qed.

(** Construction succeeds exactly when no field is refused. *)
Lemma ShaftSpec_new_Ok_iff (a : ShaftSpecArgs) :
  (exists spec, ShaftSpec_new a = Ok spec) <-> error_fields a = [].
Proof.
  unfold ShaftSpec_new, validated, error_fields.
  assert (Hany : forall o, exists r, validate_optional validate_any o = Some r).
  { intros [x|]; eexists; reflexivity. }
  destruct (Hany (a_butt_diameter_inches a)) as [bd ->].
  destruct (Hany (a_tip_diameter_inches a)) as [td ->].
  repeat match goal with
         | |- context [refused _ ?o] =>
             tryif is_var o then fail else (generalize o; intro)
         end.
  repeat match goal with
         | o : option _ |- _ =>
             destruct o; simpl;
             [|split; [intros [? Hraise]; discriminate Hraise
                      |intros Hnil; discriminate Hnil]]
         end.
  split; eauto.
Qed.

Lemma validate_name_None (s : string) : validate_name s = None <-> s = "".
Proof.
  unfold validate_name. destruct s; simpl; split; congruence.
Qed.

(** The name fields are refused exactly when the text given is empty:
    the text is not trimmed before its length is checked. *)
Lemma manufacturer_refused_iff (a : ShaftSpecArgs) :
  In "manufacturer" (error_fields a) <-> a_manufacturer a = "".
Proof.
  rewrite <- validate_name_None. unfold error_fields.
  destruct (validate_name (a_manufacturer a)) eqn:E.
  - split; [|discriminate]. simpl. intros H. exfalso.
    repeat match type of H with
           | In _ (refused _ ?o ++ _) =>
               apply in_app_or in H as [H|H];
               [destruct o; simpl in H; [contradiction|];
                destruct H as [H|[]]; discriminate H|]
           | In _ (refused _ ?o) =>
               destruct o; simpl in H; [contradiction|];
               destruct H as [H|[]]; discriminate H
           end.
  - split; [reflexivity|]. intros _. simpl. left. reflexivity.
Qed.

Lemma validate_optional_None {A B : Type} (f : A -> option B) (o : option A) :
  validate_optional f o = None <-> exists x, o = Some x /\ f x = None.
Proof.
  destruct o as [x|]; simpl.
  - destruct (f x) eqn:E; split.
    + discriminate.
    + intros (y & [= <-] & H). congruence.
    + eauto.
    + reflexivity.
  - split; [discriminate|]. intros (x & H & _). discriminate.
Qed.

Lemma refused_not_nil {A : Type} (name : string) (o : option A) :
  refused name o <> [] <-> o = None.
Proof. destruct o; simpl; split; congruence. Qed.

Lemma app_not_nil {A : Type} (l k : list A) :
  (l ++ k)%list <> [] <-> l <> [] \/ k <> [].
Proof.
  destruct l; simpl; split.
  - auto.
  - intros [H|H]; [contradiction|exact H].
  - intros _. left. discriminate.
  - discriminate.
Qed.

Lemma validate_gt_lt_None (lo hi x : float) :
  PrimFloat.is_nan lo = false -> PrimFloat.is_nan hi = false ->
  PrimFloat.is_nan x = false ->
  validate_gt_lt lo hi x = None <-> PrimFloat.ltb lo x && PrimFloat.ltb x hi = false.
Proof.
  intros Hlo Hhi Hx. unfold validate_gt_lt.
  rewrite (leb_negb_ltb hi x Hhi Hx), (leb_negb_ltb x lo Hx Hlo).
  destruct (PrimFloat.ltb lo x), (PrimFloat.ltb x hi); cbn; split; congruence.
Qed.

Lemma validate_ge_lt_None (lo hi x : float) :
  PrimFloat.is_nan lo = false -> PrimFloat.is_nan hi = false ->
  PrimFloat.is_nan x = false ->
  validate_ge_lt lo hi x = None <-> PrimFloat.leb lo x && PrimFloat.ltb x hi = false.
Proof.
  intros Hlo Hhi Hx. unfold validate_ge_lt.
  rewrite (leb_negb_ltb hi x Hhi Hx), (ltb_negb_leb x lo Hx Hlo).
  destruct (PrimFloat.leb lo x), (PrimFloat.ltb x hi); cbn; split; congruence.
Qed.

Lemma validate_ge_None (lo x : float) :
  PrimFloat.is_nan lo = false -> PrimFloat.is_nan x = false ->
  validate_ge lo x = None <-> PrimFloat.leb lo x = false.
Proof.
  intros Hlo Hx. unfold validate_ge. rewrite (ltb_negb_leb x lo Hx Hlo).
  destruct (PrimFloat.leb lo x); cbn; split; congruence.
Qed.

Lemma optional_violation (p q : float -> Prop) (o : option float) :
  (forall x, o = Some x -> (p x <-> q x)) ->
  (exists x, o = Some x /\ p x) <-> (exists x, o = Some x /\ q x).
Proof.
  intros H. split; intros (x & Hx & Hp); exists x; (split; [exact Hx|]);
    apply (H x Hx), Hp.
Qed.

Lemma when_present_Some {A : Type} (p : A -> bool) (o : option A) (x : A) :
  when_present p o = true -> o = Some x -> p x = true.
Proof. intros H ->. exact H. Qed.

(** On measurements that are numbers, the constructor raises exactly
    when a constraint of the data model is violated, and what it raises
    is the validation error. *)
Lemma ShaftSpec_new_raises_iff (a : ShaftSpecArgs) :
  measurements_are_numbers a = true ->
  (exists e, ShaftSpec_new a = Raise e) <-> constraint_violated a.
Proof.
  unfold measurements_are_numbers. rewrite !andb_true_iff.
  intros [[[Hw Hl] Ht] Hp]. apply negb_true_iff in Hw.
  assert (H : (exists e, ShaftSpec_new a = Raise e) <-> error_fields a <> []).
  { pose proof (ShaftSpec_new_Ok_iff a) as Hok. unfold ShaftSpec_new in *.
    destruct (validated a) as [spec|].
    - split; [intros [e He]; discriminate He|].
      intros Hne. destruct Hne. apply Hok. eauto.
    - split; [|eauto]. intros _ Hnil. apply Hok in Hnil as [spec Hs].
      discriminate Hs. }
  rewrite H. unfold error_fields, constraint_violated.
  rewrite !app_not_nil, !refused_not_nil, !validate_name_None,
    !validate_optional_None.
  rewrite (validate_gt_lt_None 0 300 _ eq_refl eq_refl Hw).
  rewrite (optional_violation
             (fun x => validate_gt_lt 0 60 x = None)
             (fun l => PrimFloat.ltb 0 l && PrimFloat.ltb l 60 = false)
             (a_length_inches a)).
  2:{ intros x Hx. apply validate_gt_lt_None; try reflexivity.
      apply negb_true_iff, (when_present_Some _ _ _ Hl Hx). }
  rewrite (optional_violation
             (fun x => validate_ge_lt 0 15 x = None)
             (fun t => PrimFloat.leb 0 t && PrimFloat.ltb t 15 = false)
             (a_torque_degrees a)).
  2:{ intros x Hx. apply validate_ge_lt_None; try reflexivity.
      apply negb_true_iff, (when_present_Some _ _ _ Ht Hx). }
  rewrite (optional_violation
             (fun x => validate_ge 0 x = None)
             (fun p => PrimFloat.leb 0 p = false)
             (a_msrp_usd a)).
  2:{ intros x Hx. apply validate_ge_None; try reflexivity.
      apply negb_true_iff, (when_present_Some _ _ _ Hp Hx). }
  reflexivity.
Qed.

(** A measurement that is [nan] passes its range: the weight of the
    record is [nan]. *)
Example ShaftSpec_weight_nan :
  exists spec,
    ShaftSpec_new (basic_args "Test" "Test" "woods" "Stiff" nan) = Ok spec
    /\ PrimFloat.is_nan (weight_grams spec) = true.
Proof. eexists. split; vm_compute; reflexivity. Qed.

(** C1.  A manufacturer that is empty after trimming, but not empty as
    given, is not refused: the record is constructed, and it stores the
    empty name.  (The same holds for the model.) *)
Theorem ShaftSpec_blank_manufacturer_accepted :
  strip "  " = ""
  /\ ShaftSpec_new (basic_args "  " "Test" "woods" "Stiff" 62)
     = Ok {| manufacturer := ""; model := "Test"; generation := None;
             club_type := WOODS; flex := STIFF; weight_grams := 62;
             length_inches := None; torque_degrees := None; launch := None;
             spin := None; butt_diameter_inches := None;
             tip_diameter_inches := None; tip_stiff := None;
             kickpoint := None; material := "graphite"; msrp_usd := None |}.
Proof. split; vm_compute; reflexivity. Qed.

(** The record constructed there cannot be loaded back from the store:
    its own dump is refused. *)
Example blank_manufacturer_not_reloadable :
  (do spec <- ShaftSpec_new (basic_args "  " "Test" "woods" "Stiff" 62);
   load_database (save_database [spec]))
  = Raise (ValidationError ["manufacturer"]).
Proof. vm_compute. reflexivity. Qed.

(** The same through the pipeline: a table whose manufacturer is a cell
    of blanks is normalized, deduplicated and saved, and the store then
    fails to load. *)
Example blank_manufacturer_through_pipeline :
  (do specs <- normalize_dataframe [(0, row_good)] "  " IRON;
   load_database (save_database (deduplicate specs)))
  = Raise (ValidationError ["manufacturer"]).
Proof. vm_compute. reflexivity. Qed.

End Schema.

Section DisplayName.

Example display_name_fujikura :
  display_name
    <$> validated
          {| a_manufacturer := "Fujikura"; a_model := "Ventus Blue";
             a_generation := VStr "TR"; a_club_type := "woods";
             a_flex := "X-Stiff"; a_weight_grams := 67;
             a_length_inches := None; a_torque_degrees := None;
             a_launch := None; a_spin := None;
             a_butt_diameter_inches := None; a_tip_diameter_inches := None;
             a_tip_stiff := None; a_kickpoint := None;
             a_material := "graphite"; a_msrp_usd := None |}
  = Some "Fujikura Ventus Blue TR X-Stiff".
Proof. vm_compute. reflexivity. Qed.

Example display_name_kbs :
  display_name <$> validated (kbs_tour VNone) = Some "KBS Tour Stiff".
Proof. vm_compute. reflexivity. Qed.

(** C9, as amended.  The generation is written, between single spaces,
    when it is present and not the empty text; when it is absent or the
    empty text, the name is manufacturer, model and flex, with no double
    space. *)
Theorem display_name_characterized (spec : ShaftSpec) :
  (forall g, generation spec = Some g -> g <> "" ->
     display_name spec
     = manufacturer spec +:+ " " +:+ model spec +:+ " " +:+ g +:+ " "
         +:+ Flex_value (flex spec))
  /\ (generation spec = None \/ generation spec = Some "" ->
      display_name spec
      = manufacturer spec +:+ " " +:+ model spec +:+ " "
          +:+ Flex_value (flex spec)).
Proof.
  unfold display_name. split.
  - intros g -> Hg. destruct g as [|c g]; [contradiction|]. simpl nonempty.
    cbv iota. rewrite <- !app_assoc_s. reflexivity.
  - intros [-> | ->]; reflexivity.
Qed.

(** C9, counterexample.  A record whose generation is present and is
    the empty text: the name has no slot for it, where the form
    "manufacturer model generation flex" has two spaces. *)
Lemma display_name_empty_generation :
  exists spec,
    ShaftSpec_new (kbs_tour (VStr "")) = Ok spec
    /\ generation spec = Some ""
    /\ display_name spec = "KBS Tour Stiff"
    /\ display_name_as_specified spec = "KBS Tour  Stiff".
Proof. eexists. repeat split; vm_compute; reflexivity. Qed.

End DisplayName.

Section SafeFloat.

(** [safe_float] gives a float or nothing for every value but an
    integer too large for a float. *)
Lemma safe_float_returns (val : pyval) :
  (forall n, val = VInt n -> float_of_int n <> None) ->
  exists r, safe_float val = Ok r.
Proof.
  intros Hint. unfold safe_float.
  destruct val as [|b|n|x|s]; simpl.
  - eauto.
  - eauto.
  - destruct (float_of_int n) eqn:E; [eauto|]. destruct (Hint n eq_refl E).
  - destruct (PrimFloat.is_nan x); eauto.
  - destruct (float_of_str s); eauto.
Qed.

(** When [safe_float] gives nothing: a null, a [nan], or text that
    [float] cannot read. *)
Lemma safe_float_None_iff (val : pyval) :
  safe_float val = Ok None <->
  val = VNone
  \/ (exists x, val = VFloat x /\ PrimFloat.is_nan x = true)
  \/ (exists s, val = VStr s /\ float_of_str s = None).
Proof.
  unfold safe_float. destruct val as [|b|n|x|s]; simpl.
  - tauto.
  - split; [discriminate|]. intros [H|[(x & H & _)|(s & H & _)]]; discriminate.
  - split.
    + destruct (float_of_int n); discriminate.
    + intros [H|[(x & H & _)|(s & H & _)]]; discriminate.
  - destruct (PrimFloat.is_nan x) eqn:E.
    + split; [|reflexivity]. intros _. right. left. eauto.
    + split; [discriminate|].
      intros [H|[(x' & [= <-] & H)|(s & H & _)]]; congruence.
  - destruct (float_of_str s) eqn:E.
    + split; [discriminate|].
      intros [H|[(x' & H & _)|(s' & [= <-] & H)]]; congruence.
    + split; [|reflexivity]. intros _. right. right. eauto.
Qed.

(** C8.  [safe_float] on the integer 10^400: [float] raises
    [OverflowError], which the [except (ValueError, TypeError)] clause
    does not catch, so the call raises. *)
Theorem safe_float_raises_on_large_int :
  safe_float (VInt (10 ^ 400))
  = Raise (OverflowError "int too large to convert to float").
Proof. vm_compute. reflexivity. Qed.

Example safe_float_text : safe_float (VStr " 62.5 ") = Ok (Some 62.5%float).
Proof. vm_compute. reflexivity. Qed.
Example safe_float_bad_text : safe_float (VStr "n/a") = Ok None.
Proof. vm_compute. reflexivity. Qed.
Example safe_float_nan : safe_float (VFloat nan) = Ok None.
Proof. vm_compute. reflexivity. Qed.
Example safe_float_int : safe_float (VInt 62) = Ok (Some 62%float).
Proof. vm_compute. reflexivity. Qed.

(** The exception leaves the row normalizer, and the batch normalizer,
    whose [except] clause does not name it. *)
Example normalize_dataframe_large_int :
  normalize_dataframe
    [(0, row_of [("model", VStr "Tour"); ("flex", VStr "S");
                 ("weight", VInt (10 ^ 400))])] "KBS" IRON
  = Raise (OverflowError "int too large to convert to float").
Proof. vm_compute. reflexivity. Qed.

End SafeFloat.

Section Profiles.

Lemma lookup_empty_key {E : Type} (l : list (string * E)) :
  forallb (fun kv => nonempty (fst kv)) l = true ->
  (list_to_map l : gmap string E) !! "" = None.
Proof.
  intros H. apply not_elem_of_list_to_map_1. intros Hin.
  apply list_elem_of_fmap in Hin as ([k v] & Hk & Hin). simpl in Hk. subst k.
  rewrite forallb_forall in H. apply list_elem_of_In in Hin.
  specialize (H _ Hin). discriminate.
Qed.

(** The shared shape of the three normalizers, on absent input and on
    text. *)
Lemma normalize_with_text {E : Type} (table : gmap string E) (s : string) :
  table !! "" = None ->
  normalize_with table (VStr s) = Ok (table !! lower (strip s)).
Proof.
  intros Hempty. unfold normalize_with. simpl.
  destruct s as [|c s]; simpl; [|reflexivity].
  change (lower (strip "")) with "". rewrite Hempty. reflexivity.
Qed.

Lemma normalize_with_key {E : Type} (table : gmap string E) (s k : string)
    (v : E) :
  table !! "" = None -> lower (strip s) = k -> table !! k = Some v ->
  normalize_with table (VStr s) = Ok (Some v).
Proof.
  intros Hempty <- Hv. rewrite normalize_with_text, Hv by exact Hempty.
  reflexivity.
Qed.

Ltac by_key H :=
  eapply normalize_with_key; [assumption|exact H|vm_compute; reflexivity].

(** C7.  Launch, spin and kickpoint: absent input and the empty text
    give nothing; a text whose trimmed, lower-cased form is a key of
    the table gives the canonical value, the slash forms and the hyphen
    forms alike (and, for the kickpoint, front, front-mid and rear);
    any other text gives nothing, and nothing is raised. *)
Theorem profile_normalizers_characterized :
  (normalize_launch VNone = Ok None /\ normalize_launch (VStr "") = Ok None
   /\ normalize_spin VNone = Ok None /\ normalize_spin (VStr "") = Ok None
   /\ normalize_kickpoint VNone = Ok None
   /\ normalize_kickpoint (VStr "") = Ok None)
  /\ (forall s v,
        (LAUNCH_MAP !! lower (strip s) = Some v ->
         normalize_launch (VStr s) = Ok (Some v)))
  /\ (forall s v,
        (SPIN_MAP !! lower (strip s) = Some v ->
         normalize_spin (VStr s) = Ok (Some v)))
  /\ (forall s v,
        (KICKPOINT_MAP !! lower (strip s) = Some v ->
         normalize_kickpoint (VStr s) = Ok (Some v)))
  /\ (forall s,
        (lower (strip s) = "low/mid" \/ lower (strip s) = "low-mid" ->
         normalize_launch (VStr s) = Ok (Some LAUNCH_LOW_MID)
         /\ normalize_spin (VStr s) = Ok (Some SPIN_LOW_MID)
         /\ normalize_kickpoint (VStr s) = Ok (Some KICK_LOW_MID))
        /\ (lower (strip s) = "mid/high" \/ lower (strip s) = "mid-high" ->
            normalize_launch (VStr s) = Ok (Some LAUNCH_MID_HIGH)
            /\ normalize_spin (VStr s) = Ok (Some SPIN_MID_HIGH)
            /\ normalize_kickpoint (VStr s) = Ok (Some KICK_MID_HIGH))
        /\ (lower (strip s) = "front" ->
            normalize_kickpoint (VStr s) = Ok (Some KICK_LOW))
        /\ (lower (strip s) = "front-mid" ->
            normalize_kickpoint (VStr s) = Ok (Some KICK_LOW_MID))
        /\ (lower (strip s) = "rear" ->
            normalize_kickpoint (VStr s) = Ok (Some KICK_HIGH)))
  /\ (forall s,
        (LAUNCH_MAP !! lower (strip s) = None ->
         normalize_launch (VStr s) = Ok None)
        /\ (SPIN_MAP !! lower (strip s) = None ->
            normalize_spin (VStr s) = Ok None)
        /\ (KICKPOINT_MAP !! lower (strip s) = None ->
            normalize_kickpoint (VStr s) = Ok None)).
Proof.
  assert (HL : LAUNCH_MAP !! "" = None) by (apply lookup_empty_key; reflexivity).
  assert (HS : SPIN_MAP !! "" = None) by (apply lookup_empty_key; reflexivity).
  assert (HK : KICKPOINT_MAP !! "" = None) by (apply lookup_empty_key; reflexivity).
  unfold normalize_launch, normalize_spin, normalize_kickpoint.
  split; [repeat split; reflexivity|].
  split; [intros s v H; rewrite normalize_with_text, H by exact HL; reflexivity|].
  split; [intros s v H; rewrite normalize_with_text, H by exact HS; reflexivity|].
  split; [intros s v H; rewrite normalize_with_text, H by exact HK; reflexivity|].
  split.
  - intros s. split; [|split; [|split; [|split]]].
    + intros [H|H]; repeat split; by_key H.
    + intros [H|H]; repeat split; by_key H.
    + intros H. by_key H.
    + intros H. by_key H.
    + intros H. by_key H.
  - intros s. rewrite !normalize_with_text by assumption.
    repeat split; intros ->; reflexivity.
Qed.

Example normalize_launch_slash :
  normalize_launch (VStr "Low/Mid") = Ok (Some LAUNCH_LOW_MID)
  /\ normalize_launch (VStr "Low-Mid") = Ok (Some LAUNCH_LOW_MID).
Proof. split; vm_compute; reflexivity. Qed.

Example normalize_kickpoint_front :
  normalize_kickpoint (VStr "Front") = Ok (Some KICK_LOW)
  /\ normalize_kickpoint (VStr "Rear") = Ok (Some KICK_HIGH).
Proof. split; vm_compute; reflexivity. Qed.

Example normalize_launch_unrecognized :
  normalize_launch (VStr "towering") = Ok None.
Proof. vm_compute. reflexivity. Qed.

(** A number where the text of a profile is expected is not text: the
    normalizer raises. *)
Example normalize_launch_number :
  normalize_launch (VFloat 12.5)
  = Raise (AttributeError "'float' object has no attribute 'strip'").
Proof. vm_compute. reflexivity. Qed.

End Profiles.

Section RowNormalizer.

Lemma bind_Ok_inv {A B : Type} (r : result A) (k : A -> result B) (b : B) :
  bind r k = Ok b -> exists a, r = Ok a /\ k a = Ok b.
Proof. destruct r; simpl; [eauto|discriminate]. Qed.

Lemma normalize_flex_raises (raw : string) (e : exn) :
  normalize_flex raw = Raise e ->
  e = ValueError ("Cannot normalize flex: '" +:+ raw +:+ "'").
Proof.
  unfold normalize_flex.
  destruct (FLEX_MAP !! clean_flex raw); [discriminate|].
  destruct (flex_search (clean_flex raw)); [discriminate|]. congruence.
Qed.

(** A missing weight fails the row.  When numeric coercion of the cell
    resolved from the weight aliases (weight, weight_grams, wt) gives
    nothing, because the cell is absent or cannot be read as a number,
    the row fails with a [ValueError] that names the cause, whatever the
    other cells hold: "Missing weight for <model>", unless the flex of
    the row had already been refused. *)
Lemma normalize_row_requires_weight (row : Row) (manufacturer : string)
    (club_type : ClubType) :
  safe_float (weight_cell row) = Ok None ->
  (normalize_row row manufacturer club_type
   = Raise (ValueError ("Missing weight for " +:+ model_text row))
   \/ normalize_row row manufacturer club_type
      = Raise (ValueError ("Cannot normalize flex: '" +:+ flex_text row +:+ "'")))
  /\ (forall f, normalize_flex (flex_text row) = Ok f ->
        normalize_row row manufacturer club_type
        = Raise (ValueError ("Missing weight for " +:+ model_text row))).
Proof.
  intros Hw. unfold weight_cell in Hw. unfold normalize_row.
  fold (flex_text row). fold (model_text row).
  destruct (normalize_flex (flex_text row)) as [f|e] eqn:Hf.
  - unfold bind at 1. rewrite Hw. unfold bind at 1. split; [left|intros _ _]; reflexivity.
  - apply normalize_flex_raises in Hf. subst e. split; [right; reflexivity|discriminate].
Qed.

Lemma normalize_row_requires_weight_witness :
  normalize_row row_unreadable_weight "KBS" IRON
  = Raise (ValueError "Missing weight for Tour").
Proof.
  apply (proj2 (normalize_row_requires_weight row_unreadable_weight "KBS" IRON
                  ltac:(vm_compute; reflexivity)) STIFF).
  vm_compute. reflexivity.
Defined.

Example normalize_row_absent_weight :
  normalize_row (row_of [("model", VStr "Tour"); ("flex", VStr "S")]) "KBS" IRON
  = Raise (ValueError "Missing weight for Tour").
Proof. vm_compute. reflexivity. Qed.

Example normalize_row_nan_weight :
  normalize_row
    (row_of [("model", VStr "Tour"); ("flex", VStr "S"); ("weight", VFloat nan);
             ("wt", VFloat 62)]) "KBS" IRON
  = Raise (ValueError "Missing weight for Tour").
Proof. vm_compute. reflexivity. Qed.

(** Text that [float] reads only after trimming what [str.strip] trims
    and [float] does not: the cell is unreadable, and the weight is
    missing. *)
Example normalize_row_separator_weight :
  normalize_row
    (row_of [("model", VStr "Tour"); ("flex", VStr "S");
             ("weight", VStr (String "028" "62"))]) "KBS" IRON
  = Raise (ValueError "Missing weight for Tour").
Proof. vm_compute. reflexivity. Qed.

(** C3.  The weight is not the one field whose absence fails the row:
    an empty flex cell does so too.  pandas reads an empty cell as
    [nan], which is true for [or], so the default "S" of the flex is
    not taken; the text of the flex is then "nan", which
    [normalize_flex] refuses.  Every row whose flex cell is [nan] fails
    with that error, whatever its other cells hold; the sample row
    does, although its weight is present and valid, while the same row
    without a flex cell takes the default and normalizes to Stiff. *)
Theorem normalize_row_empty_flex_cell :
  (forall row manufacturer club_type x,
     get row "flex" = VFloat x -> PrimFloat.is_nan x = true ->
     normalize_row row manufacturer club_type
     = Raise (ValueError "Cannot normalize flex: 'nan'"))
  /\ (safe_float (weight_cell row_empty_flex) = Ok (Some 120%float)
      /\ normalize_row row_empty_flex "KBS" IRON
         = Raise (ValueError "Cannot normalize flex: 'nan'"))
  /\ (exists spec,
        normalize_row row_absent_flex "KBS" IRON = Ok spec /\ flex spec = STIFF).
Proof.
  split; [|split; [split|eexists; split]]; [|vm_compute; reflexivity..].
  intros row manufacturer club_type x Hflex Hx.
  apply is_nan_eq in Hx. subst x.
  assert (Htext : flex_text row = "nan").
  { unfold flex_text. rewrite Hflex. reflexivity. }
  assert (Hnan : normalize_flex "nan"
                 = Raise (ValueError "Cannot normalize flex: 'nan'")).
  { vm_compute. reflexivity. }
  unfold normalize_row. fold (flex_text row). rewrite Htext, Hnan. reflexivity.
Qed.

(** What a constructed record holds, field by field. *)
Lemma validated_fields (a : ShaftSpecArgs) (spec : ShaftSpec) :
  validated a = Some spec ->
  by_value Flex_value Flex_members (a_flex a) = Some (flex spec)
  /\ validate_optional (validate_ge_lt 0 15) (a_torque_degrees a)
     = Some (torque_degrees spec)
  /\ validate_optional (validate_ge 0) (a_msrp_usd a) = Some (msrp_usd spec).
Proof.
  unfold validated.
  repeat match goal with
         | |- context [mbind _ ?o] =>
             tryif is_var o then fail else (generalize o; intro)
         end.
  repeat match goal with
         | o : option _ |- _ => destruct o; simpl; [|discriminate]
         end.
  intros [= <-]. simpl. auto.
Qed.

Lemma ShaftSpec_new_Ok (a : ShaftSpecArgs) (spec : ShaftSpec) :
  ShaftSpec_new a = Ok spec -> validated a = Some spec.
Proof. unfold ShaftSpec_new. destruct (validated a); congruence. Qed.

Lemma by_value_Flex_value (f : Flex) :
  by_value Flex_value Flex_members (Flex_value f) = Some f.
Proof. destruct f; reflexivity. Qed.

Lemma is_zero_number_falsy (v : pyval) :
  is_zero_number v = true -> truthy v = false.
Proof. destruct v; simpl; try discriminate; intros ->; reflexivity. Qed.

Lemma get_missing (row : Row) (key : string) :
  row !! key = None -> get row key = VNone.
Proof. unfold get. intros ->. reflexivity. Qed.

(** What a successful row holds in the three fields. *)
Lemma normalize_row_Ok (row : Row) (manufacturer : string)
    (club_type : ClubType) (spec : ShaftSpec) :
  normalize_row row manufacturer club_type = Ok spec ->
  normalize_flex (flex_text row) = Ok (flex spec)
  /\ (exists t, safe_float (get row "torque" or' get row "torque_degrees") = Ok t
        /\ validate_optional (validate_ge_lt 0 15) t = Some (torque_degrees spec))
  /\ (exists p,
        safe_float (get row "msrp" or' get row "msrp_usd" or' get row "price")
        = Ok p
        /\ validate_optional (validate_ge 0) p = Some (msrp_usd spec)).
Proof.
  unfold normalize_row. fold (flex_text row). intros H.
  apply bind_Ok_inv in H as (f & Hf & H).
  apply bind_Ok_inv in H as (w & Hw & H).
  destruct w as [w|]; [|discriminate].
  apply bind_Ok_inv in H as (len & Hlen & H).
  apply bind_Ok_inv in H as (tq & Htq & H).
  apply bind_Ok_inv in H as (la & Hla & H).
  apply bind_Ok_inv in H as (sp & Hsp & H).
  apply bind_Ok_inv in H as (kp & Hkp & H).
  apply bind_Ok_inv in H as (ts & Hts & H).
  apply bind_Ok_inv in H as (bd & Hbd & H).
  apply bind_Ok_inv in H as (td & Htd & H).
  apply bind_Ok_inv in H as (ms & Hms & H).
  apply ShaftSpec_new_Ok, validated_fields in H as (Hfl & Ht & Hm).
  cbn [a_flex a_torque_degrees a_msrp_usd] in *.
  rewrite by_value_Flex_value in Hfl. injection Hfl as <-.
  split; [exact Hf|]. split; eauto.
Qed.

(** C10, as amended.  Absence is decided by falsiness: a numeric zero
    in the [torque] column, the alias [torque_degrees] being absent
    from the row, leaves [torque_degrees] absent in the record, and a
    numeric zero in the [msrp] column, the aliases [msrp_usd] and
    [price] being absent, leaves [msrp_usd] absent; an empty text in
    the [flex] column, the aliases [stiffness] and [Flex] being absent,
    is replaced by "S", which normalizes to Stiff, so the flex does not
    fail the row.  A numeric zero in the last alias of a field
    ([torque_degrees], [price]), the aliases before it being falsy, is
    the value of the chain: the record holds 0.0. *)
Theorem falsy_cells_read_as_absent (row : Row) (manufacturer : string)
    (club_type : ClubType) :
  (row !! "flex" = Some (VStr "") -> row !! "stiffness" = None ->
   row !! "Flex" = None ->
   flex_text row = "S" /\ normalize_flex (flex_text row) = Ok STIFF)
  /\ (forall spec,
        normalize_row row manufacturer club_type = Ok spec ->
        (is_zero_number (get row "torque") = true ->
         row !! "torque_degrees" = None -> torque_degrees spec = None)
        /\ (is_zero_number (get row "msrp") = true ->
            row !! "msrp_usd" = None -> row !! "price" = None ->
            msrp_usd spec = None)
        /\ (row !! "flex" = Some (VStr "") -> row !! "stiffness" = None ->
            row !! "Flex" = None -> flex spec = STIFF)
        /\ (get row "torque_degrees" = VInt 0
            \/ get row "torque_degrees" = VFloat 0 ->
            truthy (get row "torque") = false ->
            torque_degrees spec = Some 0%float)
        /\ (get row "price" = VInt 0 \/ get row "price" = VFloat 0 ->
            truthy (get row "msrp") = false ->
            truthy (get row "msrp_usd") = false ->
            msrp_usd spec = Some 0%float)).
Proof.
  assert (Hflex : row !! "flex" = Some (VStr "") -> row !! "stiffness" = None ->
                  row !! "Flex" = None ->
                  flex_text row = "S" /\ normalize_flex (flex_text row) = Ok STIFF).
  { intros H1 H2 H3. unfold flex_text, get. rewrite H1, H2, H3.
    split; vm_compute; reflexivity. }
  split; [exact Hflex|].
  intros spec H. apply normalize_row_Ok in H as (Hf & (t & Ht & Hvt) & (p & Hp & Hvp)).
  split; [|split; [|split; [|split]]].
  - intros Hz Hd. apply is_zero_number_falsy in Hz.
    unfold py_or in Ht. rewrite Hz, (get_missing _ _ Hd) in Ht.
    injection Ht as <-. injection Hvt as <-. reflexivity.
  - intros Hz H1 H2. apply is_zero_number_falsy in Hz.
    unfold py_or in Hp. rewrite Hz, (get_missing _ _ H1), (get_missing _ _ H2) in Hp.
    simpl in Hp. injection Hp as <-. injection Hvp as <-. reflexivity.
  - intros H1 H2 H3. destruct (Hflex H1 H2 H3) as [_ Hs].
    rewrite Hs in Hf. congruence.
  - intros Hz Hfalsy. unfold py_or in Ht. rewrite Hfalsy in Ht.
    destruct Hz as [Hz|Hz]; rewrite Hz in Ht; vm_compute in Ht;
      injection Ht as <-; vm_compute in Hvt; injection Hvt as Hvt;
      symmetry; exact Hvt.
  - intros Hz Hfalsy1 Hfalsy2. unfold py_or in Hp.
    rewrite Hfalsy1, Hfalsy2 in Hp.
    destruct Hz as [Hz|Hz]; rewrite Hz in Hp; vm_compute in Hp;
      injection Hp as <-; vm_compute in Hvp; injection Hvp as Hvp;
      symmetry; exact Hvp.
Qed.

Lemma falsy_cells_read_as_absent_witness :
  exists spec,
    normalize_row row_zero_torque "KBS" IRON = Ok spec
    /\ torque_degrees spec = None /\ msrp_usd spec = None /\ flex spec = STIFF.
Proof.
  eexists. split; [vm_compute; reflexivity|].
  pose proof (proj2 (falsy_cells_read_as_absent row_zero_torque "KBS" IRON) _
                ltac:(vm_compute; reflexivity)) as (Ht & Hm & Hf & _).
  split; [|split].
  - apply Ht; vm_compute; reflexivity.
  - apply Hm; vm_compute; reflexivity.
  - apply Hf; vm_compute; reflexivity.
Defined.

(** C10, counterexample.  A numeric zero in the [price] column, the
    last alias of the price: the record holds the price 0.0, not an
    absent one.  And a zero torque next to a [torque_degrees] cell: the
    record holds the latter. *)
Lemma zero_in_last_alias_is_kept :
  (exists spec,
     normalize_row
       (row_of [("model", VStr "Tour"); ("flex", VStr "S");
                ("weight", VFloat 120); ("price", VInt 0)]) "KBS" IRON
     = Ok spec
     /\ msrp_usd spec = Some 0%float)
  /\ (exists spec,
        normalize_row
          (row_of [("model", VStr "Tour"); ("flex", VStr "S");
                   ("weight", VFloat 120); ("torque", VInt 0);
                   ("torque_degrees", VFloat 3.5)]) "KBS" IRON
        = Ok spec
        /\ torque_degrees spec = Some 3.5%float).
Proof. split; eexists; split; vm_compute; reflexivity. Qed.

End RowNormalizer.

Section BatchNormalizer.

Lemma normalize_rows_all_caught (df : list (Z * Row)) (manufacturer : string)
    (club_type : ClubType) (specs : list ShaftSpec) (errors : list (Z * exn)) :
  all_caught df manufacturer club_type ->
  normalize_rows df manufacturer club_type specs errors
  = Ok ((specs ++ successes df manufacturer club_type)%list,
        (errors ++ failures df manufacturer club_type)%list).
Proof.
  unfold all_caught. intros H. revert specs errors.
  induction H as [|[idx row] df Hrow Hdf IH]; intros specs errors.
  - cbn [normalize_rows successes failures flat_map].
    rewrite !app_nil_r. reflexivity.
  - cbn [normalize_rows successes failures flat_map].
    destruct (normalize_row row manufacturer club_type) as [spec|e] eqn:E.
    + rewrite IH. cbn [app]. rewrite <- app_assoc. reflexivity.
    + rewrite (Hrow e eq_refl), IH. cbn [app]. rewrite <- app_assoc. reflexivity.
Qed.

Lemma normalize_rows_uncaught (before after : list (Z * Row)) (idx : Z) (row : Row)
    (manufacturer : string) (club_type : ClubType) (e : exn)
    (specs : list ShaftSpec) (errors : list (Z * exn)) :
  all_caught before manufacturer club_type ->
  normalize_row row manufacturer club_type = Raise e ->
  is_ValueError e = false ->
  normalize_rows ((before ++ (idx, row) :: after)%list) manufacturer club_type specs errors
  = Raise e.
Proof.
  unfold all_caught. intros H Hrow He. revert specs errors.
  induction H as [|[i r] df Hr Hdf IH]; intros specs errors.
  - cbn [normalize_rows app]. rewrite Hrow, He. reflexivity.
  - cbn [normalize_rows app].
    destruct (normalize_row r manufacturer club_type) as [spec|e'] eqn:E.
    + apply IH.
    + rewrite (Hr e' eq_refl). apply IH.
Qed.

(** The rows are processed one by one, in order.  When
    every failing row fails with an error of the [ValueError] class
    (missing weight, unparseable flex, validation failure of the
    schema), each such row is recorded with its index and its reason
    and left out, and the value returned is exactly the list of the
    records of the rows that succeed, in row order.  A row that raises
    anything else, the rows before it being as above, ends the batch:
    the exception leaves the batch normalizer and no list is
    returned. *)
Lemma normalize_dataframe_characterized (df : list (Z * Row))
    (manufacturer : string) (club_type : ClubType) :
  (all_caught df manufacturer club_type ->
   normalize_dataframe_state df manufacturer club_type
   = Ok (successes df manufacturer club_type, failures df manufacturer club_type)
   /\ normalize_dataframe df manufacturer club_type
      = Ok (successes df manufacturer club_type))
  /\ (forall before idx row after e,
        df = (before ++ (idx, row) :: after)%list ->
        all_caught before manufacturer club_type ->
        normalize_row row manufacturer club_type = Raise e ->
        is_ValueError e = false ->
        normalize_dataframe df manufacturer club_type = Raise e).
Proof.
  unfold normalize_dataframe, normalize_dataframe_state. split.
  - intros H. rewrite (normalize_rows_all_caught _ _ _ _ _ H). auto.
  - intros before idx row after e -> Hb Hrow He.
    rewrite (normalize_rows_uncaught _ _ _ _ _ _ _ _ _ Hb Hrow He). reflexivity.
Qed.

Lemma normalize_dataframe_characterized_witness :
  normalize_dataframe_state table_caught "KBS" IRON
  = Ok (successes table_caught "KBS" IRON, failures table_caught "KBS" IRON)
  /\ normalize_dataframe table_caught "KBS" IRON
     = Ok (successes table_caught "KBS" IRON).
Proof.
  apply (proj1 (normalize_dataframe_characterized table_caught "KBS" IRON)).
  unfold all_caught, table_caught.
  repeat (apply Forall_cons; split;
          [intros e; vm_compute; intros [= <-]; reflexivity
           || (intros e; vm_compute; discriminate)|]).
  apply Forall_nil. exact I.
Defined.

Example failures_table_caught :
  failures table_caught "KBS" IRON
  = [(1, ValueError "Missing weight for C-Taper");
     (2, ValueError "Cannot normalize flex: 'banana'");
     (3, ValidationError ["weight_grams"])]
  /\ map model (successes table_caught "KBS" IRON) = ["Tour"; "Tour"].
Proof. split; vm_compute; reflexivity. Qed.

(** C4.  A failing row can abort the batch.  In a table whose second
    row holds a number in the [launch] column, the first row
    normalizes and the second raises [AttributeError], which the
    handler of the loop, written for [ValueError] and [KeyError], does
    not catch: the batch normalizer raises it instead of recording the
    row and returning the record of the first.  The same number as
    text is read as no launch profile, and the batch returns both
    records. *)
Theorem normalize_dataframe_aborts :
  (exists spec, normalize_row row_good "KBS" IRON = Ok spec)
  /\ normalize_row row_numeric_launch "KBS" IRON
     = Raise (AttributeError "'float' object has no attribute 'strip'")
  /\ normalize_dataframe [(0, row_good); (1, row_numeric_launch)] "KBS" IRON
     = Raise (AttributeError "'float' object has no attribute 'strip'")
  /\ (exists first second,
        normalize_dataframe
          [(0, row_good); (1, <["launch" := VStr "12.5"]> row_numeric_launch)]
          "KBS" IRON
        = Ok [first; second]
        /\ launch second = None).
Proof.
  split; [eexists; vm_compute; reflexivity|].
  split; [vm_compute; reflexivity|]. split; [vm_compute; reflexivity|].
  eexists _, _. split; vm_compute; reflexivity.
Qed.

(** The same with a [tip] column that holds the tip diameter: the
    column is an alias of the tip stiffness. *)
Example normalize_dataframe_tip_diameter :
  normalize_dataframe
    [(0, row_good);
     (1, row_of [("model", VStr "Tour"); ("flex", VStr "X");
                 ("weight", VFloat 130); ("tip", VFloat 0.375)])] "KBS" IRON
  = Raise (AttributeError "'float' object has no attribute 'strip'").
Proof. vm_compute. reflexivity. Qed.

End BatchNormalizer.

Section Deduplication.

Lemma dedup_loop_acc (l : list ShaftSpec) (seen : gset string)
    (acc : list ShaftSpec) :
  dedup_loop l seen acc = (acc ++ dedup_loop l seen [])%list.
Proof.
  revert seen acc. induction l as [|x l IH]; intros seen acc; simpl.
  - rewrite app_nil_r. reflexivity.
  - destruct (decide (display_name x ∈ seen)); [apply IH|].
    rewrite (IH _ (acc ++ [x])%list), (IH _ [x]), <- app_assoc. reflexivity.
Qed.

Lemma dedup_loop_cons (x : ShaftSpec) (l : list ShaftSpec) (seen : gset string) :
  dedup_loop (x :: l) seen []
  = if decide (display_name x ∈ seen) then dedup_loop l seen []
    else x :: dedup_loop l ({[display_name x]} ∪ seen) [].
Proof.
  simpl. destruct (decide (display_name x ∈ seen)); [reflexivity|].
  rewrite dedup_loop_acc. reflexivity.
Qed.

Lemma dedup_loop_sublist (l : list ShaftSpec) (seen : gset string) :
  dedup_loop l seen [] `sublist_of` l.
Proof.
  revert seen. induction l as [|x l IH]; intros seen.
  - constructor.
  - rewrite dedup_loop_cons. destruct (decide (display_name x ∈ seen)).
    + apply sublist_cons, IH.
    + apply sublist_skip, IH.
Qed.

(** A record that is kept stands at a position before which no record
    has its name, and its name had not been seen. *)
Lemma dedup_loop_kept_first (l : list ShaftSpec) (seen : gset string)
    (x : ShaftSpec) :
  x ∈ dedup_loop l seen [] ->
  (display_name x ∉ seen)
  /\ exists i, l !! i = Some x
       /\ forall j e, (j < i)%nat -> l !! j = Some e ->
                      display_name e <> display_name x.
Proof.
  revert seen. induction l as [|y l IH]; intros seen.
  - simpl. intros H. apply elem_of_nil in H. contradiction.
  - rewrite dedup_loop_cons. destruct (decide (display_name y ∈ seen)) as [Hy|Hy].
    + intros H. destruct (IH _ H) as (Hx & i & Hi & Hfirst).
      split; [exact Hx|]. exists (S i). split; [exact Hi|].
      intros [|j] e Hj He.
      * injection He as <-. intros Heq. rewrite Heq in Hy. contradiction.
      * apply (Hfirst j e); [lia|exact He].
    + intros H. apply elem_of_cons in H as [-> | H].
      * split; [exact Hy|]. exists O. split; [reflexivity|]. intros j e Hj. lia.
      * destruct (IH _ H) as (Hx & i & Hi & Hfirst).
        split.
        { intros Hin. apply Hx, elem_of_union. right. exact Hin. }
        exists (S i). split; [exact Hi|].
        intros [|j] e Hj He.
        -- injection He as <-. intros Heq.
           apply Hx, elem_of_union. left. apply elem_of_singleton.
           symmetry. exact Heq.
        -- apply (Hfirst j e); [lia|exact He].
Qed.

Lemma dedup_loop_NoDup (l : list ShaftSpec) (seen : gset string) :
  NoDup (display_name <$> dedup_loop l seen []).
Proof.
  revert seen. induction l as [|y l IH]; intros seen.
  - constructor.
  - rewrite dedup_loop_cons. destruct (decide (display_name y ∈ seen)); [apply IH|].
    rewrite fmap_cons. apply NoDup_cons. split; [|apply IH].
    intros Hin. apply list_elem_of_fmap in Hin as (x & Hname & Hx).
    apply dedup_loop_kept_first in Hx as [Hx _].
    apply Hx, elem_of_union. left. apply elem_of_singleton. symmetry. exact Hname.
Qed.

(** The first record with a name that had not been seen is kept. *)
Lemma dedup_loop_keeps_first (l : list ShaftSpec) (seen : gset string)
    (i : nat) (x : ShaftSpec) :
  l !! i = Some x ->
  display_name x ∉ seen ->
  (forall j e, (j < i)%nat -> l !! j = Some e -> display_name e <> display_name x) ->
  x ∈ dedup_loop l seen [].
Proof.
  revert seen i. induction l as [|y l IH]; intros seen i Hi Hx Hfirst.
  - discriminate.
  - rewrite dedup_loop_cons. destruct i as [|i].
    + injection Hi as ->. destruct (decide (display_name x ∈ seen)); [contradiction|].
      apply list_elem_of_here.
    + assert (Hy : display_name y <> display_name x).
      { apply (Hfirst O y); [lia|reflexivity]. }
      assert (Hrest : forall j e, (j < i)%nat -> l !! j = Some e ->
                                  display_name e <> display_name x).
      { intros j e Hj He. apply (Hfirst (S j) e); [lia|exact He]. }
      destruct (decide (display_name y ∈ seen)).
      * apply (IH seen i); assumption.
      * apply list_elem_of_further, (IH _ i); [exact Hi| |exact Hrest].
        intros Hin. apply elem_of_union in Hin as [Hin|Hin]; [|contradiction].
        apply elem_of_singleton in Hin. congruence.
Qed.

(** C5.  Deduplication keeps, for each display name, the first record
    that carries it, in processing order: the result has no two records
    of the same name; it is a subsequence of the input (the order of the
    records that remain is their processing order); the records that
    remain are exactly those before which no record has the same name:
    each such record remains, and each record that remains is one. *)
Theorem deduplicate_first_wins (all_specs : list ShaftSpec) :
  NoDup (display_name <$> deduplicate all_specs)
  /\ deduplicate all_specs `sublist_of` all_specs
  /\ (forall i spec,
        all_specs !! i = Some spec ->
        (forall j earlier, (j < i)%nat -> all_specs !! j = Some earlier ->
                           display_name earlier <> display_name spec) ->
        spec ∈ deduplicate all_specs)
  /\ (forall spec,
        spec ∈ deduplicate all_specs ->
        exists i, all_specs !! i = Some spec
          /\ forall j earlier, (j < i)%nat -> all_specs !! j = Some earlier ->
                               display_name earlier <> display_name spec).
Proof.
  unfold deduplicate. split; [apply dedup_loop_NoDup|].
  split; [apply dedup_loop_sublist|]. split.
  - intros i spec Hi Hfirst. apply (dedup_loop_keeps_first _ _ i);
      [exact Hi|apply not_elem_of_empty|exact Hfirst].
  - intros spec H. apply dedup_loop_kept_first in H as [_ H]. exact H.
Qed.

(** Two records named "KBS Tour Stiff": the first, of 120 g, is kept. *)
Example deduplicate_example :
  deduplicate [spec_of "Tour" STIFF 120; spec_of "Tour" X_STIFF 130;
               spec_of "Tour" STIFF 125; spec_of "C-Taper" STIFF 120;
               spec_of "Tour" X_STIFF 130]
  = [spec_of "Tour" STIFF 120; spec_of "Tour" X_STIFF 130;
     spec_of "C-Taper" STIFF 120].
Proof. vm_compute. reflexivity. Qed.

End Deduplication.

Section Store.

Lemma by_value_ClubType_value (c : ClubType) :
  by_value ClubType_value ClubType_members (ClubType_value c) = Some c.
Proof. destruct c; reflexivity. Qed.

Lemma by_value_LaunchProfile_value (p : LaunchProfile) :
  by_value LaunchProfile_value LaunchProfile_members (LaunchProfile_value p)
  = Some p.
Proof. destruct p; reflexivity. Qed.

Lemma by_value_SpinProfile_value (p : SpinProfile) :
  by_value SpinProfile_value SpinProfile_members (SpinProfile_value p) = Some p.
Proof. destruct p; reflexivity. Qed.

Lemma by_value_Kickpoint_value (p : Kickpoint) :
  by_value Kickpoint_value Kickpoint_members (Kickpoint_value p) = Some p.
Proof. destruct p; reflexivity. Qed.

Lemma by_value_TipStiffness_value (t : TipStiffness) :
  by_value TipStiffness_value TipStiffness_members (TipStiffness_value t)
  = Some t.
Proof. destruct t; reflexivity. Qed.

Lemma validate_optional_value {E : Type} (value : E -> string)
    (members : list E) (o : option E) :
  (forall e, by_value value members (value e) = Some e) ->
  validate_optional (by_value value members) (value <$> o) = Some o.
Proof. intros H. destruct o as [e|]; simpl; [rewrite H|]; reflexivity. Qed.

Lemma validate_optional_when {A : Type} (p : A -> bool) (f : A -> option A)
    (o : option A) :
  (forall a, p a = true -> f a = Some a) ->
  when_present p o = true -> validate_optional f o = Some o.
Proof.
  intros H. destruct o as [a|]; simpl; [|reflexivity].
  intros Hp. rewrite (H a Hp). reflexivity.
Qed.

(** A valid record is constructed again, as it is, from its own dump. *)
Lemma ShaftSpec_new_model_dump (spec : ShaftSpec) :
  valid_spec spec = true -> ShaftSpec_new (model_dump spec) = Ok spec.
Proof.
  unfold valid_spec. rewrite !andb_true_iff.
  intros [[[[[[[[[Hm Hms] Hmo] Hmos] Hw] Hl] Ht] Hb] Htd] Hp].
  apply String.eqb_eq in Hms, Hmos.
  unfold ShaftSpec_new, validated, model_dump.
  cbn [a_manufacturer a_model a_generation a_club_type a_flex a_weight_grams
       a_length_inches a_torque_degrees a_launch a_spin a_butt_diameter_inches
       a_tip_diameter_inches a_tip_stiff a_kickpoint a_material a_msrp_usd].
  assert (Hname : forall s, nonempty s = true -> strip s = s ->
                            validate_name s = Some s).
  { intros s Hs Hst. unfold validate_name. destruct s; [discriminate|].
    rewrite Hst. reflexivity. }
  rewrite (Hname _ Hm Hms), (Hname _ Hmo Hmos).
  assert (Hg : validate_optional_text
                 match generation spec with Some g => VStr g | None => VNone end
               = Some (generation spec)).
  { destruct (generation spec); reflexivity. }
  rewrite Hg, by_value_ClubType_value, by_value_Flex_value.
  assert (Hwv : validate_gt_lt 0 300 (weight_grams spec)
                = Some (weight_grams spec)).
  { apply validate_gt_lt_within, andb_true_iff, Hw. }
  rewrite Hwv.
  rewrite (validate_optional_when _ (validate_gt_lt 0 60) _
             ltac:(intros a Ha; apply validate_gt_lt_within, Ha) Hl).
  rewrite (validate_optional_when _ (validate_ge_lt 0 15) _
             ltac:(intros a Ha; apply validate_ge_lt_within, Ha) Ht).
  rewrite (validate_optional_value _ _ _ by_value_LaunchProfile_value).
  rewrite (validate_optional_value _ _ _ by_value_SpinProfile_value).
  rewrite (validate_optional_when _ validate_any _
             ltac:(intros a _; reflexivity) Hb).
  rewrite (validate_optional_when _ validate_any _
             ltac:(intros a _; reflexivity) Htd).
  rewrite (validate_optional_value _ _ _ by_value_TipStiffness_value).
  rewrite (validate_optional_value _ _ _ by_value_Kickpoint_value).
  rewrite (validate_optional_when _ (validate_ge 0) _
             ltac:(intros a Ha; apply andb_true_iff in Ha as [Ha _];
                   apply validate_ge_within, Ha) Hp).
  destruct spec; reflexivity.
Qed.

(** C6.  Saving a list of valid records ([valid_spec]) and loading the
    store back gives the same records, field for field, in the same
    order. *)
Theorem store_round_trip (specs : list ShaftSpec) :
  Forall (fun spec => valid_spec spec = true) specs ->
  load_database (save_database specs) = Ok specs.
Proof.
  unfold load_database, save_database.
  induction 1 as [|spec specs Hspec Hspecs IH]; [reflexivity|].
  cbn [map construct_all]. rewrite (ShaftSpec_new_model_dump _ Hspec).
  unfold bind at 1. rewrite IH. reflexivity.
Qed.

Lemma store_round_trip_witness :
  load_database (save_database [ventus_blue; spec_of "Tour" STIFF 120])
  = Ok [ventus_blue; spec_of "Tour" STIFF 120].
Proof.
  apply (store_round_trip [ventus_blue; spec_of "Tour" STIFF 120]).
  repeat (apply Forall_cons; split; [vm_compute; reflexivity|]).
  apply Forall_nil. exact I.
Defined.

(** No store file: the empty collection. *)
Example load_database_absent : load_database None = Ok [].
Proof. reflexivity. Qed.

(** *** Trimming twice is trimming once *)

Lemma rstrip_idempotent (s : string) : rstrip (rstrip s) = rstrip s.
Proof.
  induction s as [|c s IH]; [reflexivity|]. simpl.
  destruct (rstrip s) as [|b r] eqn:E.
  - destruct (is_space c) eqn:Hc; [reflexivity|]. simpl. rewrite Hc. reflexivity.
  - change (rstrip (String c (String b r)) = String c (String b r)).
    change (rstrip (String c (String b r)))
      with (match rstrip (String b r) with
            | EmptyString => if is_space c then EmptyString else String c EmptyString
            | r' => String c r'
            end).
    rewrite IH. reflexivity.
Qed.

Lemma lstrip_head (s : string) :
  lstrip s = "" \/ exists c t, lstrip s = String c t /\ is_space c = false.
Proof.
  induction s as [|c s IH]; [left; reflexivity|]. simpl.
  destruct (is_space c) eqn:Hc; [exact IH|]. right. eauto.
Qed.

Lemma strip_idempotent (s : string) : strip (strip s) = strip s.
Proof.
  unfold strip. destruct (lstrip_head s) as [-> | (c & t & -> & Hc)]; [reflexivity|].
  assert (Hhead : exists r, rstrip (String c t) = String c r).
  { simpl. destruct (rstrip t); [rewrite Hc|]; eauto. }
  destruct Hhead as [r Hr]. rewrite Hr.
  change (lstrip (String c r)) with (if is_space c then lstrip r else String c r).
  rewrite Hc, <- Hr. apply rstrip_idempotent.
Qed.

End Store.

Section ColumnNames.

Lemma lower_char_idempotent (c : ascii) : lower_char (lower_char c) = lower_char c.
Proof. destruct c as [[] [] [] [] [] [] [] []]; reflexivity. Qed.

Lemma lower_idempotent (s : string) : lower (lower s) = lower s.
Proof.
  induction s as [|c s IH]; [reflexivity|].
  cbn [lower]. rewrite lower_char_idempotent, IH. reflexivity.
Qed.

Lemma lstrip_lower (s : string) : lstrip (lower s) = lower (lstrip s).
Proof.
  induction s as [|c s IH]; [reflexivity|].
  cbn [lower lstrip]. rewrite is_space_lower_char.
  destruct (is_space c); [exact IH|reflexivity].
Qed.

Lemma rstrip_lower (s : string) : rstrip (lower s) = lower (rstrip s).
Proof.
  induction s as [|c s IH]; [reflexivity|].
  cbn [lower rstrip]. rewrite IH, is_space_lower_char.
  destruct (rstrip s); cbn [lower]; [destruct (is_space c)|]; reflexivity.
Qed.

Lemma strip_lower (s : string) : strip (lower s) = lower (strip s).
Proof. unfold strip. rewrite lstrip_lower, rstrip_lower. reflexivity. Qed.

(** A text is left as it is by [lstrip] when it does not start with
    white space, and by [rstrip] when it does not end with it. *)
Lemma lstrip_fixed (c : ascii) (s : string) :
  is_space c = false -> lstrip (String c s) = String c s.
Proof. intros H. cbn [lstrip]. rewrite H. reflexivity. Qed.

Lemma rstrip_fixed (s : string) :
  (forall c, last_char s = Some c -> is_space c = false) -> rstrip s = s.
Proof.
  induction s as [|c s IH]; [reflexivity|]. intros H. cbn [rstrip].
  destruct s as [|d s].
  - cbn [rstrip]. rewrite (H c eq_refl). reflexivity.
  - rewrite IH; [reflexivity|]. intros x Hx. apply H. exact Hx.
Qed.

Lemma rstrip_fixed_inv (s : string) (c : ascii) :
  rstrip s = s -> last_char s = Some c -> is_space c = false.
Proof. intros H Hc. rewrite <- H in Hc. exact (last_char_rstrip _ _ Hc). Qed.

Lemma rstrip_head (c d : ascii) (s t : string) :
  rstrip (String c s) = String d t -> d = c.
Proof.
  cbn [rstrip]. destruct (rstrip s); [destruct (is_space c)|]; congruence.
Qed.

(** The two ends of a stripped text. *)
Lemma strip_ends (s : string) :
  strip s = ""
  \/ (exists c t, strip s = String c t /\ is_space c = false)
     /\ (forall c, last_char (strip s) = Some c -> is_space c = false).
Proof.
  destruct (strip s) as [|c t] eqn:E; [left; reflexivity|right]. split.
  - exists c, t. split; [reflexivity|]. unfold strip in E.
    destruct (lstrip_head s) as [H|(c' & t' & H & Hc)]; rewrite H in E.
    + discriminate E.
    + apply rstrip_head in E. subst c. exact Hc.
  - intros x Hx. rewrite <- E in Hx. unfold strip in Hx.
    exact (last_char_rstrip _ _ Hx).
Qed.

Lemma strip_fixed (s : string) :
  (s = "" \/ exists c t, s = String c t /\ is_space c = false) ->
  (forall c, last_char s = Some c -> is_space c = false) ->
  strip s = s.
Proof.
  intros Hhead Hlast. unfold strip.
  destruct Hhead as [->|(c & t & -> & Hc)]; [reflexivity|].
  rewrite (lstrip_fixed _ _ Hc). apply rstrip_fixed, Hlast.
Qed.

Lemma last_char_spaces_to_underscores (s : string) :
  last_char (spaces_to_underscores s)
  = option_map (fun c => if Ascii.eqb c " " then "_"%char else c) (last_char s).
Proof.
  induction s as [|c s IH]; [reflexivity|].
  cbn [spaces_to_underscores]. destruct s as [|d s]; [reflexivity|].
  cbn [spaces_to_underscores last_char] in *. exact IH.
Qed.

Lemma is_space_underscored (c : ascii) :
  is_space c = false ->
  is_space (if Ascii.eqb c " " then "_"%char else c) = false.
Proof. intros H. destruct (Ascii.eqb c " "); [reflexivity|exact H]. Qed.

Lemma strip_spaces_to_underscores (s : string) :
  strip s = s -> strip (spaces_to_underscores s) = spaces_to_underscores s.
Proof.
  intros H. destruct (strip_ends s) as [E|[(c & t & E & Hc) Hlast]];
    rewrite H in *.
  - subst s. reflexivity.
  - apply strip_fixed.
    + right. subst s. cbn [spaces_to_underscores]. eexists _, _.
      split; [reflexivity|]. apply is_space_underscored, Hc.
    + intros x Hx. rewrite last_char_spaces_to_underscores in Hx.
      destruct (last_char s) as [d|]; [|discriminate].
      injection Hx as <-. apply is_space_underscored, Hlast. reflexivity.
Qed.

Lemma lower_spaces_to_underscores (s : string) :
  lower (spaces_to_underscores (lower s)) = spaces_to_underscores (lower s).
Proof.
  induction s as [|c s IH]; [reflexivity|].
  cbn [lower spaces_to_underscores]. rewrite IH. f_equal.
  destruct (Ascii.eqb (lower_char c) " "); [reflexivity|apply lower_char_idempotent].
Qed.

Lemma spaces_to_underscores_lower (s : string) :
  spaces_to_underscores (lower s) = lower (spaces_to_underscores s).
Proof.
  induction s as [|c s IH]; [reflexivity|].
  cbn [lower spaces_to_underscores]. rewrite IH. f_equal.
  destruct c as [[] [] [] [] [] [] [] []]; reflexivity.
Qed.

Lemma spaces_to_underscores_idempotent (s : string) :
  spaces_to_underscores (spaces_to_underscores s) = spaces_to_underscores s.
Proof.
  induction s as [|c s IH]; [reflexivity|].
  cbn [spaces_to_underscores]. rewrite IH. f_equal.
  destruct (Ascii.eqb c " ") eqn:E; [reflexivity|rewrite E; reflexivity].
Qed.

Lemma spaces_to_underscores_no_space (s : string) :
  Forall (fun c => c <> " "%char) (list_ascii_of_string (spaces_to_underscores s)).
Proof.
  induction s as [|c s IH]; [constructor|].
  cbn [spaces_to_underscores list_ascii_of_string]. constructor; [|exact IH].
  destruct (Ascii.eqb c " ") eqn:E; [discriminate|].
  intros ->. discriminate E.
Qed.

(** X1.  The name [load_raw_csv] gives a column does not depend on the
    case of the header nor on the white space around it, holds no space,
    and is a name that the function leaves as it is: standardizing twice
    is standardizing once. *)
Theorem standardize_column_canonical (name : string) :
  standardize_column (standardize_column name) = standardize_column name
  /\ standardize_column (lower name) = standardize_column name
  /\ standardize_column (strip name) = standardize_column name
  /\ lower (standardize_column name) = standardize_column name
  /\ strip (standardize_column name) = standardize_column name
  /\ Forall (fun c => c <> " "%char)
       (list_ascii_of_string (standardize_column name)).
Proof.
  unfold standardize_column.
  assert (Hstrip : strip (spaces_to_underscores (lower (strip name)))
                   = spaces_to_underscores (lower (strip name))).
  { apply strip_spaces_to_underscores.
    rewrite strip_lower, strip_idempotent. reflexivity. }
  split; [|split; [|split; [|split; [|split]]]].
  - rewrite Hstrip, lower_spaces_to_underscores.
    apply spaces_to_underscores_idempotent.
  - rewrite strip_lower, lower_idempotent. reflexivity.
  - rewrite strip_idempotent. reflexivity.
  - apply lower_spaces_to_underscores.
  - exact Hstrip.
  - apply spaces_to_underscores_no_space.
Qed.

Example standardize_column_examples :
  standardize_column " Club Type " = "club_type"
  /\ standardize_column "WEIGHT" = "weight"
  /\ standardize_column "Tip  Dia" = "tip__dia".
Proof. repeat split; reflexivity. Qed.

End ColumnNames.

Section Constructor.

Lemma by_value_Some {E : Type} (value : E -> string) (members : list E)
    (v : string) (e : E) :
  by_value value members v = Some e -> value e = v.
Proof.
  unfold by_value. intros H. apply find_some in H as [_ H].
  apply String.eqb_eq, H.
Qed.

Lemma validate_optional_Some {A B : Type} (f : A -> option B) (o : option A)
    (r : option B) :
  validate_optional f o = Some r ->
  match o, r with
  | None, None => True
  | Some a, Some b => f a = Some b
  | _, _ => False
  end.
Proof.
  destruct o as [a|]; cbn [validate_optional].
  - destruct (f a); intros [= <-]; reflexivity.
  - intros [= <-]. exact I.
Qed.

Lemma validate_optional_range (p : float -> bool) (f : float -> option float)
    (o r : option float) :
  (forall x y, f x = Some y -> y = x /\ p x = true) ->
  validate_optional f o = Some r -> r = o /\ when_present p r = true.
Proof.
  intros Hf H. apply validate_optional_Some in H.
  destruct o as [x|], r as [y|]; try contradiction; [|split; reflexivity].
  apply Hf in H as [-> H]. split; [reflexivity|exact H].
Qed.

Lemma validate_optional_by_value {E : Type} (value : E -> string)
    (members : list E) (o : option string) (r : option E) :
  validate_optional (by_value value members) o = Some r -> value <$> r = o.
Proof.
  intros H. apply validate_optional_Some in H.
  destruct o as [x|], r as [y|]; try contradiction; [|reflexivity].
  apply by_value_Some in H. cbn. rewrite H. reflexivity.
Qed.

(** What the fields of a constructed record are, from the arguments. *)
Lemma validated_inv (a : ShaftSpecArgs) (spec : ShaftSpec) :
  validated a = Some spec ->
  (a_manufacturer a <> "" /\ manufacturer spec = strip (a_manufacturer a))
  /\ (a_model a <> "" /\ model spec = strip (a_model a))
  /\ validate_optional_text (a_generation a) = Some (generation spec)
  /\ ClubType_value (club_type spec) = a_club_type a
  /\ Flex_value (flex spec) = a_flex a
  /\ (weight_grams spec = a_weight_grams a
      /\ nan_or (fun w => PrimFloat.ltb 0 w && PrimFloat.ltb w 300)
           (weight_grams spec) = true)
  /\ (length_inches spec = a_length_inches a
      /\ when_present (nan_or (fun l => PrimFloat.ltb 0 l && PrimFloat.ltb l 60))
           (length_inches spec) = true)
  /\ (torque_degrees spec = a_torque_degrees a
      /\ when_present (nan_or (fun t => PrimFloat.leb 0 t && PrimFloat.ltb t 15))
           (torque_degrees spec) = true)
  /\ LaunchProfile_value <$> launch spec = a_launch a
  /\ SpinProfile_value <$> spin spec = a_spin a
  /\ butt_diameter_inches spec = a_butt_diameter_inches a
  /\ tip_diameter_inches spec = a_tip_diameter_inches a
  /\ TipStiffness_value <$> tip_stiff spec = a_tip_stiff a
  /\ Kickpoint_value <$> kickpoint spec = a_kickpoint a
  /\ material spec = a_material a
  /\ (msrp_usd spec = a_msrp_usd a
      /\ when_present (nan_or (fun p => PrimFloat.leb 0 p)) (msrp_usd spec) = true).
Proof.
  unfold validated. intros H.
  destruct (validate_name (a_manufacturer a)) as [m|] eqn:Hm; [|discriminate].
  destruct (validate_name (a_model a)) as [mo|] eqn:Hmo; [|discriminate].
  destruct (validate_optional_text (a_generation a)) as [g|] eqn:Hg; [|discriminate].
  destruct (by_value ClubType_value ClubType_members (a_club_type a)) as [ct|] eqn:Hct;
    [|discriminate].
  destruct (by_value Flex_value Flex_members (a_flex a)) as [fl|] eqn:Hfl;
    [|discriminate].
  destruct (validate_gt_lt 0 300 (a_weight_grams a)) as [w|] eqn:Hw; [|discriminate].
  destruct (validate_optional (validate_gt_lt 0 60) (a_length_inches a))
    as [len|] eqn:Hlen; [|discriminate].
  destruct (validate_optional (validate_ge_lt 0 15) (a_torque_degrees a))
    as [tq|] eqn:Htq; [|discriminate].
  destruct (validate_optional (by_value LaunchProfile_value LaunchProfile_members)
              (a_launch a)) as [la|] eqn:Hla; [|discriminate].
  destruct (validate_optional (by_value SpinProfile_value SpinProfile_members)
              (a_spin a)) as [sp|] eqn:Hsp; [|discriminate].
  destruct (validate_optional validate_any (a_butt_diameter_inches a))
    as [bd|] eqn:Hbd; [|discriminate].
  destruct (validate_optional validate_any (a_tip_diameter_inches a))
    as [td|] eqn:Htd; [|discriminate].
  destruct (validate_optional (by_value TipStiffness_value TipStiffness_members)
              (a_tip_stiff a)) as [ts|] eqn:Hts; [|discriminate].
  destruct (validate_optional (by_value Kickpoint_value Kickpoint_members)
              (a_kickpoint a)) as [kp|] eqn:Hkp; [|discriminate].
  destruct (validate_optional (validate_ge 0) (a_msrp_usd a)) as [ms|] eqn:Hms;
    [|discriminate].
  cbn in H. injection H as <-. cbn.
  assert (Hname : forall s r, validate_name s = Some r -> s <> "" /\ r = strip s).
  { intros s r. unfold validate_name. destruct s; cbn; [discriminate|].
    intros [= <-]. split; [discriminate|reflexivity]. }
  apply (validate_gt_lt_Some 0 300 _ _ eq_refl eq_refl) in Hw as [-> Hw].
  apply (validate_optional_range
           (nan_or (fun l => PrimFloat.ltb 0 l && PrimFloat.ltb l 60)))
    in Hlen as [-> Hlen];
    [|intros x y; apply (validate_gt_lt_Some 0 60 _ _ eq_refl eq_refl)].
  apply (validate_optional_range
           (nan_or (fun t => PrimFloat.leb 0 t && PrimFloat.ltb t 15)))
    in Htq as [-> Htq];
    [|intros x y; apply (validate_ge_lt_Some 0 15 _ _ eq_refl eq_refl)].
  apply (validate_optional_range (nan_or (fun p => PrimFloat.leb 0 p)))
    in Hms as [-> Hms];
    [|intros x y; apply (validate_ge_Some 0 _ _ eq_refl)].
  apply (validate_optional_range (fun _ => true)) in Hbd as [-> _];
    [|intros x y [= <-]; split; reflexivity].
  apply (validate_optional_range (fun _ => true)) in Htd as [-> _];
    [|intros x y [= <-]; split; reflexivity].
  repeat match goal with |- _ /\ _ => split end;
    try reflexivity; try assumption.
  - apply (Hname _ _ Hm).
  - apply (Hname _ _ Hm).
  - apply (Hname _ _ Hmo).
  - apply (Hname _ _ Hmo).
  - apply (by_value_Some _ _ _ _ Hct).
  - apply (by_value_Some _ _ _ _ Hfl).
  - apply (validate_optional_by_value _ _ _ _ Hla).
  - apply (validate_optional_by_value _ _ _ _ Hsp).
  - apply (validate_optional_by_value _ _ _ _ Hts).
  - apply (validate_optional_by_value _ _ _ _ Hkp).
Qed.









(** X3.  A record the constructor returns holds its two names trimmed
    (and the names given were not empty); each of its measurements is
    within its range, or is [nan]; and every other field is as it was
    given. *)
Theorem ShaftSpec_new_record (a : ShaftSpecArgs) (spec : ShaftSpec) :
  ShaftSpec_new a = Ok spec ->
  (a_manufacturer a <> "" /\ manufacturer spec = strip (a_manufacturer a)
   /\ strip (manufacturer spec) = manufacturer spec)
  /\ (a_model a <> "" /\ model spec = strip (a_model a)
      /\ strip (model spec) = model spec)
  /\ nan_or (fun w => PrimFloat.ltb 0 w && PrimFloat.ltb w 300)
       (weight_grams spec) = true
  /\ when_present (nan_or (fun l => PrimFloat.ltb 0 l && PrimFloat.ltb l 60))
       (length_inches spec) = true
  /\ when_present (nan_or (fun t => PrimFloat.leb 0 t && PrimFloat.ltb t 15))
       (torque_degrees spec) = true
  /\ when_present (nan_or (fun p => PrimFloat.leb 0 p)) (msrp_usd spec) = true
  /\ model_dump spec
     = {| a_manufacturer := strip (a_manufacturer a);
          a_model := strip (a_model a);
          a_generation := a_generation a;
          a_club_type := a_club_type a;
          a_flex := a_flex a;
          a_weight_grams := a_weight_grams a;
          a_length_inches := a_length_inches a;
          a_torque_degrees := a_torque_degrees a;
          a_launch := a_launch a;
          a_spin := a_spin a;
          a_butt_diameter_inches := a_butt_diameter_inches a;
          a_tip_diameter_inches := a_tip_diameter_inches a;
          a_tip_stiff := a_tip_stiff a;
          a_kickpoint := a_kickpoint a;
          a_material := a_material a;
          a_msrp_usd := a_msrp_usd a |}.
Proof.
  intros H. apply ShaftSpec_new_Ok, validated_inv in H.
  destruct H as ([Hm1 Hm2] & [Hmo1 Hmo2] & Hg & Hct & Hfl & [Hw1 Hw2] & [Hl1 Hl2]
                 & [Ht1 Ht2] & Hla & Hsp & Hbd & Htd & Hts & Hkp & Hmat & [Hp1 Hp2]).
  split; [|split; [|split; [|split; [|split; [|split]]]]];
    try assumption.
  - split; [exact Hm1|]. split; [exact Hm2|].
    rewrite Hm2. apply strip_idempotent.
  - split; [exact Hmo1|]. split; [exact Hmo2|].
    rewrite Hmo2. apply strip_idempotent.
  - unfold model_dump.
    rewrite Hm2, Hmo2, Hct, Hfl, Hw1, Hl1, Ht1, Hla, Hsp, Hbd, Htd, Hts, Hkp, Hmat,
      Hp1.
    f_equal. destruct (a_generation a) as [| | | |g]; cbn in Hg; try discriminate;
      injection Hg as <-; reflexivity.
Qed.

Lemma ShaftSpec_new_record_witness :
  manufacturer ventus_blue = "Fujikura" /\ model ventus_blue = "Ventus Blue"
  /\ nan_or (fun w => PrimFloat.ltb 0 w && PrimFloat.ltb w 300)
       (weight_grams ventus_blue) = true.
Proof.
  pose proof (ShaftSpec_new_record
                {| a_manufacturer := " Fujikura"; a_model := "Ventus Blue ";
                   a_generation := VStr "TR"; a_club_type := "woods";
                   a_flex := "X-Stiff"; a_weight_grams := 67;
                   a_length_inches := Some 46%float;
                   a_torque_degrees := Some 3.5%float;
                   a_launch := Some "Mid"; a_spin := Some "Low";
                   a_butt_diameter_inches := Some 0.625%float;
                   a_tip_diameter_inches := Some 0.375%float;
                   a_tip_stiff := Some "Very Firm";
                   a_kickpoint := Some "Mid-High";
                   a_material := "graphite"; a_msrp_usd := Some 350%float |}
                ventus_blue ltac:(vm_compute; reflexivity)) as (Hm & Hmo & Hw & _).
  split; [apply Hm|split; [apply Hmo|exact Hw]].
Defined.

Lemma nan_or_number (p : float -> bool) (x : float) :
  PrimFloat.is_nan x = false -> nan_or p x = true -> p x = true.
Proof. unfold nan_or. intros ->. intros H. exact H. Qed.

Lemma when_present_nan_or (p : float -> bool) (o : option float) :
  when_present (fun x => negb (PrimFloat.is_nan x)) o = true ->
  when_present (nan_or p) o = true -> when_present p o = true.
Proof.
  destruct o as [x|]; cbn; [|reflexivity]. intros H.
  apply negb_true_iff in H. apply nan_or_number, H.
Qed.

(** X4.  A record the constructor returns, whose stored names are not
    empty, whose measurements are numbers (none is [nan]) and whose
    unconstrained numeric fields are finite, is a valid record, and the
    constructor builds the same record again from its dump. *)
Theorem ShaftSpec_new_revalidates (a : ShaftSpecArgs) (spec : ShaftSpec) :
  ShaftSpec_new a = Ok spec ->
  nonempty (manufacturer spec) = true ->
  nonempty (model spec) = true ->
  PrimFloat.is_nan (weight_grams spec) = false ->
  when_present (fun l => negb (PrimFloat.is_nan l)) (length_inches spec) = true ->
  when_present (fun t => negb (PrimFloat.is_nan t)) (torque_degrees spec) = true ->
  when_present PrimFloat.is_finite (butt_diameter_inches spec) = true ->
  when_present PrimFloat.is_finite (tip_diameter_inches spec) = true ->
  when_present PrimFloat.is_finite (msrp_usd spec) = true ->
  valid_spec spec = true /\ ShaftSpec_new (model_dump spec) = Ok spec.
Proof.
  intros H Hm Hmo Hw Hl Ht Hbd Htd Hp.
  apply ShaftSpec_new_record in H as H'.
  assert (Hv : valid_spec spec = true); [|split; [exact Hv|]].
  2:{ apply ShaftSpec_new_model_dump, Hv. }
  clear H'. apply ShaftSpec_new_Ok, validated_inv in H.
  destruct H as ([_ Hm2] & [_ Hmo2] & _ & _ & _ & [_ Hw2] & [_ Hl2]
                 & [_ Ht2] & _ & _ & _ & _ & _ & _ & _ & [_ Hp2]).
  unfold valid_spec. rewrite Hm, Hmo, Hbd, Htd.
  rewrite (nan_or_number _ _ Hw Hw2), (when_present_nan_or _ _ Hl Hl2),
    (when_present_nan_or _ _ Ht Ht2).
  assert (Hs : forall s t, s = strip t -> String.eqb (strip s) s = true).
  { intros s t ->. rewrite strip_idempotent. apply String.eqb_refl. }
  rewrite (Hs _ _ Hm2), (Hs _ _ Hmo2). cbn [andb].
  destruct (msrp_usd spec) as [p|]; cbn in *; [|reflexivity].
  rewrite Hp, andb_true_r. apply nan_or_number; [apply finite_number, Hp|exact Hp2].
Qed.

Lemma ShaftSpec_new_revalidates_witness :
  valid_spec (spec_of "Tour" STIFF 120) = true
  /\ ShaftSpec_new (model_dump (spec_of "Tour" STIFF 120))
     = Ok (spec_of "Tour" STIFF 120).
Proof.
  apply (ShaftSpec_new_revalidates
           {| a_manufacturer := " KBS "; a_model := "Tour";
              a_generation := VNone; a_club_type := "iron"; a_flex := "Stiff";
              a_weight_grams := 120; a_length_inches := None;
              a_torque_degrees := None; a_launch := None; a_spin := None;
              a_butt_diameter_inches := None; a_tip_diameter_inches := None;
              a_tip_stiff := None; a_kickpoint := None; a_material := "steel";
              a_msrp_usd := None |});
    vm_compute; reflexivity.
Defined.

End Constructor.

Section FieldNormalizers.

(** X5.  The value of every member is a text its normalizer reads as
    that member: the canonical names are among the aliases, for the
    flex, the four profiles and the club type. *)
Theorem canonical_values_are_aliases :
  (forall f, normalize_flex (Flex_value f) = Ok f)
  /\ (forall p, normalize_launch (VStr (LaunchProfile_value p)) = Ok (Some p))
  /\ (forall p, normalize_spin (VStr (SpinProfile_value p)) = Ok (Some p))
  /\ (forall p, normalize_kickpoint (VStr (Kickpoint_value p)) = Ok (Some p))
  /\ (forall t, normalize_tip_stiffness (VStr (TipStiffness_value t)) = Ok (Some t))
  /\ (forall c, CLUB_TYPE_MAP !! ClubType_value c = Some c).
Proof.
  repeat split; intros []; vm_compute; reflexivity.
Qed.

Lemma eqb_space_lower_char (c : ascii) :
  Ascii.eqb (lower_char c) " " = Ascii.eqb c " ".
Proof. destruct c as [[] [] [] [] [] [] [] []]; reflexivity. Qed.

Lemma remove_spaces_lower (s : string) :
  remove_spaces (lower s) = lower (remove_spaces s).
Proof.
  induction s as [|c s IH]; [reflexivity|].
  cbn [lower remove_spaces]. rewrite eqb_space_lower_char.
  destruct (Ascii.eqb c " "); [exact IH|].
  cbn [lower]. rewrite IH. reflexivity.
Qed.

Lemma remove_spaces_idempotent (s : string) :
  remove_spaces (remove_spaces s) = remove_spaces s.
Proof.
  induction s as [|c s IH]; [reflexivity|].
  cbn [remove_spaces]. destruct (Ascii.eqb c " ") eqn:E; [exact IH|].
  cbn [remove_spaces]. rewrite E, IH. reflexivity.
Qed.

Lemma strip_remove_spaces (s : string) :
  strip s = s -> strip (remove_spaces s) = remove_spaces s.
Proof.
  intros H. destruct (strip_ends s) as [E|[(c & t & E & Hc) Hlast]];
    rewrite H in *.
  - subst s. reflexivity.
  - apply strip_fixed.
    + right. subst s. cbn [remove_spaces].
      destruct (Ascii.eqb c " ") eqn:Ec.
      * apply Ascii.eqb_eq in Ec. subst c. discriminate Hc.
      * eexists _, _. split; [reflexivity|exact Hc].
    + intros x Hx. apply last_char_remove_spaces in Hx as (c' & Hc' & Hx).
      pose proof (Hlast _ Hc') as Hs. rewrite (Hx Hs). exact Hs.
Qed.

Lemma clean_flex_idempotent (raw : string) :
  clean_flex (clean_flex raw) = clean_flex raw.
Proof.
  unfold clean_flex.
  rewrite (strip_remove_spaces (lower (strip raw)))
    by (rewrite strip_lower, strip_idempotent; reflexivity).
  rewrite <- remove_spaces_lower, lower_idempotent.
  apply remove_spaces_idempotent.
Qed.

Lemma normalize_with_cleaned {E : Type} (table : gmap string E) (s : string) :
  table !! "" = None ->
  normalize_with table (VStr s) = normalize_with table (VStr (lower (strip s))).
Proof.
  intros H. rewrite !(normalize_with_text _ _ H).
  rewrite strip_lower, strip_idempotent, lower_idempotent. reflexivity.
Qed.

(** X6.  The field normalizers read a text through its cleaned form
    only.  Cleaning a flex text twice is cleaning it once, and the flex
    read from a text is the flex read from its cleaned form (when one
    is refused so is the other); a profile read from a text is the
    profile read from the trimmed, lower-cased text. *)
Theorem normalizers_read_cleaned_text (raw : string) :
  clean_flex (clean_flex raw) = clean_flex raw
  /\ match normalize_flex raw with
     | Ok f => normalize_flex (clean_flex raw) = Ok f
     | Raise _ => exists e, normalize_flex (clean_flex raw) = Raise e
     end
  /\ normalize_launch (VStr raw) = normalize_launch (VStr (lower (strip raw)))
  /\ normalize_spin (VStr raw) = normalize_spin (VStr (lower (strip raw)))
  /\ normalize_kickpoint (VStr raw) = normalize_kickpoint (VStr (lower (strip raw)))
  /\ normalize_tip_stiffness (VStr raw)
     = normalize_tip_stiffness (VStr (lower (strip raw))).
Proof.
  split; [apply clean_flex_idempotent|]. split.
  - unfold normalize_flex. rewrite clean_flex_idempotent.
    destruct (FLEX_MAP !! clean_flex raw); [reflexivity|].
    destruct (flex_search (clean_flex raw)); [reflexivity|]. eexists. reflexivity.
  - repeat split; apply normalize_with_cleaned; reflexivity.
Qed.

(** X7.  A flex that [normalize_flex] returns is a value of the alias
    table: the one of the cleaned text, or the one of the code the
    pattern captures.  The default of the lookup of the captured code,
    Stiff, is never taken, since every code of the pattern is a key of
    the table. *)
Theorem normalize_flex_from_table (raw : string) (f : Flex) :
  normalize_flex raw = Ok f ->
  FLEX_MAP !! clean_flex raw = Some f
  \/ (FLEX_MAP !! clean_flex raw = None
      /\ exists g, flex_search (clean_flex raw) = Some g
           /\ g ∈ flex_codes /\ FLEX_MAP !! g = Some f).
Proof.
  unfold normalize_flex.
  destruct (FLEX_MAP !! clean_flex raw) as [f'|] eqn:E.
  - intros [= <-]. left. reflexivity.
  - destruct (flex_search (clean_flex raw)) as [g|] eqn:Hg; [|discriminate].
    intros [= <-]. right. split; [reflexivity|]. exists g.
    destruct (flex_search_sound _ _ Hg) as (_ & _ & _ & _ & _ & _ & Hcode & _).
    split; [reflexivity|]. split; [exact Hcode|].
    destruct (FLEX_MAP_code _ Hcode) as [f' ->]. reflexivity.
Qed.

Lemma normalize_flex_from_table_witness :
  FLEX_MAP !! clean_flex "6.5 TX" = Some TX
  \/ (FLEX_MAP !! clean_flex "6.5 TX" = None
      /\ exists g, flex_search (clean_flex "6.5 TX") = Some g
           /\ g ∈ flex_codes /\ FLEX_MAP !! g = Some TX).
Proof.
  apply (normalize_flex_from_table "6.5 TX" TX). vm_compute. reflexivity.
Defined.

(** X8.  A profile normalizer raises exactly on a cell that is neither
    text, nor null, nor falsy: a number other than zero, or [True].
    The error is the [AttributeError] of [.strip()]; on every other
    cell each of the four returns. *)
Theorem profile_normalizers_raise_iff (raw : pyval) :
  (text_or_blank raw = true ->
   (exists r, normalize_launch raw = Ok r)
   /\ (exists r, normalize_spin raw = Ok r)
   /\ (exists r, normalize_kickpoint raw = Ok r)
   /\ (exists r, normalize_tip_stiffness raw = Ok r))
  /\ (text_or_blank raw = false ->
      let e := AttributeError ("'" +:+ type_name raw
                               +:+ "' object has no attribute 'strip'") in
      normalize_launch raw = Raise e
      /\ normalize_spin raw = Raise e
      /\ normalize_kickpoint raw = Raise e
      /\ normalize_tip_stiffness raw = Raise e).
Proof.
  unfold normalize_launch, normalize_spin, normalize_kickpoint,
    normalize_tip_stiffness, normalize_with, text_or_blank.
  split; intros H.
  - destruct raw as [|b|n|x|s]; try (rewrite H);
      try (repeat split; eexists; reflexivity).
    destruct (negb (truthy (VStr s)) || pd_isna (VStr s));
      repeat split; eexists; reflexivity.
  - destruct raw as [|b|n|x|s]; try discriminate H; rewrite H;
      repeat split; reflexivity.
Qed.

Lemma normalize_with_returns {E : Type} (table : gmap string E) (raw : pyval) :
  text_or_blank raw = true -> exists r, normalize_with table raw = Ok r.
Proof.
  unfold normalize_with, text_or_blank. intros H.
  destruct raw as [|b|n|x|s]; try (rewrite H; eexists; reflexivity).
  destruct (negb (truthy (VStr s)) || pd_isna (VStr s)); eexists; reflexivity.
Qed.

(** X9.  [safe_float] raises exactly on an integer beyond the range of
    the floats, and then it is [OverflowError] that it raises; on every
    other cell it returns a float or [None]. *)
Theorem safe_float_raises_iff (val : pyval) :
  (within_float_range val = true -> exists r, safe_float val = Ok r)
  /\ (within_float_range val = false ->
      safe_float val = Raise (OverflowError "int too large to convert to float")).
Proof.
  split; intros H.
  - apply safe_float_returns. intros n ->. cbn in H.
    destruct (float_of_int n); [discriminate|discriminate H].
  - destruct val as [|b|n|x|s]; try discriminate H. cbn in H.
    unfold safe_float. cbn [is_float andb orb py_float].
    destruct (float_of_int n); [discriminate H|reflexivity].
Qed.

End FieldNormalizers.

Section Rows.




(** A weight cell that holds the text "NAN" is read as the float [nan],
    which no bound of the schema refuses: the row normalizes, to a
    record whose weight is no number. *)
Example normalize_row_weight_nan :
  exists spec,
    normalize_row (row_of [("model", VStr "Tour"); ("flex", VStr "S");
                           ("weight", VStr "NAN")]) "KBS" IRON = Ok spec
    /\ PrimFloat.is_nan (weight_grams spec) = true
    /\ PrimFloat.ltb 0 (weight_grams spec) = false.
Proof. eexists. vm_compute. repeat split; reflexivity. Qed.

(** X11.  The generation of the record of a row that normalizes: when
    the cell resolved through the generation aliases is truthy, the
    text of the cell, trimmed (for an empty cell of the file, which
    pandas reads as [nan], the text "nan"); when it is falsy, the cell
    is null or the empty text, and the record holds no generation or
    the empty text.  A row for which the chain gives another falsy
    value (a zero or [False] in the last alias, [version]) does not
    normalize. *)
Theorem normalize_row_generation (row : Row) (mfr : string) (ct : ClubType)
    (spec : ShaftSpec) :
  normalize_row row mfr ct = Ok spec ->
  (truthy (generation_cell row) = true
   /\ generation spec = Some (strip (py_str (generation_cell row))))
  \/ (generation_cell row = VNone /\ generation spec = None)
  \/ (generation_cell row = VStr "" /\ generation spec = Some "").
Proof.
  unfold normalize_row. fold (generation_cell row). intros H.
  apply bind_Ok_inv in H as (f & Hf & H).
  apply bind_Ok_inv in H as (w & Hw & H).
  destruct w as [w|]; [|discriminate].
  apply bind_Ok_inv in H as (len & Hlen & H).
  apply bind_Ok_inv in H as (tq & Htq & H).
  apply bind_Ok_inv in H as (la & Hla & H).
  apply bind_Ok_inv in H as (sp & Hsp & H).
  apply bind_Ok_inv in H as (kp & Hkp & H).
  apply bind_Ok_inv in H as (ts & Hts & H).
  apply bind_Ok_inv in H as (bd & Hbd & H).
  apply bind_Ok_inv in H as (td & Htd & H).
  apply bind_Ok_inv in H as (ms & Hms & H).
  apply ShaftSpec_new_Ok, validated_inv in H.
  destruct H as (_ & _ & Hg & _). cbn [a_generation] in Hg.
  destruct (truthy (generation_cell row)) eqn:Ht.
  - left. split; [reflexivity|]. cbn in Hg. congruence.
  - right. destruct (generation_cell row) as [|b|n|x|s]; cbn in Hg;
      try discriminate Hg.
    + left. split; [reflexivity|congruence].
    + right. destruct s; [|discriminate Ht]. split; [reflexivity|congruence].
Qed.

Lemma normalize_row_generation_witness :
  (truthy (generation_cell (row_of [("model", VStr "Tour"); ("flex", VStr "S");
                                    ("weight", VFloat 120);
                                    ("version", VFloat nan)])) = true
   /\ generation
        {| manufacturer := "KBS"; model := "Tour"; generation := Some "nan";
           club_type := IRON; flex := STIFF; weight_grams := 120;
           length_inches := None; torque_degrees := None; launch := None;
           spin := None; butt_diameter_inches := None;
           tip_diameter_inches := None; tip_stiff := None; kickpoint := None;
           material := "graphite"; msrp_usd := None |}
      = Some (strip (py_str (generation_cell
                               (row_of [("model", VStr "Tour"); ("flex", VStr "S");
                                        ("weight", VFloat 120);
                                        ("version", VFloat nan)])))))
  \/ (generation_cell (row_of [("model", VStr "Tour"); ("flex", VStr "S");
                               ("weight", VFloat 120); ("version", VFloat nan)])
      = VNone
      /\ generation
           {| manufacturer := "KBS"; model := "Tour"; generation := Some "nan";
              club_type := IRON; flex := STIFF; weight_grams := 120;
              length_inches := None; torque_degrees := None; launch := None;
              spin := None; butt_diameter_inches := None;
              tip_diameter_inches := None; tip_stiff := None; kickpoint := None;
              material := "graphite"; msrp_usd := None |}
         = None)
  \/ (generation_cell (row_of [("model", VStr "Tour"); ("flex", VStr "S");
                               ("weight", VFloat 120); ("version", VFloat nan)])
      = VStr ""
      /\ generation
           {| manufacturer := "KBS"; model := "Tour"; generation := Some "nan";
              club_type := IRON; flex := STIFF; weight_grams := 120;
              length_inches := None; torque_degrees := None; launch := None;
              spin := None; butt_diameter_inches := None;
              tip_diameter_inches := None; tip_stiff := None; kickpoint := None;
              material := "graphite"; msrp_usd := None |}
         = Some "").
Proof.
  apply (normalize_row_generation _ "KBS" IRON). vm_compute. reflexivity.
Defined.

(** A zero in the last alias is the value of the chain, and the schema
    refuses it; a zero in an alias before it is passed over. *)
Example normalize_row_generation_zero :
  normalize_row (row_of [("model", VStr "Tour"); ("flex", VStr "S");
                         ("weight", VFloat 120); ("version", VInt 0)])
    "KBS" IRON
  = Raise (ValidationError ["generation"])
  /\ normalize_row (row_of [("model", VStr "Tour"); ("flex", VStr "S");
                            ("weight", VFloat 120); ("generation", VInt 0)])
       "KBS" IRON
     = Ok {| manufacturer := "KBS"; model := "Tour"; generation := None;
             club_type := IRON; flex := STIFF; weight_grams := 120;
             length_inches := None; torque_degrees := None; launch := None;
             spin := None; butt_diameter_inches := None;
             tip_diameter_inches := None; tip_stiff := None; kickpoint := None;
             material := "graphite"; msrp_usd := None |}.
Proof. split; vm_compute; reflexivity. Qed.

(** The value of an or-chain is one of its operands. *)
Lemma py_or_keeps (P : pyval -> bool) (a b : pyval) :
  P a = true -> P b = true -> P (a or' b) = true.
Proof. unfold py_or. destruct (truthy a); auto. Qed.

Lemma plain_row_numeric (row : Row) (key : string) :
  plain_row row = true -> In key numeric_keys ->
  within_float_range (get row key) = true.
Proof.
  unfold plain_row. intros H Hk. apply andb_true_iff in H as [H _].
  rewrite forallb_forall in H. apply H, Hk.
Qed.

Lemma plain_row_profile (row : Row) (key : string) :
  plain_row row = true -> In key profile_keys ->
  text_or_blank (get row key) = true.
Proof.
  unfold plain_row. intros H Hk. apply andb_true_iff in H as [_ H].
  rewrite forallb_forall in H. apply H, Hk.
Qed.

Lemma safe_float_in_range (val : pyval) :
  within_float_range val = true -> exists r, safe_float val = Ok r.
Proof.
  intros H. apply safe_float_returns. intros n ->. cbn in H.
  destruct (float_of_int n); [discriminate|discriminate H].
Qed.

Ltac plain_cell H :=
  repeat apply py_or_keeps;
  first [ apply (plain_row_numeric _ _ H) | apply (plain_row_profile _ _ H) ];
  cbn; tauto.

(** A plain row fails, if it fails, with an error of the [ValueError]
    class. *)
Lemma plain_row_caught (row : Row) (manufacturer : string)
    (club_type : ClubType) (e : exn) :
  plain_row row = true ->
  normalize_row row manufacturer club_type = Raise e ->
  is_ValueError e = true.
Proof.
  intros Hp. unfold normalize_row.
  destruct (normalize_flex _) as [f|e'] eqn:Hf.
  2:{ apply normalize_flex_raises in Hf. subst e'. intros [= <-]. reflexivity. }
  unfold bind at 1.
  destruct (safe_float_in_range
              (get row "weight" or' get row "weight_grams" or' get row "wt")
              ltac:(plain_cell Hp)) as [w ->].
  unfold bind at 1. destruct w as [w|]; [|intros [= <-]; reflexivity].
  destruct (safe_float_in_range
              (get row "length" or' get row "length_inches" or' get row "raw_length")
              ltac:(plain_cell Hp)) as [len ->].
  unfold bind at 1.
  destruct (safe_float_in_range (get row "torque" or' get row "torque_degrees")
              ltac:(plain_cell Hp)) as [tq ->].
  unfold bind at 1.
  destruct (normalize_with_returns LAUNCH_MAP
              (get row "launch" or' get row "launch_profile")
              ltac:(plain_cell Hp)) as [la Hla].
  unfold normalize_launch. rewrite Hla. unfold bind at 1.
  destruct (normalize_with_returns SPIN_MAP
              (get row "spin" or' get row "spin_profile")
              ltac:(plain_cell Hp)) as [sp Hsp].
  unfold normalize_spin. rewrite Hsp. unfold bind at 1.
  destruct (normalize_with_returns KICKPOINT_MAP
              (get row "kickpoint" or' get row "kick_point" or' get row "bend_point")
              ltac:(plain_cell Hp)) as [kp Hkp].
  unfold normalize_kickpoint. rewrite Hkp. unfold bind at 1.
  destruct (normalize_with_returns TIP_STIFF_MAP
              (get row "tip_stiff" or' get row "tip_stiffness" or' get row "tip")
              ltac:(plain_cell Hp)) as [ts Hts].
  unfold normalize_tip_stiffness. rewrite Hts. unfold bind at 1.
  destruct (safe_float_in_range (get row "butt_diameter" or' get row "butt")
              ltac:(plain_cell Hp)) as [bd ->].
  unfold bind at 1.
  destruct (safe_float_in_range (get row "tip_diameter" or' get row "tip_dia")
              ltac:(plain_cell Hp)) as [td ->].
  unfold bind at 1.
  destruct (safe_float_in_range
              (get row "msrp" or' get row "msrp_usd" or' get row "price")
              ltac:(plain_cell Hp)) as [ms ->].
  unfold bind at 1. unfold ShaftSpec_new.
  destruct (validated _); [discriminate|]. intros [= <-]. reflexivity.
Qed.

End Rows.

Section Batches.

Lemma normalize_rows_Ok_inv (df : list (Z * Row)) (manufacturer : string)
    (club_type : ClubType) (specs specs' : list ShaftSpec)
    (errors errors' : list (Z * exn)) :
  normalize_rows df manufacturer club_type specs errors = Ok (specs', errors') ->
  all_caught df manufacturer club_type
  /\ specs' = (specs ++ successes df manufacturer club_type)%list
  /\ errors' = (errors ++ failures df manufacturer club_type)%list.
Proof.
  unfold all_caught. revert specs errors.
  induction df as [|[idx row] df IH]; intros specs errors.
  - cbn [normalize_rows successes failures flat_map]. intros [= <- <-].
    rewrite !app_nil_r. split; [constructor|split; reflexivity].
  - cbn [normalize_rows successes failures flat_map].
    destruct (normalize_row row manufacturer club_type) as [spec|e] eqn:E.
    + intros H. apply IH in H as (Hc & -> & ->). split; [|split].
      * constructor; [intros e He; rewrite E in He; discriminate He|exact Hc].
      * cbn [app]. rewrite <- app_assoc. reflexivity.
      * reflexivity.
    + destruct (is_ValueError e) eqn:He; [|discriminate].
      intros H. apply IH in H as (Hc & -> & ->). split; [|split].
      * constructor; [intros e' He'; rewrite E in He'; injection He' as <-; exact He|exact Hc].
      * reflexivity.
      * cbn [app]. rewrite <- app_assoc. reflexivity.
Qed.

Lemma successes_failures_length (df : list (Z * Row)) (manufacturer : string)
    (club_type : ClubType) :
  (length (successes df manufacturer club_type)
   + length (failures df manufacturer club_type))%nat = length df.
Proof.
  induction df as [|[idx row] df IH]; [reflexivity|].
  cbn [successes failures flat_map].
  destruct (normalize_row row manufacturer club_type);
    rewrite !length_app; cbn [length app];
    fold (successes df manufacturer club_type);
    fold (failures df manufacturer club_type); lia.
Qed.

Lemma failures_indices (df : list (Z * Row)) (manufacturer : string)
    (club_type : ClubType) :
  (failures df manufacturer club_type).*1 `sublist_of` df.*1.
Proof.
  induction df as [|[idx row] df IH]; [constructor|].
  cbn [failures flat_map]. fold (failures df manufacturer club_type).
  destruct (normalize_row row manufacturer club_type); cbn.
  - apply sublist_cons, IH.
  - apply sublist_skip, IH.
Qed.

Lemma successes_from_rows (df : list (Z * Row)) (manufacturer : string)
    (club_type : ClubType) (spec : ShaftSpec) :
  spec ∈ successes df manufacturer club_type <->
  exists idx row, (idx, row) ∈ df
    /\ normalize_row row manufacturer club_type = Ok spec.
Proof.
  induction df as [|[idx row] df IH].
  - cbn. split; [intros H; inversion H|intros (i & r & H & _); inversion H].
  - cbn [successes flat_map]. fold (successes df manufacturer club_type).
    rewrite elem_of_app, IH. split.
    + intros [H|(i & r & H & Hr)].
      * destruct (normalize_row row manufacturer club_type) as [s|] eqn:E;
          [|inversion H].
        apply list_elem_of_singleton in H. subst s.
        exists idx, row. split; [apply list_elem_of_here|exact E].
      * exists i, r. split; [apply list_elem_of_further, H|exact Hr].
    + intros (i & r & H & Hr). apply elem_of_cons in H as [[= -> ->]|H].
      * left. rewrite Hr. apply list_elem_of_here.
      * right. exists i, r. split; assumption.
Qed.

(** X12.  A table of plain rows (no integer beyond the range of the
    floats in a numeric cell, text or nothing in a profile cell) never
    ends the batch: each of its rows gives a record or an error of the
    [ValueError] class, and the batch normalizer returns the records of
    the rows that succeed. *)
Theorem normalize_dataframe_plain (df : list (Z * Row)) (manufacturer : string)
    (club_type : ClubType) :
  Forall (fun r => plain_row r.2 = true) df ->
  all_caught df manufacturer club_type
  /\ normalize_dataframe df manufacturer club_type
     = Ok (successes df manufacturer club_type).
Proof.
  intros H.
  assert (Hc : all_caught df manufacturer club_type).
  { unfold all_caught. induction H as [|[idx row] df Hrow Hdf IH]; constructor.
    - intros e. apply plain_row_caught, Hrow.
    - exact IH. }
  split; [exact Hc|].
  unfold normalize_dataframe, normalize_dataframe_state.
  rewrite (normalize_rows_all_caught _ _ _ _ _ Hc). reflexivity.
Qed.

Lemma normalize_dataframe_plain_witness :
  all_caught table_caught "KBS" IRON
  /\ normalize_dataframe table_caught "KBS" IRON
     = Ok (successes table_caught "KBS" IRON).
Proof.
  apply (normalize_dataframe_plain table_caught "KBS" IRON).
  unfold table_caught.
  repeat (apply Forall_cons; split; [vm_compute; reflexivity|]).
  apply Forall_nil. exact I.
Defined.

(** X13.  When the batch normalizer comes to its end, every row of the
    table is accounted for exactly once: it gave a record or it is
    among the recorded errors; the indices of the errors are indices of
    the table, in row order, and the errors are of the [ValueError]
    class; and each record returned is the record of a row of the
    table. *)
Theorem normalize_dataframe_accounts (df : list (Z * Row)) (manufacturer : string)
    (club_type : ClubType) (specs : list ShaftSpec) (errors : list (Z * exn)) :
  normalize_dataframe_state df manufacturer club_type = Ok (specs, errors) ->
  normalize_dataframe df manufacturer club_type = Ok specs
  /\ (length specs + length errors)%nat = length df
  /\ errors.*1 `sublist_of` df.*1
  /\ Forall (fun ie => is_ValueError ie.2 = true) errors
  /\ Forall (fun spec =>
               exists idx row, (idx, row) ∈ df
                 /\ normalize_row row manufacturer club_type = Ok spec) specs.
Proof.
  unfold normalize_dataframe. intros H. rewrite H.
  unfold normalize_dataframe_state in H.
  apply normalize_rows_Ok_inv in H as (Hc & -> & ->). cbn [app].
  split; [reflexivity|]. split; [apply successes_failures_length|].
  split; [apply failures_indices|]. split.
  - unfold all_caught in Hc. clear -Hc.
    induction Hc as [|[idx row] df Hrow Hdf IH]; [constructor|].
    cbn [failures flat_map]. fold (failures df manufacturer club_type).
    destruct (normalize_row row manufacturer club_type) as [|e]; [exact IH|].
    cbn [app]. constructor; [apply Hrow; reflexivity|exact IH].
  - apply Forall_forall. intros spec Hs.
    apply successes_from_rows in Hs as (idx & row & Hin & Hrow).
    exists idx, row. split; assumption.
Qed.

Lemma normalize_dataframe_accounts_witness :
  normalize_dataframe table_caught "KBS" IRON
  = Ok (successes table_caught "KBS" IRON)
  /\ (length (successes table_caught "KBS" IRON)
      + length (failures table_caught "KBS" IRON))%nat = length table_caught.
Proof.
  pose proof (normalize_dataframe_accounts table_caught "KBS" IRON
                (successes table_caught "KBS" IRON)
                (failures table_caught "KBS" IRON)
                ltac:(vm_compute; reflexivity)) as (H1 & H2 & _).
  split; [exact H1|exact H2].
Defined.

Lemma normalize_rows_shift (df : list (Z * Row)) (manufacturer : string)
    (club_type : ClubType) (specs : list ShaftSpec) (errors : list (Z * exn)) :
  normalize_rows df manufacturer club_type specs errors
  = do st <- normalize_rows df manufacturer club_type [] [];
    Ok ((specs ++ st.1)%list, (errors ++ st.2)%list).
Proof.
  revert specs errors.
  induction df as [|[idx row] df IH]; intros specs errors.
  - cbn [normalize_rows bind fst snd]. rewrite !app_nil_r. reflexivity.
  - cbn [normalize_rows].
    destruct (normalize_row row manufacturer club_type) as [spec|e].
    + rewrite (IH (specs ++ [spec])%list), (IH ([] ++ [spec])%list).
      destruct (normalize_rows df manufacturer club_type [] []) as [[s' e']|];
        [|reflexivity].
      cbn [bind fst snd app]. rewrite <- app_assoc. reflexivity.
    + destruct (is_ValueError e); [|reflexivity].
      rewrite (IH specs (errors ++ [(idx, e)])%list), (IH [] ([] ++ [(idx, e)])%list).
      destruct (normalize_rows df manufacturer club_type [] []) as [[s' e']|];
        [|reflexivity].
      cbn [bind fst snd app]. rewrite <- app_assoc. reflexivity.
Qed.

Lemma normalize_rows_app (df1 df2 : list (Z * Row)) (manufacturer : string)
    (club_type : ClubType) (specs : list ShaftSpec) (errors : list (Z * exn)) :
  normalize_rows (df1 ++ df2)%list manufacturer club_type specs errors
  = do st <- normalize_rows df1 manufacturer club_type specs errors;
    normalize_rows df2 manufacturer club_type st.1 st.2.
Proof.
  revert specs errors.
  induction df1 as [|[idx row] df1 IH]; intros specs errors; [reflexivity|].
  cbn [app normalize_rows].
  destruct (normalize_row row manufacturer club_type) as [spec|e]; [apply IH|].
  destruct (is_ValueError e); [apply IH|reflexivity].
Qed.

(** X14.  The rows of a table are normalized independently of one
    another: the batch of two tables laid end to end is the batch of
    the first followed by the batch of the second, and it raises what
    the first of them to raise does. *)
Theorem normalize_dataframe_app (df1 df2 : list (Z * Row)) (manufacturer : string)
    (club_type : ClubType) :
  normalize_dataframe (df1 ++ df2)%list manufacturer club_type
  = do specs1 <- normalize_dataframe df1 manufacturer club_type;
    do specs2 <- normalize_dataframe df2 manufacturer club_type;
    Ok (specs1 ++ specs2)%list.
Proof.
  unfold normalize_dataframe, normalize_dataframe_state.
  rewrite normalize_rows_app.
  destruct (normalize_rows df1 manufacturer club_type [] []) as [[s1 e1]|];
    [|reflexivity].
  cbn [bind fst snd]. rewrite normalize_rows_shift.
  destruct (normalize_rows df2 manufacturer club_type [] []) as [[s2 e2]|];
    reflexivity.
Qed.

End Batches.

Section Building.

Lemma dedup_loop_distinct (l : list ShaftSpec) (seen : gset string) :
  NoDup (display_name <$> l) ->
  (forall x, x ∈ l -> display_name x ∉ seen) ->
  dedup_loop l seen [] = l.
Proof.
  revert seen. induction l as [|x l IH]; intros seen Hnd Hseen; [reflexivity|].
  rewrite dedup_loop_cons. cbn [fmap list_fmap] in Hnd.
  apply NoDup_cons in Hnd as [Hx Hnd].
  destruct (decide (display_name x ∈ seen)) as [Hin|_].
  - exfalso. apply (Hseen x); [apply list_elem_of_here|exact Hin].
  - f_equal. apply IH; [exact Hnd|]. intros y Hy Hin.
    apply elem_of_union in Hin as [Hin|Hin].
    + apply elem_of_singleton in Hin. apply Hx. rewrite <- Hin.
      apply list_elem_of_fmap. exists y. split; [reflexivity|exact Hy].
    + apply (Hseen y); [apply list_elem_of_further, Hy|exact Hin].
Qed.

(** X15.  Deduplication leaves a list as it is exactly when no two of
    its records have the same display name; so deduplicating twice is
    deduplicating once. *)
Theorem deduplicate_fixed_point (all_specs : list ShaftSpec) :
  (deduplicate all_specs = all_specs <-> NoDup (display_name <$> all_specs))
  /\ deduplicate (deduplicate all_specs) = deduplicate all_specs.
Proof.
  assert (H : forall l, NoDup (display_name <$> l) -> deduplicate l = l).
  { intros l Hl. apply dedup_loop_distinct; [exact Hl|].
    intros x _. apply not_elem_of_empty. }
  split; [split|].
  - intros E. rewrite <- E. apply dedup_loop_NoDup.
  - apply H.
  - apply H, dedup_loop_NoDup.
Qed.

Lemma dedup_loop_seen (l : list ShaftSpec) (names seen : gset string) :
  dedup_loop l (names ∪ seen) []
  = filter (fun x => display_name x ∉ names) (dedup_loop l seen []).
Proof.
  revert seen. induction l as [|x l IH]; intros seen; [reflexivity|].
  rewrite !dedup_loop_cons.
  destruct (decide (display_name x ∈ seen)) as [Hs|Hs].
  - rewrite <- IH.
    destruct (decide (display_name x ∈ names ∪ seen)) as [_|Hn]; [reflexivity|].
    exfalso. apply Hn, elem_of_union. right. exact Hs.
  - destruct (decide (display_name x ∈ names)) as [Hn|Hn].
    + rewrite filter_cons_False by (intros Hx; apply Hx, Hn).
      rewrite <- IH.
      destruct (decide (display_name x ∈ names ∪ seen)) as [_|Hu].
      * f_equal. apply set_eq. intros k.
        rewrite !elem_of_union, elem_of_singleton. split; [tauto|].
        intros [Hk|[Hk|Hk]]; [tauto| |tauto]. subst k. left. exact Hn.
      * exfalso. apply Hu, elem_of_union. left. exact Hn.
    + rewrite filter_cons_True by exact Hn.
      destruct (decide (display_name x ∈ names ∪ seen)) as [Hu|_].
      * exfalso. apply elem_of_union in Hu as [Hu|Hu]; contradiction.
      * f_equal. rewrite <- IH. f_equal. apply set_eq. intros k.
        rewrite !elem_of_union, elem_of_singleton. tauto.
Qed.

Lemma dedup_loop_app (l1 l2 : list ShaftSpec) (seen : gset string) :
  dedup_loop (l1 ++ l2) seen []
  = (dedup_loop l1 seen []
     ++ dedup_loop l2 (list_to_set (display_name <$> l1) ∪ seen) [])%list.
Proof.
  revert seen. induction l1 as [|x l1 IH]; intros seen.
  - cbn [app fmap list_fmap list_to_set foldr dedup_loop].
    rewrite (left_id_L ∅ (∪) seen). reflexivity.
  - cbn [app]. rewrite !dedup_loop_cons.
    destruct (decide (display_name x ∈ seen)) as [Hs|Hs].
    + rewrite IH. f_equal. f_equal. apply set_eq. intros k.
      cbn [fmap list_fmap list_to_set].
      rewrite !elem_of_union, elem_of_singleton. split; [tauto|].
      intros [[Hk|Hk]|Hk]; [|tauto|tauto]. subst k. right. exact Hs.
    + rewrite IH. cbn [app]. f_equal. f_equal. f_equal. apply set_eq. intros k.
      cbn [fmap list_fmap list_to_set].
      rewrite !elem_of_union, elem_of_singleton. tauto.
Qed.

(** X16.  Records met earlier are never displaced by records met later:
    deduplicating two lists laid end to end gives the deduplicated
    first list, followed by the records of the deduplicated second list
    whose display name no record of the first list has. *)
Theorem deduplicate_app (specs1 specs2 : list ShaftSpec) :
  deduplicate (specs1 ++ specs2)
  = (deduplicate specs1
     ++ filter (fun spec => display_name spec ∉ display_name <$> specs1)
          (deduplicate specs2))%list.
Proof.
  unfold deduplicate. rewrite dedup_loop_app, dedup_loop_seen. f_equal.
  apply list_filter_iff. intros x. rewrite elem_of_list_to_set. reflexivity.
Qed.

Lemma construct_all_model_dump (specs : list ShaftSpec) :
  Forall (fun spec => valid_spec spec = true) specs ->
  construct_all (map model_dump specs) = Ok specs.
Proof.
  induction 1 as [|spec specs Hspec Hspecs IH]; [reflexivity|].
  cbn [map construct_all]. rewrite (ShaftSpec_new_model_dump _ Hspec).
  unfold bind at 1. rewrite IH. reflexivity.
Qed.

(** X17.  Loading a store constructs its items in order and stops at
    the first one the schema refuses.  Either every item is accepted,
    and the list returned holds the record of each item, in order; or
    the error raised is the validation error of the first refused item,
    and nothing is returned, whatever the items after it. *)
Theorem load_database_outcome (data : list ShaftSpecArgs) :
  match load_database (Some data) with
  | Ok specs => Forall2 (fun item spec => ShaftSpec_new item = Ok spec) data specs
  | Raise e =>
      exists before item after,
        data = (before ++ item :: after)%list
        /\ Forall (fun i => exists spec, ShaftSpec_new i = Ok spec) before
        /\ ShaftSpec_new item = Raise e
        /\ e = ValidationError (error_fields item)
  end.
Proof.
  cbn [load_database]. induction data as [|item data IH]; [constructor|].
  cbn [construct_all].
  destruct (ShaftSpec_new item) as [spec|e] eqn:E; unfold bind at 1.
  - destruct (construct_all data) as [specs|e]; cbn [bind].
    + constructor; assumption.
    + destruct IH as (before & item' & after & -> & Hb & Hi & He).
      exists (item :: before), item', after.
      split; [reflexivity|]. split; [|split; assumption].
      constructor; [exists spec; exact E|exact Hb].
  - exists [], item, data. split; [reflexivity|]. split; [constructor|].
    split; [exact E|]. unfold ShaftSpec_new in E.
    destruct (validated item); [discriminate|]. injection E as <-. reflexivity.
Qed.

Lemma load_all_Ok (csv_files : list CsvFrame) (all_specs out : list ShaftSpec) :
  load_all csv_files all_specs = Ok out ->
  exists per_file,
    Forall2 (fun f specs => load_and_normalize f = Ok specs) csv_files per_file
    /\ out = (all_specs ++ concat per_file)%list.
Proof.
  revert all_specs. induction csv_files as [|f files IH]; intros all_specs.
  - cbn [load_all]. intros [= <-]. exists []. split; [constructor|].
    cbn [concat]. rewrite app_nil_r. reflexivity.
  - cbn [load_all]. intros H. apply bind_Ok_inv in H as (specs & Hf & H).
    apply IH in H as (per_file & Hall & ->).
    exists (specs :: per_file). split; [constructor; assumption|].
    cbn [concat]. rewrite app_assoc. reflexivity.
Qed.

Lemma load_all_Raise (before after : list CsvFrame) (f : CsvFrame) (e : exn)
    (all_specs : list ShaftSpec) :
  Forall (fun g => exists specs, load_and_normalize g = Ok specs) before ->
  load_and_normalize f = Raise e ->
  load_all (before ++ f :: after) all_specs = Raise e.
Proof.
  intros Hb Hf. revert all_specs.
  induction Hb as [|g before [specs Hg] Hb IH]; intros all_specs.
  - cbn [app load_all]. rewrite Hf. reflexivity.
  - cbn [app load_all]. rewrite Hg. unfold bind at 1. apply IH.
Qed.

(** X18.  A run of [main] over at least one file that comes to its end
    writes the store of the deduplicated records of all the files, in
    the order of the files: no two records of the store have the same
    display name, and when the records are valid the store loads back
    as exactly the deduplicated list.  With no file, the store is left
    as it was. *)
Theorem main_builds_store (csv_files : list CsvFrame) (store store' : StoreFile) :
  main csv_files store = Ok store' ->
  (csv_files = [] /\ store' = store)
  \/ exists per_file,
       Forall2 (fun f specs => load_and_normalize f = Ok specs) csv_files per_file
       /\ store' = save_database (deduplicate (concat per_file))
       /\ NoDup (display_name <$> deduplicate (concat per_file))
       /\ (Forall (fun spec => valid_spec spec = true) (concat per_file) ->
           load_database store' = Ok (deduplicate (concat per_file))).
Proof.
  unfold main. destruct csv_files as [|f files]; [intros [= <-]; left; auto|].
  intros H. right. apply bind_Ok_inv in H as (all_specs & Hall & [= <-]).
  apply load_all_Ok in Hall as (per_file & Hfiles & ->). cbn [app].
  exists per_file. split; [exact Hfiles|]. split; [reflexivity|].
  split; [apply dedup_loop_NoDup|]. intros Hv.
  unfold save_database, load_database. apply construct_all_model_dump.
  apply Forall_forall. intros spec Hs. rewrite Forall_forall in Hv.
  apply Hv, (elem_of_sublist _ _ _ Hs), dedup_loop_sublist.
Qed.

Lemma main_builds_store_witness :
  ([kbs_file; two_makers_file] = []
   /\ save_database
        (successes [(0, row_tour_s); (2, row_tour_x)] "KBS" IRON
         ++ successes [(1, row_hi_rev)] "KBS" WEDGE
         ++ successes [(2, row_ventus)] "Fujikura" WOODS)%list
      = None)
  \/ exists per_file,
       Forall2 (fun f specs => load_and_normalize f = Ok specs)
         [kbs_file; two_makers_file] per_file
       /\ save_database
            (successes [(0, row_tour_s); (2, row_tour_x)] "KBS" IRON
             ++ successes [(1, row_hi_rev)] "KBS" WEDGE
             ++ successes [(2, row_ventus)] "Fujikura" WOODS)%list
          = save_database (deduplicate (concat per_file))
       /\ NoDup (display_name <$> deduplicate (concat per_file))
       /\ (Forall (fun spec => valid_spec spec = true) (concat per_file) ->
           load_database
             (save_database
                (successes [(0, row_tour_s); (2, row_tour_x)] "KBS" IRON
                 ++ successes [(1, row_hi_rev)] "KBS" WEDGE
                 ++ successes [(2, row_ventus)] "Fujikura" WOODS)%list)
           = Ok (deduplicate (concat per_file))).
Proof.
  apply (main_builds_store [kbs_file; two_makers_file] None).
  vm_compute. reflexivity.
Defined.

(** The run over the two sample files: the second file has a row
    without a manufacturer, which is in no group, and two rows whose
    display names the first file has taken; the store holds the three
    records of the first file and the one new record of the second. *)
Example main_two_files :
  match main [kbs_file; two_makers_file] None with
  | Ok (Some items) => map (fun a => (a_manufacturer a, a_model a, a_flex a)) items
  | _ => []
  end
  = [("KBS", "Tour", "Stiff"); ("KBS", "Tour", "X-Stiff");
     ("KBS", "Hi-Rev", "Stiff"); ("Fujikura", "Ventus", "Stiff")].
Proof. vm_compute. reflexivity. Qed.

(** X19.  A file that cannot be loaded ends the whole run of [main]:
    when the files before it load, the exception of the file leaves
    [main], whatever the files after it hold, and no store is written.
    A file without a manufacturer column is such a file: it raises
    [ValueError]. *)
Theorem main_aborts_on_failing_file (before after : list CsvFrame) (f : CsvFrame)
    (store : StoreFile) :
  Forall (fun g => exists specs, load_and_normalize g = Ok specs) before ->
  (forall e, load_and_normalize f = Raise e ->
             main (before ++ f :: after) store = Raise e)
  /\ ("manufacturer" ∉ csv_columns f ->
      main (before ++ f :: after) store
      = Raise (ValueError "CSV must have a 'manufacturer' column")).
Proof.
  intros Hb.
  assert (H : forall e, load_and_normalize f = Raise e ->
                        main (before ++ f :: after) store = Raise e).
  { intros e He. unfold main.
    rewrite (load_all_Raise before after f e [] Hb He).
    destruct (before ++ f :: after)%list eqn:E; [|reflexivity].
    destruct before; discriminate E. }
  split; [exact H|]. intros Hm. apply H. unfold load_and_normalize.
  rewrite bool_decide_eq_false_2 by exact Hm. reflexivity.
Qed.

Lemma main_aborts_on_failing_file_witness :
  main ([kbs_file]
        ++ {| csv_columns := ["model"; "flex"; "weight"];
              csv_rows := TextKeyed [(None, row_ventus)] |} :: [])%list None
  = Raise (ValueError "CSV must have a 'manufacturer' column").
Proof.
  apply (main_aborts_on_failing_file
           [kbs_file] []
           {| csv_columns := ["model"; "flex"; "weight"];
              csv_rows := TextKeyed [(None, row_ventus)] |} None).
  - apply Forall_cons.
    split; [eexists; vm_compute; reflexivity|apply Forall_nil; exact I].
  - apply (proj1 (bool_decide_eq_false _)). vm_compute. reflexivity.
Defined.

End Building.

Section Grouping.

Lemma group_append_keys (groups : list (string * list Z)) (ct : string) (idx : Z) :
  (group_append groups ct idx).*1
  = if bool_decide (ct ∈ groups.*1) then groups.*1 else (groups.*1 ++ [ct])%list.
Proof.
  induction groups as [|[key indices] groups IH]; [reflexivity|].
  cbn [group_append fmap list_fmap fst].
  destruct (String.eqb key ct) eqn:E.
  - apply String.eqb_eq in E. subst key.
    rewrite bool_decide_eq_true_2 by apply list_elem_of_here. reflexivity.
  - apply String.eqb_neq in E. cbn [fmap list_fmap fst].
    change (list_fmap _ _ fst (group_append groups ct idx))
      with ((group_append groups ct idx).*1).
    rewrite IH. destruct (bool_decide (ct ∈ groups.*1)) eqn:B.
    + apply bool_decide_eq_true in B.
      rewrite bool_decide_eq_true_2 by (apply list_elem_of_further, B). reflexivity.
    + apply bool_decide_eq_false in B. rewrite bool_decide_eq_false_2; [reflexivity|].
      intros H. apply elem_of_cons in H as [H|H]; [congruence|contradiction].
Qed.

Lemma group_append_NoDup (groups : list (string * list Z)) (ct : string) (idx : Z) :
  NoDup groups.*1 -> NoDup (group_append groups ct idx).*1.
Proof.
  intros H. rewrite group_append_keys.
  destruct (bool_decide (ct ∈ groups.*1)) eqn:B; [exact H|].
  apply bool_decide_eq_false in B. apply NoDup_app. split; [exact H|]. split.
  - intros x Hx Hx'. apply list_elem_of_singleton in Hx'. subst x. contradiction.
  - apply NoDup_singleton.
Qed.

Lemma group_append_concat (groups : list (string * list Z)) (ct : string) (idx : Z) :
  concat (group_append groups ct idx).*2 ≡ₚ (concat groups.*2 ++ [idx])%list.
Proof.
  induction groups as [|[key indices] groups IH]; [reflexivity|].
  cbn [group_append]. destruct (String.eqb key ct).
  - cbn [fmap list_fmap snd concat]. rewrite <- !app_assoc.
    apply Permutation_app_head, Permutation_app_comm.
  - cbn [fmap list_fmap snd concat].
    change (list_fmap _ _ snd (group_append groups ct idx))
      with ((group_append groups ct idx).*2).
    rewrite IH, app_assoc. reflexivity.
Qed.

(** An entry of the dict after [setdefault(ct, []).append(idx)]: an
    entry as it was, or the entry of [ct], with [idx] at its end. *)
Lemma group_append_entry (groups : list (string * list Z)) (ct : string) (idx : Z)
    (key : string) (indices : list Z) :
  (key, indices) ∈ group_append groups ct idx ->
  (key, indices) ∈ groups
  \/ (key = ct
      /\ exists before, indices = (before ++ [idx])%list
           /\ (before = [] \/ (ct, before) ∈ groups)).
Proof.
  induction groups as [|[k l] groups IH]; cbn [group_append].
  - intros H. apply list_elem_of_singleton in H. injection H as -> ->.
    right. split; [reflexivity|]. exists []. split; [reflexivity|left; reflexivity].
  - destruct (String.eqb k ct) eqn:E.
    + apply String.eqb_eq in E. subst k. intros H.
      apply elem_of_cons in H as [H|H].
      * injection H as -> ->. right. split; [reflexivity|]. exists l.
        split; [reflexivity|right; apply list_elem_of_here].
      * left. apply list_elem_of_further, H.
    + intros H. apply elem_of_cons in H as [H|H].
      * injection H as -> ->. left. apply list_elem_of_here.
      * apply IH in H as [H|(-> & before & -> & [->|H])].
        -- left. apply list_elem_of_further, H.
        -- right. split; [reflexivity|]. exists []. split; [reflexivity|left; reflexivity].
        -- right. split; [reflexivity|]. exists before.
           split; [reflexivity|right; apply list_elem_of_further, H].
Qed.

Lemma detect_rows_app (rows1 rows2 : list (Z * Row)) (groups : list (string * list Z)) :
  detect_rows (rows1 ++ rows2) groups
  = do groups1 <- detect_rows rows1 groups; detect_rows rows2 groups1.
Proof.
  revert groups. induction rows1 as [|[idx row] rows1 IH]; intros groups;
    [reflexivity|].
  cbn [app detect_rows]. destruct (py_strip (get row "club_type")); [|reflexivity].
  cbn [bind]. apply IH.
Qed.

Lemma py_strip_key (row : Row) (stripped : string) :
  py_strip (get row "club_type") = Ok stripped ->
  club_type_key row = Some (lower stripped).
Proof.
  unfold club_type_key. destruct (get row "club_type"); cbn; try discriminate.
  intros [= <-]. reflexivity.
Qed.

(** What the loop of [detect_club_type] has built when it ends. *)
Lemma detect_rows_groups (rows : list (Z * Row)) (groups : list (string * list Z)) :
  detect_rows rows [] = Ok groups ->
  NoDup groups.*1
  /\ concat groups.*2 ≡ₚ rows.*1
  /\ Forall (fun g =>
               g.2 <> [] /\ g.2 `sublist_of` rows.*1
               /\ forall i, i ∈ g.2 ->
                    exists row, (i, row) ∈ rows /\ club_type_key row = Some g.1)
       groups.
Proof.
  revert groups. induction rows as [|[idx row] rows IH] using rev_ind;
    intros groups.
  - cbn [detect_rows]. intros [= <-].
    split; [constructor|]. split; [reflexivity|constructor].
  - rewrite detect_rows_app. intros H.
    apply bind_Ok_inv in H as (groups1 & H1 & H). cbn [detect_rows] in H.
    apply bind_Ok_inv in H as (stripped & Hs & [= <-]).
    apply py_strip_key in Hs.
    destruct (IH _ H1) as (Hnd & Hperm & Hall).
    rewrite fmap_app. cbn [fmap list_fmap fst].
    split; [apply group_append_NoDup, Hnd|]. split.
    + rewrite group_append_concat, Hperm. reflexivity.
    + apply Forall_forall. intros [key indices] Hin. cbn [fst snd].
      rewrite Forall_forall in Hall.
      apply group_append_entry in Hin as [Hin|(-> & before & -> & Hb)].
      * destruct (Hall _ Hin) as (Hne & Hsub & Htag). cbn [fst snd] in *.
        split; [exact Hne|]. split; [apply sublist_inserts_r, Hsub|].
        intros i Hi. destruct (Htag i Hi) as (r & Hr & Hk).
        exists r. split; [|exact Hk]. apply elem_of_app. left. exact Hr.
      * split; [destruct before; discriminate|]. split.
        -- apply sublist_app; [|reflexivity].
           destruct Hb as [->|Hb]; [apply sublist_nil_l|].
           apply (Hall _ Hb).
        -- intros i Hi. apply elem_of_app in Hi as [Hi|Hi].
           ++ destruct Hb as [->|Hb]; [inversion Hi|].
              destruct (Hall _ Hb) as (_ & _ & Htag). cbn [fst snd] in Htag.
              destruct (Htag i Hi) as (r & Hr & Hk).
              exists r. split; [|exact Hk]. apply elem_of_app. left. exact Hr.
           ++ apply list_elem_of_singleton in Hi. subst i. exists row.
              split; [|exact Hs]. apply elem_of_app. right. apply list_elem_of_here.
Qed.

(** X20.  The groups of [detect_club_type] partition the rows of the
    frame: no key occurs twice, every index label is in exactly one
    group (the groups laid end to end are a permutation of the index),
    and the labels of a group are in row order.  When the frame has a
    club type column, no group is empty and a label is in the group of
    the key of its own row: the text of its club type cell, trimmed and
    lower-cased. *)
Theorem detect_club_type_partition (columns : list string) (rows : list (Z * Row))
    (groups : list (string * list Z)) :
  detect_club_type columns rows = Ok groups ->
  NoDup groups.*1
  /\ concat groups.*2 ≡ₚ rows.*1
  /\ Forall (fun g => g.2 `sublist_of` rows.*1) groups
  /\ ("club_type" ∈ columns ->
      Forall (fun g =>
                g.2 <> []
                /\ forall i, i ∈ g.2 ->
                     exists row, (i, row) ∈ rows /\ club_type_key row = Some g.1)
        groups).
Proof.
  unfold detect_club_type. destruct (bool_decide ("club_type" ∈ columns)) eqn:B.
  - intros H. apply detect_rows_groups in H as (Hnd & Hperm & Hall).
    split; [exact Hnd|]. split; [exact Hperm|]. split.
    + eapply Forall_impl; [exact Hall|]. intros g (_ & H & _). exact H.
    + intros _. eapply Forall_impl; [exact Hall|]. intros g (H1 & _ & H2).
      split; assumption.
  - apply bool_decide_eq_false in B. intros [= <-].
    cbn [fmap list_fmap fst snd concat]. rewrite app_nil_r.
    split; [apply NoDup_singleton|]. split; [reflexivity|]. split.
    + constructor; [reflexivity|constructor].
    + intros H. contradiction.
Qed.

Lemma detect_club_type_partition_witness :
  NoDup [("iron", [0; 2]); ("wedge", [1])].*1
  /\ concat [("iron", [0; 2]); ("wedge", [1])].*2 ≡ₚ [0; 1; 2].
Proof.
  pose proof (detect_club_type_partition ["manufacturer"; "club_type"]
                [(0, row_of [("club_type", VStr "Iron")]);
                 (1, row_of [("club_type", VStr " wedge ")]);
                 (2, row_of [("club_type", VStr "IRON")])]
                [("iron", [0; 2]); ("wedge", [1])]
                ltac:(vm_compute; reflexivity)) as (H1 & H2 & _).
  split; [exact H1|exact H2].
Defined.

Lemma detect_rows_raises (rows : list (Z * Row)) (groups : list (string * list Z)) :
  match detect_rows rows groups with
  | Ok _ => Forall (fun r => exists key, club_type_key r.2 = Some key) rows
  | Raise e =>
      exists before idx row after,
        rows = (before ++ (idx, row) :: after)%list
        /\ Forall (fun r => exists key, club_type_key r.2 = Some key) before
        /\ club_type_key row = None
        /\ e = AttributeError ("'" +:+ type_name (get row "club_type")
                               +:+ "' object has no attribute 'strip'")
  end.
Proof.
  revert groups. induction rows as [|[idx row] rows IH]; intros groups.
  - cbn [detect_rows]. constructor.
  - cbn [detect_rows]. destruct (py_strip (get row "club_type")) as [s|e] eqn:E.
    + cbn [bind]. apply py_strip_key in E.
      specialize (IH (group_append groups (lower s) idx)).
      destruct (detect_rows rows (group_append groups (lower s) idx)) as [g|e].
      * constructor; [eexists; exact E|exact IH].
      * destruct IH as (before & i & r & after & -> & Hb & Hr & He).
        exists ((idx, row) :: before), i, r, after.
        split; [reflexivity|]. split; [|split; assumption].
        constructor; [eexists; exact E|exact Hb].
    + cbn [bind]. exists [], idx, row, rows. split; [reflexivity|].
      split; [constructor|]. unfold club_type_key, py_strip in *.
      destruct (get row "club_type"); try discriminate E;
        injection E as <-; split; reflexivity.
Qed.

(** X21.  On a frame with a club type column, [detect_club_type]
    returns exactly when every club type cell holds text.  The first
    row whose cell does not (an empty cell of the file, which pandas
    reads as [nan], or a number) raises the [AttributeError] of
    [.strip()], and nothing is returned. *)
Theorem detect_club_type_raises (columns : list string) (rows : list (Z * Row)) :
  "club_type" ∈ columns ->
  match detect_club_type columns rows with
  | Ok _ => Forall (fun r => exists key, club_type_key r.2 = Some key) rows
  | Raise e =>
      exists before idx row after,
        rows = (before ++ (idx, row) :: after)%list
        /\ Forall (fun r => exists key, club_type_key r.2 = Some key) before
        /\ club_type_key row = None
        /\ e = AttributeError ("'" +:+ type_name (get row "club_type")
                               +:+ "' object has no attribute 'strip'")
  end.
Proof.
  intros H. unfold detect_club_type. rewrite bool_decide_eq_true_2 by exact H.
  apply detect_rows_raises.
Qed.

Lemma detect_club_type_raises_witness :
  exists before idx row after,
    [(0, row_of [("club_type", VStr "Iron")]);
     (1, row_of [("club_type", VFloat nan)])]
    = (before ++ (idx, row) :: after)%list
    /\ Forall (fun r => exists key, club_type_key r.2 = Some key) before
    /\ club_type_key row = None
    /\ AttributeError "'float' object has no attribute 'strip'"
       = AttributeError ("'" +:+ type_name (get row "club_type")
                         +:+ "' object has no attribute 'strip'").
Proof.
  apply (detect_club_type_raises ["manufacturer"; "club_type"]
           [(0, row_of [("club_type", VStr "Iron")]);
            (1, row_of [("club_type", VFloat nan)])]).
  apply (proj1 (bool_decide_spec _)). vm_compute. exact I.
Defined.

End Grouping.

Section Loading.

Lemma successes_app (df1 df2 : list (Z * Row)) (manufacturer : string)
    (club_type : ClubType) :
  successes (df1 ++ df2)%list manufacturer club_type
  = (successes df1 manufacturer club_type
     ++ successes df2 manufacturer club_type)%list.
Proof. unfold successes. apply flat_map_app. Qed.

Lemma normalize_dataframe_Ok (df : list (Z * Row)) (manufacturer : string)
    (club_type : ClubType) (specs : list ShaftSpec) :
  normalize_dataframe df manufacturer club_type = Ok specs ->
  specs = successes df manufacturer club_type.
Proof.
  unfold normalize_dataframe, normalize_dataframe_state. intros H.
  apply bind_Ok_inv in H as ([s e] & H & [= <-]).
  apply normalize_rows_Ok_inv in H as (_ & -> & _). reflexivity.
Qed.

Lemma normalize_type_groups_Ok (type_groups : list (string * list Z))
    (mfr_group : list (Z * Row)) (manufacturer : string)
    (all_specs out : list ShaftSpec) :
  normalize_type_groups type_groups mfr_group manufacturer all_specs = Ok out ->
  out = (all_specs
         ++ flat_map (fun g => successes (loc mfr_group g.2) manufacturer
                                 (default WOODS (CLUB_TYPE_MAP !! g.1)))
              type_groups)%list.
Proof.
  revert all_specs. induction type_groups as [|[key indices] groups IH];
    intros all_specs.
  - cbn [normalize_type_groups flat_map]. intros [= <-].
    rewrite app_nil_r. reflexivity.
  - cbn [normalize_type_groups flat_map fst snd]. intros H.
    apply bind_Ok_inv in H as (specs & Hs & H).
    apply normalize_dataframe_Ok in Hs. subst specs.
    apply IH in H. rewrite H, app_assoc. reflexivity.
Qed.

Lemma filter_none {A : Type} (P : A -> Prop) `{forall x, Decision (P x)}
    (l : list A) :
  (forall x, x ∈ l -> ~ P x) -> filter P l = [].
Proof.
  induction l as [|x l IH]; intros Hl; [reflexivity|].
  rewrite filter_cons_False by (apply Hl, list_elem_of_here).
  apply IH. intros y Hy. apply Hl, list_elem_of_further, Hy.
Qed.

(** With distinct index labels, the rows that carry the label of a row
    are that row alone. *)
Lemma filter_label (rows : list (Z * Row)) (i : Z) (row : Row) :
  NoDup rows.*1 -> (i, row) ∈ rows ->
  filter (fun r => r.1 = i) rows = [(i, row)].
Proof.
  induction rows as [|[j r] rows IH]; intros Hnd Hin; [inversion Hin|].
  cbn [fmap list_fmap fst] in Hnd. apply NoDup_cons in Hnd as [Hj Hnd].
  apply elem_of_cons in Hin as [Hin|Hin].
  - injection Hin as <- <-. rewrite filter_cons_True by reflexivity. f_equal.
    apply filter_none.
    intros [j r'] Hr ?. cbn [fst] in *. subst j. apply Hj.
    apply list_elem_of_fmap. exists (i, r'). split; [reflexivity|exact Hr].
  - rewrite filter_cons_False; [apply IH; assumption|].
    cbn [fst]. intros ->. apply Hj.
    apply list_elem_of_fmap. exists (i, row). split; [reflexivity|exact Hin].
Qed.

Lemma flat_map_ext_in {A B : Type} (f g : A -> list B) (l : list A) :
  (forall x, x ∈ l -> f x = g x) -> flat_map f l = flat_map g l.
Proof.
  induction l as [|x l IH]; intros H; [reflexivity|].
  cbn [flat_map]. rewrite (H x) by apply list_elem_of_here.
  rewrite IH; [reflexivity|]. intros y Hy. apply H, list_elem_of_further, Hy.
Qed.

Lemma flat_map_concat {A B : Type} (f : A -> list B) (ls : list (list A)) :
  flat_map f (concat ls) = flat_map (flat_map f) ls.
Proof.
  induction ls as [|l ls IH]; [reflexivity|].
  cbn [concat flat_map]. rewrite flat_map_app, IH. reflexivity.
Qed.

Lemma flat_map_fmap {A B C : Type} (f : B -> list C) (g : A -> B) (l : list A) :
  flat_map f (g <$> l) = flat_map (fun x => f (g x)) l.
Proof.
  induction l as [|x l IH]; [reflexivity|].
  cbn [fmap list_fmap flat_map]. rewrite <- IH. reflexivity.
Qed.

Lemma successes_loc (rows : list (Z * Row)) (indices : list Z)
    (manufacturer : string) (club_type : ClubType) :
  successes (loc rows indices) manufacturer club_type
  = flat_map (fun i => successes (filter (fun r => r.1 = i) rows)
                         manufacturer club_type) indices.
Proof.
  induction indices as [|i indices IH]; [reflexivity|].
  unfold loc in *. cbn [flat_map]. rewrite successes_app, IH. reflexivity.
Qed.

(** The records of a manufacturer group, type group by type group, are
    those of its rows, each under the club type of its own row. *)
Lemma normalize_type_groups_rows (columns : list string)
    (type_groups : list (string * list Z)) (mfr_group : list (Z * Row))
    (manufacturer : string) (all_specs out : list ShaftSpec) :
  NoDup mfr_group.*1 ->
  detect_club_type columns mfr_group = Ok type_groups ->
  normalize_type_groups type_groups mfr_group manufacturer all_specs = Ok out ->
  out ≡ₚ (all_specs
          ++ flat_map (row_specs manufacturer (club_type_of_row columns))
               mfr_group)%list.
Proof.
  intros Hnd Hd H. apply normalize_type_groups_Ok in H. subst out.
  apply Permutation_app_head.
  assert (Hfacts :
    concat type_groups.*2 ≡ₚ mfr_group.*1
    /\ forall key indices i row,
         (key, indices) ∈ type_groups -> i ∈ indices -> (i, row) ∈ mfr_group ->
         club_type_of_row columns row = default WOODS (CLUB_TYPE_MAP !! key)).
  { unfold club_type_of_row, detect_club_type in *.
    destruct (bool_decide ("club_type" ∈ columns)) eqn:B.
    - apply detect_rows_groups in Hd as (_ & Hperm & Hall).
      split; [exact Hperm|]. intros key indices i row Hin Hi Hrow.
      rewrite Forall_forall in Hall.
      destruct (Hall _ Hin) as (_ & _ & Htag). cbn [fst snd] in Htag.
      destruct (Htag i Hi) as (row' & Hrow' & Hkey).
      pose proof (filter_label _ _ _ Hnd Hrow) as F1.
      rewrite (filter_label _ _ _ Hnd Hrow') in F1.
      injection F1 as <-. rewrite Hkey. reflexivity.
    - injection Hd as <-. split.
      + cbn [fmap list_fmap snd concat]. rewrite app_nil_r. reflexivity.
      + intros key indices i row Hin _ _. apply list_elem_of_singleton in Hin.
        injection Hin as -> _. reflexivity. }
  destruct Hfacts as [Hperm Hclub].
  set (per_label := fun i : Z =>
         flat_map (row_specs manufacturer (club_type_of_row columns))
           (filter (fun r => r.1 = i) mfr_group)).
  assert (Hrows : flat_map (row_specs manufacturer (club_type_of_row columns))
                    mfr_group
                  = flat_map per_label mfr_group.*1).
  { rewrite (flat_map_fmap per_label). 
    apply flat_map_ext_in. intros [i row] Hin. unfold per_label.
    cbn [fst]. rewrite (filter_label _ _ _ Hnd Hin). cbn [flat_map].
    rewrite app_nil_r. reflexivity. }
  rewrite Hrows.
  assert (Hgroups :
    flat_map (fun g => successes (loc mfr_group g.2) manufacturer
                         (default WOODS (CLUB_TYPE_MAP !! g.1))) type_groups
    = flat_map per_label (concat type_groups.*2)).
  { rewrite flat_map_concat, (flat_map_fmap (flat_map per_label)).
    apply flat_map_ext_in. intros [key indices] Hin.
    cbn [fst snd]. rewrite successes_loc. apply flat_map_ext_in. intros i Hi.
    unfold per_label, successes. apply flat_map_ext_in. intros [j row] Hj.
    apply list_elem_of_filter in Hj as [Hj Hrow]. cbn [fst] in Hj. subst j.
    unfold row_specs. cbn [snd]. rewrite (Hclub _ _ _ _ Hin Hi Hrow). reflexivity. }
  rewrite Hgroups. apply Permutation_flat_map, Hperm.
Qed.

End Loading.

Section FloatEquality.

Lemma SFcompare_Eq (f g h : spec_float) :
  SFcompare f g = Some Eq -> SFcompare f h = SFcompare g h.
Proof.
  destruct f as [s1| s1| |s1 m1 e1], g as [s2| s2| |s2 m2 e2]; cbn; intros H;
    try discriminate H;
    try (destruct s1; discriminate H); try (destruct s2; discriminate H).
  - destruct h; reflexivity.
  - destruct s1, s2; try discriminate H; reflexivity.
  - assert (E : s1 = s2 /\ e1 = e2 /\ m1 = m2).
    { change (Pos.compare_cont Eq m1 m2) with (Pos.compare m1 m2) in H.
      destruct s1, s2; try discriminate H;
        destruct (e1 ?= e2)%Z eqn:He; try discriminate H;
        destruct (m1 ?= m2)%positive eqn:Hm; try discriminate H;
        apply Z.compare_eq in He; apply Pos.compare_eq in Hm; auto. }
    destruct E as (-> & -> & ->). reflexivity.
Qed.

Lemma float_eqb_sym (x y : float) : PrimFloat.eqb x y = PrimFloat.eqb y x.
Proof.
  rewrite !FloatAxioms.eqb_spec. unfold SFeqb.
  rewrite (SFcompare_antisym (Prim2SF x) (Prim2SF y)).
  destruct (SFcompare (Prim2SF x) (Prim2SF y)) as [[]|]; reflexivity.
Qed.

Lemma float_eqb_trans (x y z : float) :
  PrimFloat.eqb x y = true -> PrimFloat.eqb y z = true -> PrimFloat.eqb x z = true.
Proof.
  rewrite !FloatAxioms.eqb_spec. unfold SFeqb. intros Hxy Hyz.
  destruct (SFcompare (Prim2SF x) (Prim2SF y)) as [[]|] eqn:E; try discriminate.
  rewrite (SFcompare_Eq _ _ (Prim2SF z) E). exact Hyz.
Qed.

Lemma float_eqb_refl (x : float) :
  PrimFloat.is_nan x = false -> PrimFloat.eqb x x = true.
Proof. unfold PrimFloat.is_nan. intros H. apply negb_false_iff in H. exact H. Qed.

End FloatEquality.

Section GroupByProps.

Context {K R : Type} (eqb leb : K -> K -> bool).
Hypothesis eqb_sym : forall a b, eqb a b = eqb b a.
Hypothesis eqb_trans :
  forall a b c, eqb a b = true -> eqb b c = true -> eqb a c = true.

Lemma existsb_false {A : Type} (p : A -> bool) (l : list A) :
  existsb p l = false <-> forall x, x ∈ l -> p x = false.
Proof.
  induction l as [|a l IH]; cbn.
  - split; [intros _ x Hx; inversion Hx|reflexivity].
  - rewrite orb_false_iff, IH. split.
    + intros [Ha Hl] x Hx. apply elem_of_cons in Hx as [->|Hx]; auto.
    + intros H. split; [apply H; left|intros x Hx; apply H; right; exact Hx].
Qed.

Lemma uniques_spec (keys seen : list K) :
  (forall u, u ∈ uniques eqb keys seen -> forall s, s ∈ seen -> eqb u s = false)
  /\ distinct eqb (uniques eqb keys seen).
Proof.
  revert seen. induction keys as [|k keys IH]; intros seen; cbn [uniques].
  - split; [intros u Hu; inversion Hu|exact I].
  - destruct (existsb (eqb k) seen) eqn:E; [apply IH|].
    destruct (IH (k :: seen)) as [IH1 IH2].
    rewrite existsb_false in E. split.
    + intros u Hu s Hs. apply elem_of_cons in Hu as [->|Hu]; [apply E, Hs|].
      apply (IH1 u Hu). right. exact Hs.
    + cbn [distinct]. split; [|exact IH2].
      intros v Hv. rewrite eqb_sym. apply (IH1 v Hv). left.
Qed.

Lemma uniques_first (keys seen : list K) (k f : K) :
  (forall s, s ∈ seen -> eqb k s = false) ->
  find (eqb k) keys = Some f ->
  f ∈ uniques eqb keys seen.
Proof.
  revert seen. induction keys as [|k' keys IH]; intros seen Hseen; cbn [find uniques].
  - discriminate.
  - destruct (eqb k k') eqn:E.
    + intros [= <-]. destruct (existsb (eqb k') seen) eqn:Ex; [|left].
      apply existsb_exists in Ex as (s & Hs & Hks).
      apply list_elem_of_In in Hs. pose proof (Hseen s Hs) as C.
      rewrite (eqb_trans _ _ _ E Hks) in C. discriminate.
    + intros H. destruct (existsb (eqb k') seen).
      * apply (IH _ Hseen H).
      * right. apply IH; [|exact H].
        intros s Hs. apply elem_of_cons in Hs as [->|Hs]; [exact E|apply Hseen, Hs].
Qed.

Lemma first_equal_unique (keys : list K) (k : K) :
  eqb k k = true -> k ∈ keys ->
  first_equal eqb keys k ∈ uniques eqb keys []
  /\ eqb (first_equal eqb keys k) k = true.
Proof.
  intros Hrefl Hk. unfold first_equal.
  destruct (find (eqb k) keys) as [f|] eqn:E.
  - cbn. split.
    + apply (uniques_first keys [] k f); [|exact E]. intros s Hs. inversion Hs.
    + apply find_some in E as [_ E]. rewrite eqb_sym. exact E.
  - apply list_elem_of_In in Hk.
    rewrite (find_none _ _ E k Hk) in Hrefl. discriminate.
Qed.

(** Among distinct keys, one at most equals a given key. *)
Lemma flat_map_one {B : Type} (x : K -> B) (f : K -> list B) (k u : K)
    (U : list K) :
  distinct eqb U -> u ∈ U -> eqb u k = true ->
  flat_map (fun u' => if eqb u' k then x u' :: f u' else f u') U
  ≡ₚ x u :: flat_map f U.
Proof.
  intros Hd Hu Hk. induction U as [|u' U IH]; [inversion Hu|].
  destruct Hd as [Hd1 Hd2]. cbn [flat_map].
  apply elem_of_cons in Hu as [<-|Hu].
  - rewrite Hk. cbn. constructor. apply Permutation_app_head.
    erewrite flat_map_ext_in; [reflexivity|].
    intros v Hv. destruct (eqb v k) eqn:E; [|reflexivity].
    rewrite eqb_sym in E. pose proof (eqb_trans _ _ _ Hk E) as E'.
    rewrite (Hd1 v Hv) in E'. discriminate.
  - destruct (eqb u' k) eqn:E.
    + rewrite (eqb_sym u k) in Hk. pose proof (eqb_trans _ _ _ E Hk) as E'.
      rewrite (Hd1 u Hu) in E'. discriminate.
    + rewrite (IH Hd2 Hu). symmetry. apply Permutation_middle.
Qed.

Lemma groups_rows (rows : list (K * R)) (keys U : list K) :
  distinct eqb U ->
  (forall r, r ∈ rows ->
     first_equal eqb keys r.1 ∈ U /\ eqb (first_equal eqb keys r.1) r.1 = true) ->
  flat_map (fun u => pair u <$> (snd <$> filter (fun r => eqb u r.1 = true) rows)) U
  ≡ₚ (fun r => (first_equal eqb keys r.1, r.2)) <$> rows.
Proof.
  intros Hd. induction rows as [|r rows IH]; intros H.
  - cbn. clear Hd H. induction U as [|u U IHU]; [reflexivity|]. cbn. exact IHU.
  - rewrite fmap_cons.
    rewrite <- IH by (intros r' Hr'; apply H; right; exact Hr').
    destruct (H r) as [H1 H2]; [left|].
    rewrite <- (flat_map_one (fun u => (u, r.2)) _ r.1 _ U Hd H1 H2).
    erewrite flat_map_ext; [reflexivity|].
    intros u. cbn beta. destruct (eqb u r.1) eqn:E.
    + rewrite filter_cons_True by exact E. reflexivity.
    + rewrite filter_cons_False by (rewrite E; discriminate). reflexivity.
Qed.

(** The groups hold the rows: each row is in the group of the first key
    of the column that equals its own, and in no other. *)
Lemma groupby_rows (rows : list (K * R)) :
  (forall r, r ∈ rows -> eqb r.1 r.1 = true) ->
  flat_map (fun g => pair g.1 <$> g.2) (groupby eqb leb rows)
  ≡ₚ (fun r => (first_equal eqb rows.*1 r.1, r.2)) <$> rows.
Proof.
  intros Hrefl. unfold groupby. rewrite flat_map_fmap. cbn [fst snd].
  rewrite (Permutation_flat_map _ (merge_sort_Permutation _ _)).
  apply groups_rows; [apply uniques_spec|].
  intros r Hr. apply first_equal_unique; [apply Hrefl, Hr|].
  apply list_elem_of_fmap. exists r. split; [reflexivity|exact Hr].
Qed.

Lemma groupby_sublist (rows : list (K * R)) (g : K * list R) :
  g ∈ groupby eqb leb rows -> sublist g.2 rows.*2.
Proof.
  unfold groupby. intros H. apply list_elem_of_fmap in H as (key & -> & _).
  cbn [snd]. apply fmap_sublist, sublist_filter.
Qed.

End GroupByProps.

Section LoadingFiles.

Lemma normalize_manufacturers_rows (columns : list string)
    (groups : list (pyval * list (Z * Row))) (all_specs out : list ShaftSpec) :
  Forall (fun g => NoDup g.2.*1) groups ->
  normalize_manufacturers columns groups all_specs = Ok out ->
  out ≡ₚ (all_specs
          ++ flat_map (fun g => flat_map (row_specs (py_str g.1)
                                            (club_type_of_row columns)) g.2)
               groups)%list.
Proof.
  intros Hnd. revert all_specs.
  induction Hnd as [|[m rows] groups Hrows Hgroups IH]; intros all_specs.
  - cbn [normalize_manufacturers flat_map]. intros [= <-].
    rewrite app_nil_r. reflexivity.
  - cbn [normalize_manufacturers flat_map fst snd]. intros H.
    apply bind_Ok_inv in H as (type_groups & Hd & H).
    apply bind_Ok_inv in H as (specs & Hs & H).
    apply IH in H. rewrite H.
    rewrite (normalize_type_groups_rows _ _ _ _ _ _ Hrows Hd Hs), app_assoc.
    reflexivity.
Qed.

(** The index labels of a frame read from a file are distinct. *)
Lemma with_labels_bound {K : Type} (idx : Z) (rows : list (K * Row)) (i : Z) :
  i ∈ (with_labels idx rows).*2.*1 -> idx <= i.
Proof.
  revert idx. induction rows as [|[k row] rows IH]; intros idx; cbn.
  - intros H. inversion H.
  - intros H. apply elem_of_cons in H as [->|H]; [lia|].
    apply IH in H. lia.
Qed.

Lemma with_labels_NoDup {K : Type} (idx : Z) (rows : list (K * Row)) :
  NoDup (with_labels idx rows).*2.*1.
Proof.
  revert idx. induction rows as [|[k row] rows IH]; intros idx; cbn.
  - constructor.
  - constructor; [|apply IH].
    intros H. apply with_labels_bound in H. lia.
Qed.

Lemma omap_text_key_sublist (rows : list (option string * (Z * Row))) :
  sublist (omap text_key rows).*2 rows.*2.
Proof.
  induction rows as [|[[k|] r] rows IH]; cbn.
  - constructor.
  - constructor. exact IH.
  - constructor. exact IH.
Qed.

Lemma flat_map_groups {K A B : Type} (f : K * A -> list B)
    (groups : list (K * list A)) :
  flat_map (fun g => flat_map (fun r => f (g.1, r)) g.2) groups
  = flat_map f (flat_map (fun g => pair g.1 <$> g.2) groups).
Proof.
  induction groups as [|g groups IH]; [reflexivity|].
  cbn [flat_map]. rewrite flat_map_app, flat_map_fmap, IH. reflexivity.
Qed.

(** The records of the groups of a frame are those of its rows, each
    under the key of its group. *)
Lemma normalize_groups_rows {K : Type} (eqb leb : K -> K -> bool)
    (value : K -> pyval) (columns : list string) (rows : list (K * (Z * Row)))
    (specs : list ShaftSpec) :
  (forall a b, eqb a b = eqb b a) ->
  (forall a b c, eqb a b = true -> eqb b c = true -> eqb a c = true) ->
  (forall r, r ∈ rows -> eqb r.1 r.1 = true) ->
  NoDup rows.*2.*1 ->
  normalize_manufacturers columns (prod_map value id <$> groupby eqb leb rows) []
  = Ok specs ->
  specs ≡ₚ flat_map (fun r => row_specs
                                (py_str (value (first_equal eqb rows.*1 r.1)))
                                (club_type_of_row columns) r.2)
             rows.
Proof.
  intros Hsym Htrans Hrefl Hnd H.
  apply normalize_manufacturers_rows in H.
  - rewrite H, app_nil_l, flat_map_fmap. cbn [prod_map fst snd id].
    rewrite (flat_map_groups
               (fun p => row_specs (py_str (value p.1)) (club_type_of_row columns)
                           p.2)).
    rewrite (Permutation_flat_map _ (groupby_rows eqb leb Hsym Htrans rows Hrefl)).
    rewrite flat_map_fmap. reflexivity.
  - apply Forall_forall. intros g Hg.
    apply list_elem_of_fmap in Hg as (g' & -> & Hg). cbn [prod_map snd id].
    apply (sublist_NoDup _ rows.*2.*1); [exact Hnd|].
    apply fmap_sublist, (groupby_sublist eqb leb _ _ Hg).
Qed.

Lemma first_equal_eq {K : Type} (eqb : K -> K -> bool) (keys : list K) (k : K) :
  (forall a b, eqb a b = true -> a = b) -> first_equal eqb keys k = k.
Proof.
  intros Heq. unfold first_equal.
  destruct (find (eqb k) keys) as [f|] eqn:E; [|reflexivity].
  apply find_some in E as [_ E]. symmetry. apply (Heq _ _ E).
Qed.

(** X22.  Grouping by manufacturer and by club type drops the rows
    without a manufacturer and no other row, and normalizes no row
    twice.  The records [load_and_normalize] returns are, up to their
    order, the records of the rows of the file whose manufacturer cell
    is not null ([named_rows]), each normalized alone under the text of
    the key of its manufacturer group, which is the first cell of the
    column equal to its own, and under the club type of its own club
    type cell: the member that the trimmed, lower-cased cell names,
    woods for any other text and for a file with no such column. *)
Theorem load_and_normalize_rows (df : CsvFrame) (specs : list ShaftSpec) :
  load_and_normalize df = Ok specs ->
  "manufacturer" ∈ csv_columns df
  /\ specs ≡ₚ flat_map (fun r => row_specs r.1 (club_type_of_row (csv_columns df))
                                   r.2)
               (named_rows (csv_rows df)).
Proof.
  unfold load_and_normalize.
  destruct (bool_decide ("manufacturer" ∈ csv_columns df)) eqn:B; [|discriminate].
  apply bool_decide_eq_true in B. intros H. split; [exact B|].
  destruct (csv_rows df) as [rows|rows|rows|rows];
    cbn [groupby_manufacturer named_rows] in *.
  - apply normalize_groups_rows in H.
    + rewrite H. apply Permutation_refl'. apply flat_map_ext_in. intros r _.
      rewrite (first_equal_eq String.eqb); [reflexivity|].
      intros a b. apply String.eqb_eq.
    + apply String.eqb_sym.
    + intros a b c Hab Hbc. apply String.eqb_eq in Hab, Hbc. subst.
      apply String.eqb_refl.
    + intros r _. apply String.eqb_refl.
    + apply (sublist_NoDup _ (with_labels 0 rows).*2.*1);
        [apply with_labels_NoDup|].
      apply fmap_sublist, omap_text_key_sublist.
  - apply normalize_groups_rows in H.
    + rewrite H, flat_map_fmap. apply Permutation_refl'. apply flat_map_ext_in.
      intros r _. cbn [prod_map fst snd id].
      rewrite (first_equal_eq Bool.eqb); [reflexivity|].
      intros a b. apply Bool.eqb_prop.
    + intros [] []; reflexivity.
    + intros [] [] []; cbn; congruence.
    + intros [[] r] _; reflexivity.
    + apply with_labels_NoDup.
  - apply normalize_groups_rows in H.
    + rewrite H, flat_map_fmap. apply Permutation_refl'. apply flat_map_ext_in.
      intros r _. cbn [prod_map fst snd id].
      rewrite (first_equal_eq Z.eqb); [reflexivity|].
      intros a b. apply Z.eqb_eq.
    + apply Z.eqb_sym.
    + intros a b c Hab Hbc. apply Z.eqb_eq in Hab, Hbc. subst. apply Z.eqb_refl.
    + intros r _. apply Z.eqb_refl.
    + apply with_labels_NoDup.
  - apply normalize_groups_rows in H.
    + rewrite H, flat_map_fmap. reflexivity.
    + apply float_eqb_sym.
    + apply float_eqb_trans.
    + intros r Hr. apply list_elem_of_filter in Hr as [Hr _].
      apply float_eqb_refl, Hr.
    + apply (sublist_NoDup _ (with_labels 0 rows).*2.*1);
        [apply with_labels_NoDup|].
      apply fmap_sublist, fmap_sublist, sublist_filter.
Qed.

Lemma load_and_normalize_rows_witness :
  "manufacturer" ∈ csv_columns two_makers_file
  /\ (successes [(2, row_ventus)] "Fujikura" WOODS
      ++ successes [(0, row_tour_s); (3, row_tour_x)] "KBS" IRON)%list
     ≡ₚ flat_map (fun r => row_specs r.1
                             (club_type_of_row (csv_columns two_makers_file)) r.2)
          (named_rows (csv_rows two_makers_file)).
Proof.
  apply (load_and_normalize_rows two_makers_file).
  vm_compute. reflexivity.
Defined.

(** The three rows of the sample file: the two irons come first, then
    the wedge. *)
Example load_and_normalize_kbs_file :
  match load_and_normalize kbs_file with
  | Ok specs => map (fun s => (model s, club_type s, flex s)) specs
  | Raise _ => []
  end
  = [("Tour", IRON, STIFF); ("Tour", IRON, X_STIFF); ("Hi-Rev", WEDGE, STIFF)].
Proof. vm_compute. reflexivity. Qed.

(** The file of two manufacturers: the groups come in the order of
    their keys, and the row without a manufacturer, which normalizes
    when it has one, is in none of them. *)
Example load_and_normalize_two_makers :
  match load_and_normalize two_makers_file with
  | Ok specs => map (fun s => (manufacturer s, model s, flex s)) specs
  | Raise _ => []
  end
  = [("Fujikura", "Ventus", STIFF); ("KBS", "Tour", STIFF);
     ("KBS", "Tour", X_STIFF)]
  /\ named_rows (csv_rows two_makers_file)
     = [("KBS", (0, row_tour_s)); ("Fujikura", (2, row_ventus));
        ("KBS", (3, row_tour_x))]
  /\ exists spec, normalize_row row_hi_rev "KBS" WEDGE = Ok spec.
Proof.
  split; [vm_compute; reflexivity|]. split; [reflexivity|].
  eexists. vm_compute. reflexivity.
Qed.

(** A column of numbers in which a cell is empty is a column of floats:
    the row of the empty cell is in no group, and the rows of the two
    zeros are in one group, under the key of the first. *)
Example groupby_manufacturer_floats :
  groupby_manufacturer
    (FloatKeyed [(7%float, row_tour_s); (nan, row_hi_rev);
                 (0%float, row_ventus); ((-0)%float, row_tour_x)])
  = [(VFloat 0, [(2, row_ventus); (3, row_tour_x)]);
     (VFloat 7, [(0, row_tour_s)])].
Proof. vm_compute. reflexivity. Qed.

End LoadingFiles.

Section Filtering.

Lemma filter_True {A : Type} (l : list A) : filter (fun _ => True) l = l.
Proof.
  induction l as [|x l IH]; [reflexivity|].
  rewrite filter_cons_True by exact I. rewrite IH. reflexivity.
Qed.

(** One conditional statement over a list of values, on a table that is
    the rows satisfying [P]. *)
Lemma if_nonempty_select (values : option (list string)) (column : string)
    (cell : ShaftSpec -> option string) (P : ShaftSpec -> Prop)
    `{forall s, Decision (P s)} (records : list ShaftSpec) :
  if_nonempty values (fun vs => select column (fun s => isin (cell s) vs))
    (Returns (Table (filter P records)))
  = Returns (Table (filter (fun s => given_list values (cell s) = true /\ P s)
                      records)).
Proof.
  destruct values as [[|v vs]|]; cbn [if_nonempty select given_list].
  - f_equal. f_equal. apply list_filter_iff. intros s. tauto.
  - rewrite list_filter_filter. reflexivity.
  - f_equal. f_equal. apply list_filter_iff. intros s. tauto.
Qed.

(** One conditional statement over a bound. *)
Lemma if_given_select (bound : option float) (column : string)
    (compare : float -> float -> bool) (cell : ShaftSpec -> option float)
    (P : ShaftSpec -> Prop) `{forall s, Decision (P s)}
    (records : list ShaftSpec) :
  if_given bound (fun b => select column (fun s => notna_and (compare b) (cell s)))
    (Returns (Table (filter P records)))
  = Returns (Table (filter (fun s => given_bound bound compare (cell s) = true /\ P s)
                      records)).
Proof.
  destruct bound as [b|]; cbn [if_given select given_bound].
  - rewrite list_filter_filter. reflexivity.
  - f_equal. f_equal. apply list_filter_iff. intros s. tauto.
Qed.

Lemma filter_shafts_passes (records : list ShaftSpec) (o : FilterOptions) :
  filter_shafts (Table records) o
  = Returns (Table (filter (fun s => passes o s = true) records)).
Proof.
  unfold filter_shafts. rewrite <- (filter_True records) at 1.
  rewrite (if_nonempty_select _ _ (fun s => Some (manufacturer s))).
  rewrite (if_nonempty_select _ _ (fun s => Some (ClubType_value (club_type s)))).
  rewrite (if_nonempty_select _ _ (fun s => Some (Flex_value (flex s)))).
  rewrite (if_given_select _ _ PrimFloat.leb (fun s => Some (weight_grams s))).
  rewrite (if_given_select _ _ (fun b w => PrimFloat.leb w b)
             (fun s => Some (weight_grams s))).
  rewrite (if_given_select _ _ PrimFloat.leb torque_degrees).
  rewrite (if_given_select _ _ (fun b t => PrimFloat.leb t b) torque_degrees).
  rewrite (if_nonempty_select _ _ (fun s => LaunchProfile_value <$> launch s)).
  rewrite (if_nonempty_select _ _ (fun s => SpinProfile_value <$> spin s)).
  rewrite (if_given_select _ _ (fun b p => PrimFloat.leb p b) msrp_usd).
  f_equal. f_equal. apply list_filter_iff. intros s. unfold passes.
  rewrite !andb_true_iff. tauto.
Qed.

(** X23.  On a table, [filter_shafts] keeps exactly the records that
    satisfy every condition given, in the order of the table: a list
    that is absent or empty and a bound that is absent are no
    condition; the bounds are inclusive; a record without torque, or
    without price, does not satisfy a condition on it. *)
Theorem filter_shafts_keeps_passing (records : list ShaftSpec) (o : FilterOptions) :
  exists kept,
    filter_shafts (Table records) o = Returns (Table kept)
    /\ kept `sublist_of` records
    /\ (forall s, s ∈ kept <-> s ∈ records /\ passes o s = true).
Proof.
  exists (filter (fun s => passes o s = true) records).
  split; [apply filter_shafts_passes|]. split; [apply sublist_filter|].
  intros s. rewrite list_elem_of_filter. tauto.
Qed.

(** X24.  Filtering is idempotent, and two calls commute: filtering the
    table a call returned with the same conditions changes nothing,
    and under two sets of conditions one after the other the table is
    the same in either order. *)
Theorem filter_shafts_again (records : list ShaftSpec) (o1 o2 : FilterOptions) :
  filter_again (filter_shafts (Table records) o1) o1
  = filter_shafts (Table records) o1
  /\ filter_again (filter_shafts (Table records) o1) o2
     = filter_again (filter_shafts (Table records) o2) o1.
Proof.
  rewrite !filter_shafts_passes. cbn [filter_again].
  rewrite !filter_shafts_passes, !list_filter_filter. split.
  - f_equal. f_equal. apply list_filter_iff. intros s. tauto.
  - f_equal. f_equal. apply list_filter_iff. intros s. tauto.
Qed.

(** X25.  On the frame of an empty store, which has no column, a call
    of [filter_shafts] with no condition returns the frame, and a call
    with a condition raises the [KeyError] of the first column it
    reads. *)
Theorem filter_shafts_no_columns (o : FilterOptions) :
  filter_shafts NoColumns o
  = match first_column o with
    | Some column => KeyError column
    | None => Returns NoColumns
    end.
Proof.
  destruct o as [m c f wmin wmax tmin tmax l sp p].
  destruct m as [[|? ?]|], c as [[|? ?]|], f as [[|? ?]|], wmin, wmax,
    tmin, tmax, l as [[|? ?]|], sp as [[|? ?]|], p; reflexivity.
Qed.

End Filtering.

Section Endpoint.

(** X26.  The endpoint [/shafts] returns the page of [limit] records
    from position [offset] of the records of the store that satisfy the
    conditions of the query, in the order of the store: a page holds at
    most [limit] records, and two pages, one after the other, are the
    page of their two limits together. *)
Theorem list_shafts_pages (file : StoreFile) (specs : list ShaftSpec)
    (manufacturer club_type flex : option string)
    (weight_min weight_max : option float) :
  load_database file = Ok specs ->
  let query := shafts_query manufacturer club_type flex weight_min weight_max in
  let page := list_shafts file manufacturer club_type flex weight_min weight_max in
  exists matching,
    matching = filter (fun s => passes query s = true) specs
    /\ (forall limit offset,
          page limit offset = Returns (take limit (drop offset matching)))
    /\ (forall limit offset records,
          page limit offset = Returns records -> (length records <= limit)%nat)
    /\ (forall limit1 limit2 offset records1 records2,
          page limit1 offset = Returns records1 ->
          page limit2 (offset + limit1)%nat = Returns records2 ->
          page (limit1 + limit2)%nat offset = Returns (records1 ++ records2)%list).
Proof.
  intros Hload query page. eexists. split; [reflexivity|].
  assert (Hpage : forall limit offset,
            page limit offset
            = Returns (take limit (drop offset
                         (filter (fun s => passes query s = true) specs)))).
  { intros limit offset. unfold page, list_shafts, load_database_df.
    rewrite Hload. cbn [bind]. destruct specs as [|spec specs].
    - cbn [empty]. rewrite filter_nil, drop_nil, take_nil. reflexivity.
    - cbn [empty]. fold (shafts_query manufacturer club_type flex weight_min weight_max).
      fold query. rewrite filter_shafts_passes. reflexivity. }
  split; [exact Hpage|]. split.
  - intros limit offset records. rewrite Hpage. intros [= <-].
    rewrite length_take. lia.
  - intros limit1 limit2 offset records1 records2. rewrite !Hpage.
    intros [= <-] [= <-]. f_equal.
    rewrite <- drop_drop, <- take_take_drop. reflexivity.
Qed.

Lemma list_shafts_pages_witness :
  list_shafts (save_database four_weights) None None None
    (Some 60%float) (Some 70%float) 50 0
  = Returns (take 50 (drop 0
               (filter (fun s => passes (shafts_query None None None
                                           (Some 60%float) (Some 70%float)) s
                                 = true)
                  four_weights))).
Proof.
  destruct (list_shafts_pages (save_database four_weights) four_weights
              None None None (Some 60%float) (Some 70%float)
              ltac:(vm_compute; reflexivity)) as (matching & -> & H & _).
  apply H.
Defined.

(** Of the records of 55, 62, 67 and 75 grams, those of 60 to 70 grams
    are the two of 62 and 67 grams. *)
Example list_shafts_60_to_70 :
  list_shafts (save_database four_weights) None None None
    (Some 60%float) (Some 70%float) 50 0
  = Returns [spec_of "B" STIFF 62; spec_of "C" STIFF 67].
Proof. vm_compute. reflexivity. Qed.

End Endpoint.

Section Manufacturers.

Lemma unique_loop_elem_of (values : list string) (seen : gset string) (v : string) :
  v ∈ unique_loop values seen <-> v ∈ values /\ v ∉ seen.
Proof.
  revert seen. induction values as [|x values IH]; intros seen.
  - cbn [unique_loop]. split; [intros H; inversion H|intros [H _]; inversion H].
  - cbn [unique_loop]. destruct (decide (x ∈ seen)) as [Hx|Hx].
    + rewrite IH, elem_of_cons. split; [tauto|].
      intros [[->|H] Hs]; [contradiction|tauto].
    + rewrite !elem_of_cons, IH, elem_of_union, elem_of_singleton. split.
      * intros [->|[H Hs]]; [tauto|]. split; [tauto|]. intros Hv. apply Hs. tauto.
      * intros [[->|H] Hs]; [tauto|].
        destruct (decide (v = x)) as [->|Hne]; [tauto|]. right. tauto.
Qed.

Lemma unique_loop_NoDup (values : list string) (seen : gset string) :
  NoDup (unique_loop values seen).
Proof.
  revert seen. induction values as [|x values IH]; intros seen;
    cbn [unique_loop]; [constructor|].
  destruct (decide (x ∈ seen)); [apply IH|].
  apply NoDup_cons. split; [|apply IH].
  rewrite unique_loop_elem_of, elem_of_union, elem_of_singleton. tauto.
Qed.

#[local] Instance text_le_total : Total text_le.
Proof. intros a b. apply String.leb_total. Qed.

(** X27.  The endpoint [/manufacturers] returns each manufacturer of
    the store once, in ascending order of the texts (the order of the
    character codes, in which upper case comes before lower case), and
    nothing else; for an absent or empty store, the empty list. *)
Theorem list_manufacturers_sorted (file : StoreFile) (specs : list ShaftSpec) :
  load_database file = Ok specs ->
  exists names,
    list_manufacturers file = Ok names
    /\ NoDup names
    /\ Sorted text_le names
    /\ (forall name, name ∈ names <-> exists spec, spec ∈ specs
                                        /\ manufacturer spec = name).
Proof.
  intros H. unfold list_manufacturers, load_database_df. rewrite H. cbn [bind].
  destruct specs as [|spec specs].
  - exists []. split; [reflexivity|]. split; [constructor|]. split; [constructor|].
    intros name. split; [intros Hn; inversion Hn|intros (s & Hs & _); inversion Hs].
  - exists (sorted (unique (manufacturer <$> spec :: specs))).
    split; [reflexivity|]. unfold sorted. split; [|split].
    + rewrite merge_sort_Permutation. apply unique_loop_NoDup.
    + apply (Sorted_merge_sort text_le); exact text_le_total.
    + intros name. rewrite merge_sort_Permutation. unfold unique.
      rewrite unique_loop_elem_of, list_elem_of_fmap. split.
      * intros [(s & -> & Hs) _]. exists s. split; [exact Hs|reflexivity].
      * intros (s & Hs & <-). split; [|apply not_elem_of_empty].
        exists s. split; [reflexivity|exact Hs].
Qed.

Lemma list_manufacturers_sorted_witness :
  exists names,
    list_manufacturers
      (save_database [spec_of "Tour" STIFF 120; ventus_blue;
                      spec_of "C-Taper" STIFF 120]) = Ok names
    /\ NoDup names
    /\ Sorted text_le names
    /\ (forall name,
          name ∈ names <->
          exists spec, spec ∈ [spec_of "Tour" STIFF 120; ventus_blue;
                               spec_of "C-Taper" STIFF 120]
                       /\ manufacturer spec = name).
Proof.
  apply (list_manufacturers_sorted
           (save_database [spec_of "Tour" STIFF 120; ventus_blue;
                           spec_of "C-Taper" STIFF 120])).
  vm_compute. reflexivity.
Defined.

Example list_manufacturers_example :
  list_manufacturers
    (save_database [spec_of "Tour" STIFF 120; ventus_blue;
                    spec_of "C-Taper" STIFF 120])
  = Ok ["Fujikura"; "KBS"].
Proof. vm_compute. reflexivity. Qed.

End Manufacturers.
